(* ============================================================================
   ConciliadorDePagos: amount and date normalisation, statement/ledger
   extraction and the bank/supplier reconciliation engine.

   Modelling conventions
   - A JavaScript string is a list of UTF-16 code units ([jstr], a list of Z);
     [js] lifts an ASCII literal.
   - A JavaScript number used as an amount is modelled as an exact rational
     (QArith); parsed decimals are their exact decimal value (the IEEE
     rounding of [parseFloat] is not modelled).
   - A [Date] time value is modelled in milliseconds with a UTC local time
     zone; [None] stands for NaN.
   ========================================================================== *)

From Stdlib Require Import String Ascii Bool ZArith QArith Qabs Lia List.
Import ListNotations.

Open Scope Z_scope.

(* ---------------------------------------------------------------------------
   JavaScript strings
   ------------------------------------------------------------------------- *)

Definition jstr := list Z.

Definition js (s : string) : jstr :=
  map (fun a => Z.of_nat (nat_of_ascii a)) (list_ascii_of_string s).

Definition jstr_eqb (a b : jstr) : bool :=
  if list_eq_dec Z.eq_dec a b then true else false.

Definition is_digit (c : Z) : bool := (48 <=? c) && (c <=? 57).

(** White space and line terminators, the class [\s] of a JS regular
    expression and the characters removed by [String.prototype.trim]. *)
Definition is_js_space (c : Z) : bool :=
  (9 <=? c) && (c <=? 13) || (c =? 32) || (c =? 160) || (c =? 5760)
  || (8192 <=? c) && (c <=? 8202) || (c =? 8232) || (c =? 8233)
  || (c =? 8239) || (c =? 8287) || (c =? 12288) || (c =? 65279).

Fixpoint drop_while (p : Z -> bool) (s : jstr) : jstr :=
  match s with
  | [] => []
  | c :: r => if p c then drop_while p r else s
  end.

(** [String.prototype.trim] *)
Definition trim (s : jstr) : jstr :=
  rev (drop_while is_js_space (rev (drop_while is_js_space s))).

(** Longest prefix whose characters satisfy [p], and the rest. *)
Fixpoint span (p : Z -> bool) (s : jstr) : jstr * jstr :=
  match s with
  | [] => ([], [])
  | c :: r => if p c then let (a, b) := span p r in (c :: a, b) else ([], s)
  end.

(** [String.prototype.replace(c, d)] with a one-character string pattern:
    only the first occurrence is replaced. *)
Fixpoint replace_first (c d : Z) (s : jstr) : jstr :=
  match s with
  | [] => []
  | x :: r => if x =? c then d :: r else x :: replace_first c d r
  end.

(** [String.prototype.lastIndexOf] for a one-character pattern, -1 when
    absent. *)
Fixpoint lastIndexOf_from (c : Z) (s : jstr) (i : Z) (acc : Z) : Z :=
  match s with
  | [] => acc
  | x :: r => lastIndexOf_from c r (i + 1) (if x =? c then i else acc)
  end.

Definition lastIndexOf (c : Z) (s : jstr) : Z := lastIndexOf_from c s 0 (-1).

(** [String.prototype.includes] for a one-character pattern. *)
Definition includes_char (c : Z) (s : jstr) : bool := existsb (Z.eqb c) s.

Definition val_digits (ds : jstr) : Z :=
  fold_left (fun acc d => acc * 10 + (d - 48)) ds 0.

(* ---------------------------------------------------------------------------
   utils/currency.ts : amountsMatch
   ------------------------------------------------------------------------- *)

Definition Qltb (x y : Q) : bool := negb (Qle_bool y x).

(** [amountsMatch(amount1, amount2, tolerance)] =
    [Math.abs(Math.abs(amount1) - Math.abs(amount2)) < tolerance]. *)
Definition amountsMatch (amount1 amount2 tolerance : Q) : bool :=
  Qltb (Qabs (Qabs amount1 - Qabs amount2)) tolerance.

Definition default_tolerance : Q := 1 # 100.

(* ---------------------------------------------------------------------------
   utils/currency.ts : parseCurrency
   ------------------------------------------------------------------------- *)

(** The class [[€$£¥\s]] removed from the amount text. *)
Definition is_currency_or_space (c : Z) : bool :=
  (c =? 8364) || (c =? 36) || (c =? 163) || (c =? 165) || is_js_space c.

(** The complement of [[^\d.-]]: the characters kept before [parseFloat]. *)
Definition keep_numeric (c : Z) : bool := is_digit c || (c =? 46) || (c =? 45).

Definition remove_char (c : Z) (s : jstr) : jstr := filter (fun x => negb (x =? c)) s.

(** [parseFloat]: leading white space, an optional sign, then the longest
    prefix of the form [digits [. digits]] or [. digits]; NaN ([None]) when
    there is none.  The exponent and [Infinity] forms of [StrDecimalLiteral]
    are left out: [parseCurrency] only hands it strings over [[0-9.-]]. *)
Definition parseFloat (s : jstr) : option Q :=
  let s1 := drop_while is_js_space s in
  let '(neg, s2) :=
    match s1 with
    | 45 :: r => (true, r)
    | 43 :: r => (false, r)
    | _ => (false, s1)
    end in
  let '(ip, r1) := span is_digit s2 in
  let fp := match r1 with 46 :: r2 => fst (span is_digit r2) | _ => [] end in
  if (length ip =? 0)%nat && (length fp =? 0)%nat then None
  else
    let q := (inject_Z (val_digits ip)
              + inject_Z (val_digits fp) / inject_Z (10 ^ Z.of_nat (length fp)))%Q in
    Some (if neg then (- q)%Q else q).

(** [parseCurrency(str)] ([null], [undefined] and [""] are the empty
    string). *)
Definition parseCurrency (str : jstr) : Q :=
  match str with
  | [] => 0%Q
  | _ =>
    let cleanStr0 := trim str in
    let cleanStr1 := filter (fun c => negb (is_currency_or_space c)) cleanStr0 in
    let hasComma := includes_char 44 cleanStr1 in
    let hasDot := includes_char 46 cleanStr1 in
    let cleanStr2 :=
      if hasComma && hasDot then
        let lastCommaPos := lastIndexOf 44 cleanStr1 in
        let lastDotPos := lastIndexOf 46 cleanStr1 in
        if lastDotPos >? lastCommaPos then remove_char 44 cleanStr1
        else replace_first 44 46 (remove_char 46 cleanStr1)
      else if hasComma && negb hasDot then replace_first 44 46 cleanStr1
      else cleanStr1 in
    let cleanStr3 := filter keep_numeric cleanStr2 in
    match parseFloat cleanStr3 with
    | Some parsed => parsed
    | None => 0%Q
    end
  end.

(** The notation rule as the specification words it (section 4.1): compare
    the last ',' and the last '.' of the cleaned string; '.' after the last
    ',' is US notation (strip the commas), otherwise European notation (strip
    the dots, the comma becomes the decimal point); then keep [[0-9.-]] and
    read the number, 0 when there is none. *)
Definition currency_clean (str : jstr) : jstr :=
  filter (fun c => negb (is_currency_or_space c)) (trim str).

Definition notation_rule (c : jstr) : jstr :=
  if lastIndexOf 46 c >? lastIndexOf 44 c then remove_char 44 c
  else replace_first 44 46 (remove_char 46 c).

Definition parseCurrency_rule (str : jstr) : Q :=
  match str with
  | [] => 0%Q
  | _ =>
    match parseFloat (filter keep_numeric (notation_rule (currency_clean str))) with
    | Some q => q
    | None => 0%Q
    end
  end.

(* ---------------------------------------------------------------------------
   String.prototype.split with a one-character separator, parseInt(_, 10)
   ------------------------------------------------------------------------- *)

Fixpoint split_char (c : Z) (s : jstr) : list jstr :=
  match s with
  | [] => [[]]
  | x :: r =>
    if x =? c then [] :: split_char c r
    else match split_char c r with
         | p :: ps => (x :: p) :: ps
         | [] => [[x]]
         end
  end.

(** [parseInt(s, 10)]: leading white space, an optional sign, the longest
    run of decimal digits; NaN ([None]) when there is no digit. *)
Definition parseInt10 (s : jstr) : option Z :=
  let s1 := drop_while is_js_space s in
  let '(neg, s2) :=
    match s1 with
    | 45 :: r => (true, r)
    | 43 :: r => (false, r)
    | _ => (false, s1)
    end in
  match fst (span is_digit s2) with
  | [] => None
  | ds => Some (if neg then - val_digits ds else val_digits ds)
  end.

(* ---------------------------------------------------------------------------
   Date: new Date(year, monthIndex, day).getTime(), local time taken as UTC
   ------------------------------------------------------------------------- *)

(** Days from 1970-01-01 to the proleptic Gregorian date [y-m-d],
    [1 <= m <= 12] (floor division throughout). *)
Definition days_from_civil (y m d : Z) : Z :=
  let y' := if m <=? 2 then y - 1 else y in
  let era := y' / 400 in
  let yoe := y' - era * 400 in
  let mp := (m + 9) mod 12 in
  let doy := (153 * mp + 2) / 5 + d - 1 in
  let doe := yoe * 365 + yoe / 4 - yoe / 100 + doy in
  era * 146097 + doe - 719468.

Definition msPerDay : Z := 86400000.

(** The time value of [new Date(y, m, d)]: years 0..99 are 1900..1999,
    MakeDay carries month and day overflow, TimeClip gives NaN ([None])
    beyond 8.64e15 ms, and a NaN argument gives NaN. *)
Definition js_new_Date (y m d : option Z) : option Z :=
  match y, m, d with
  | Some y, Some m, Some d =>
    let yr := if (0 <=? y) && (y <=? 99) then 1900 + y else y in
    let day := days_from_civil (yr + m / 12) (m mod 12 + 1) 1 + d - 1 in
    let t := day * msPerDay in
    if Z.abs t >? 8640000000000000 then None else Some t
  | _, _, _ => None
  end.

(* ---------------------------------------------------------------------------
   Records (types/index.ts)
   ------------------------------------------------------------------------- *)

Module Bank.
Record t := mk {
  id : jstr; fContable : jstr; fValor : jstr; concepto : jstr;
  importeRaw : jstr; importe : Q; saldo : option Q; sourceFile : jstr;
  bankType : jstr }.
End Bank.

Module Supplier.
Record t := mk {
  id : jstr; fecha : jstr; codigo : jstr; nombre : jstr; documento : jstr;
  referencia : jstr; importeRaw : jstr; importe : Q; sourceFile : jstr }.
End Supplier.

Inductive Status := Match | Unmatched.

Definition Status_eqb (a b : Status) : bool :=
  match a, b with
  | Match, Match | Unmatched, Unmatched => true
  | _, _ => false
  end.

(** [{ ...bankRecord, matchedDoc, supplierName, status }] *)
Record MatchedBankRecord := mkMatched {
  bank : Bank.t; matchedDoc : option jstr; supplierName : option jstr;
  status : Status }.

Record ReconciliationStats := mkStats {
  bankTotal : Z; supplierTotal : Z; matches : Z; unmatchedCount : Z;
  matchPercentage : Q }.

Record ReconciliationResult := mkResult {
  records : list MatchedBankRecord; stats : ReconciliationStats }.

(** [MatchingOptions]: [None] is an absent key. *)
Record MatchingOptions := mkOptions {
  amountTolerance_opt : option Q; useAccountingDate_opt : option bool }.

Record RequiredOptions := mkRequired {
  amountTolerance : Q; useAccountingDate : bool }.

Definition DEFAULT_OPTIONS : RequiredOptions := mkRequired (1 # 100) true.

Definition no_options : MatchingOptions := mkOptions None None.

(** [{ ...DEFAULT_OPTIONS, ...options }] *)
Definition mergeOptions (o : MatchingOptions) : RequiredOptions :=
  mkRequired
    (match amountTolerance_opt o with Some v => v | None => amountTolerance DEFAULT_OPTIONS end)
    (match useAccountingDate_opt o with Some v => v | None => useAccountingDate DEFAULT_OPTIONS end).

(* ---------------------------------------------------------------------------
   services/reconciliation/reconciliationService.ts
   ------------------------------------------------------------------------- *)

(** [getMonthYear(dateStr)]: ["MM/YYYY"] of a ["DD/MM/YYYY"] string. *)
Definition getMonthYear (dateStr : jstr) : option jstr :=
  match dateStr with
  | [] => None
  | _ =>
    match split_char 47 dateStr with
    | [_; month; year] => Some (month ++ [47] ++ year)
    | _ => None
    end
  end.

(** [parseDate(dateStr)]: [None] is [null]; [Some t] is a [Date] object,
    whose time value [t] may be NaN ([None]). *)
Definition parseDate (dateStr : jstr) : option (option Z) :=
  match dateStr with
  | [] => None
  | _ =>
    match split_char 47 dateStr with
    | [p0; p1; p2] =>
      Some (js_new_Date (parseInt10 p2)
                        (option_map (fun m => m - 1) (parseInt10 p1))
                        (parseInt10 p0))
    | _ => None
    end
  end.

(** [Math.abs(a - b)] on time values, NaN ([None]) propagated. *)
Definition time_diff (a b : option Z) : option Z :=
  match a, b with
  | Some x, Some y => Some (Z.abs (x - y))
  | _, _ => None
  end.

(** [a < b] on numbers where [None] is NaN (every comparison false). *)
Definition num_lt (a b : option Z) : bool :=
  match a, b with
  | Some x, Some y => x <? y
  | _, _ => false
  end.

(** One iteration of the [for] loop of [findClosestDateMatch]; the state is
    [(closestSupplier, smallestDiff)] with [None] for [Infinity]. *)
Definition closest_step (targetDateTime : option Z)
    (st : Supplier.t * option Z) (supplier : Supplier.t) : Supplier.t * option Z :=
  let '(closestSupplier, smallestDiff) := st in
  match parseDate (Supplier.fecha supplier) with
  | None => st
  | Some supplierDateTime =>
    match time_diff targetDateTime supplierDateTime with
    | None => st
    | Some diff =>
      if match smallestDiff with None => true | Some m => diff <? m end
      then (supplier, Some diff) else st
    end
  end.

Definition findClosestDateMatch (suppliers : list Supplier.t) (targetDate : jstr)
    : option Supplier.t :=
  match suppliers with
  | [] => None
  | s0 :: _ =>
    match parseDate targetDate with
    | None => Some s0
    | Some targetDateTime =>
      Some (fst (fold_left (closest_step targetDateTime) suppliers (s0, None)))
    end
  end.

Definition opt_jstr_eqb (a b : option jstr) : bool :=
  match a, b with
  | Some x, Some y => jstr_eqb x y
  | None, None => true
  | _, _ => false
  end.

(** Steps 2 and 3 of [findSupplierMatch] (same month/year as [bankDate]):
    [Some r] returns [r], [None] falls through to the next step. *)
Definition month_year_step (amountMatches : list Supplier.t) (bankDate : jstr)
    : option (option Supplier.t) :=
  match getMonthYear bankDate with
  | None => None
  | Some bankMonthYear =>
    let dateMatches := filter (fun supplier =>
      opt_jstr_eqb (getMonthYear (Supplier.fecha supplier)) (Some bankMonthYear))
      amountMatches in
    match dateMatches with
    | [] => None
    | [m] => Some (Some m)
    | _ => Some (findClosestDateMatch dateMatches bankDate)
    end
  end.

Definition findSupplierMatch (bankRecord : Bank.t) (supplierRecords : list Supplier.t)
    (options : RequiredOptions) : option Supplier.t :=
  let amountMatches := filter (fun supplier =>
    amountsMatch (Supplier.importe supplier) (Bank.importe bankRecord)
                 (amountTolerance options)) supplierRecords in
  match amountMatches with
  | [] => None
  | [m] => Some m
  | _ =>
    match month_year_step amountMatches (Bank.fValor bankRecord) with
    | Some r => r
    | None =>
      match (if useAccountingDate options
             then month_year_step amountMatches (Bank.fContable bankRecord)
             else None) with
      | Some r => r
      | None =>
        let closestMatch := findClosestDateMatch amountMatches (Bank.fValor bankRecord) in
        match closestMatch with
        | Some cm =>
          if useAccountingDate options then
            let closestWithContable :=
              findClosestDateMatch amountMatches (Bank.fContable bankRecord) in
            match parseDate (Supplier.fecha cm), parseDate (Bank.fValor bankRecord),
                  parseDate (Bank.fContable bankRecord), closestWithContable with
            | Some closestDate, Some fValorDate, Some fContableDate, Some cwc =>
              let diffValor := time_diff closestDate fValorDate in
              let diffContable := time_diff closestDate fContableDate in
              if num_lt diffContable diffValor then Some cwc else closestMatch
            | _, _, _, _ => closestMatch
            end
          else closestMatch
        | None => closestMatch
        end
      end
    end
  end.

Definition calculateStats (records : list MatchedBankRecord) (supplierTotal : Z)
    : ReconciliationStats :=
  let matches := Z.of_nat (length (filter (fun r => Status_eqb (status r) Match) records)) in
  let total := Z.of_nat (length records) in
  let unmatchedCount := total - matches in
  let matchPercentage :=
    if total >? 0 then (inject_Z matches / inject_Z total * 100)%Q else 0%Q in
  mkStats total supplierTotal matches unmatchedCount matchPercentage.

(** The arrays of supplier records live in a heap indexed by location, so
    that the copy [[...supplierRecords]] and the in-place [splice] of
    [performReconciliation] are modelled with their aliasing. *)
Definition heap := list (list Supplier.t).

Definition load (h : heap) (l : nat) : list Supplier.t := nth l h [].

Fixpoint store (h : heap) (l : nat) (v : list Supplier.t) : heap :=
  match h, l with
  | [], _ => []
  | _ :: r, O => v :: r
  | x :: r, S l' => x :: store r l' v
  end.

(** [availableSuppliers.findIndex((s) => s.id === id)], [None] for -1. *)
Fixpoint findIndex_id (i : jstr) (l : list Supplier.t) : option nat :=
  match l with
  | [] => None
  | s :: r =>
    if jstr_eqb (Supplier.id s) i then Some O
    else option_map S (findIndex_id i r)
  end.

(** [splice(k, 1)] *)
Fixpoint remove_at {A} (k : nat) (l : list A) : list A :=
  match l, k with
  | [], _ => []
  | _ :: r, O => r
  | x :: r, S k' => x :: remove_at k' r
  end.

(** The callback of [bankRecords.map], reading and splicing the array at
    location [avail]. *)
Definition match_bank_record (options : RequiredOptions) (avail : nat) (h : heap)
    (bankRecord : Bank.t) : heap * MatchedBankRecord :=
  match findSupplierMatch bankRecord (load h avail) options with
  | Some m =>
    let h' :=
      match findIndex_id (Supplier.id m) (load h avail) with
      | Some k => store h avail (remove_at k (load h avail))
      | None => h
      end in
    (h', mkMatched bankRecord (Some (Supplier.documento m)) (Some (Supplier.nombre m)) Match)
  | None => (h, mkMatched bankRecord None None Unmatched)
  end.

Fixpoint map_bank_records (options : RequiredOptions) (avail : nat) (h : heap)
    (bankRecords : list Bank.t) : heap * list MatchedBankRecord :=
  match bankRecords with
  | [] => (h, [])
  | b :: bs =>
    let '(h1, r) := match_bank_record options avail h b in
    let '(h2, rs) := map_bank_records options avail h1 bs in
    (h2, r :: rs)
  end.

(** [performReconciliation(bankRecords, supplierRecords, options)] where the
    supplier array is the one stored at location [supplierRecords]. *)
Definition performReconciliation (h : heap) (supplierRecords : nat)
    (bankRecords : list Bank.t) (options : MatchingOptions) : heap * ReconciliationResult :=
  let mergedOptions := mergeOptions options in
  let avail := length h in
  let h1 := h ++ [load h supplierRecords] in
  let '(h2, matchedRecords) := map_bank_records mergedOptions avail h1 bankRecords in
  let stats := calculateStats matchedRecords (Z.of_nat (length (load h2 supplierRecords))) in
  (h2, mkResult matchedRecords stats).

(** The reconciliation of a freshly allocated supplier array. *)
Definition reconcile (bankRecords : list Bank.t) (supplierRecords : list Supplier.t)
    (options : MatchingOptions) : ReconciliationResult :=
  snd (performReconciliation [supplierRecords] 0 bankRecords options).

(** The supplier records picked along a run ([Some]) or not ([None]). *)
Fixpoint somes {A} (l : list (option A)) : list A :=
  match l with
  | [] => []
  | Some x :: r => x :: somes r
  | None :: r => somes r
  end.

(* ---------------------------------------------------------------------------
   services/excel/supplierExcelParser.ts : normalizeDate
   ------------------------------------------------------------------------- *)

(** [String.prototype.toLowerCase] on code units below 0x100 (ASCII and
    Latin-1 capitals); other code units are left as they are. *)
Definition lower_unit (c : Z) : Z :=
  if (65 <=? c) && (c <=? 90) then c + 32
  else if (192 <=? c) && (c <=? 222) && negb (c =? 215) then c + 32
  else c.

Definition toLowerCase (s : jstr) : jstr := map lower_unit s.

(** The class [[a-zá-ú]] under the [i] flag: a-z, A-Z, U+00E1..U+00FA and
    their capitals U+00C1..U+00DA but U+00D7. *)
Definition is_month_letter (c : Z) : bool :=
  (97 <=? c) && (c <=? 122) || (65 <=? c) && (c <=? 90)
  || (225 <=? c) && (c <=? 250) || (193 <=? c) && (c <=? 218) && negb (c =? 215).

Definition monthMap : list (jstr * jstr) :=
  [(js "ene", js "01"); (js "enero", js "01"); (js "gen", js "01"); (js "gener", js "01");
   (js "jan", js "01");
   (js "feb", js "02"); (js "febrero", js "02"); (js "febrer", js "02");
   (js "mar", js "03"); (js "marzo", js "03"); (js "mar" ++ [231], js "03");
   (js "abr", js "04"); (js "abril", js "04"); (js "apr", js "04");
   (js "may", js "05"); (js "mayo", js "05"); (js "maig", js "05");
   (js "jun", js "06"); (js "junio", js "06"); (js "juny", js "06");
   (js "jul", js "07"); (js "julio", js "07"); (js "juliol", js "07");
   (js "ago", js "08"); (js "agosto", js "08"); (js "agost", js "08"); (js "aug", js "08");
   (js "sep", js "09"); (js "septiembre", js "09"); (js "setembre", js "09");
   (js "sept", js "09");
   (js "oct", js "10"); (js "octubre", js "10");
   (js "nov", js "11"); (js "noviembre", js "11"); (js "novembre", js "11");
   (js "dic", js "12"); (js "diciembre", js "12"); (js "desembre", js "12");
   (js "dec", js "12")].

Fixpoint assoc (k : jstr) (l : list (jstr * jstr)) : option jstr :=
  match l with
  | [] => None
  | (k', v) :: r => if jstr_eqb k k' then Some v else assoc k r
  end.

(** [monthMap[monthName]] as a string: an own property, else the one
    property of [Object.prototype] an all-lowercase letter name reaches,
    [constructor], whose string form is that of the [Object] function. *)
Definition monthMap_get (monthName : jstr) : option jstr :=
  match assoc monthName monthMap with
  | Some v => Some v
  | None =>
    if jstr_eqb monthName (js "constructor")
    then Some (js "function Object() { [native code] }") else None
  end.

(** [padStart(2, '0')] *)
Definition padStart2 (s : jstr) : jstr :=
  match s with
  | [] => js "00"
  | [c] => [48; c]
  | _ => s
  end.

Definition len_between (lo hi : nat) (s : jstr) : bool :=
  (lo <=? length s)%nat && (length s <=? hi)%nat.

(** [/^(\d{1,2})-([a-zá-ú]+)-(\d{2,4})$/i.exec(str)]: the groups. *)
Definition match_DDMMMYY (str : jstr) : option (jstr * jstr * jstr) :=
  let '(d, r1) := span is_digit str in
  if len_between 1 2 d then
    match r1 with
    | 45 :: r2 =>
      let '(m, r3) := span is_month_letter r2 in
      if (1 <=? length m)%nat then
        match r3 with
        | 45 :: y => if forallb is_digit y && len_between 2 4 y then Some (d, m, y) else None
        | _ => None
        end
      else None
    | _ => None
    end
  else None.

(** [/^(\d{1,2})\/(\d{1,2})\/(\d{n})$/.exec(str)]: the groups. *)
Definition match_slash (n : nat) (str : jstr) : option (jstr * jstr * jstr) :=
  let '(a, r1) := span is_digit str in
  if len_between 1 2 a then
    match r1 with
    | 47 :: r2 =>
      let '(b, r3) := span is_digit r2 in
      if len_between 1 2 b then
        match r3 with
        | 47 :: y => if forallb is_digit y && (length y =? n)%nat then Some (a, b, y) else None
        | _ => None
        end
      else None
    | _ => None
    end
  else None.

(** Decimal digits of a non-negative integer ([fuel] bounds the number of
    digits; 32 is enough for every value met here). *)
Fixpoint digits_rev (fuel : nat) (n : Z) : jstr :=
  match fuel with
  | O => []
  | S f => (48 + n mod 10) :: (if n <? 10 then [] else digits_rev f (n / 10))
  end.

(** [String(n)] for an integer number. *)
Definition number_to_string (n : Z) : jstr :=
  if n <? 0 then 45 :: rev (digits_rev 32 (- n)) else rev (digits_rev 32 n).

(** Proleptic Gregorian [(year, month, day)] of a day count from 1970-01-01. *)
Definition civil_from_days (z : Z) : Z * Z * Z :=
  let z' := z + 719468 in
  let era := z' / 146097 in
  let doe := z' - era * 146097 in
  let yoe := (doe - doe / 1460 + doe / 36524 - doe / 146096) / 365 in
  let doy := doe - (365 * yoe + yoe / 4 - yoe / 100) in
  let mp := (5 * doy + 2) / 153 in
  let d := doy - (153 * mp + 2) / 5 + 1 in
  let m := if mp <? 10 then mp + 3 else mp - 9 in
  let y := yoe + era * 400 in
  (if m <=? 2 then y + 1 else y, m, d).

(** The serial branch: [new Date((excelDate - 25569) * 86400 * 1000)] read
    back with [getDate], [getMonth] and [getFullYear] (local time as UTC). *)
Definition excel_serial_to_string (excelDate : Z) : jstr :=
  let t := (excelDate - 25569) * 86400 * 1000 in
  if Z.abs t >? 8640000000000000 then js "NaN/NaN/NaN"
  else
    let '(y, m, d) := civil_from_days (t / msPerDay) in
    padStart2 (number_to_string d) ++ [47] ++ padStart2 (number_to_string m) ++ [47]
    ++ number_to_string y.

(** [normalizeDate(dateStr)] for a string argument. *)
Definition normalizeDate (dateStr : jstr) : jstr :=
  match dateStr with
  | [] => []
  | _ =>
    let str := trim dateStr in
    match match_DDMMMYY str with
    | Some (dd, monthName, yearShort) =>
      let day := padStart2 dd in
      let month := match monthMap_get (toLowerCase monthName) with
                   | Some v => v
                   | None => js "01"
                   end in
      let year := if (length yearShort =? 2)%nat then js "20" ++ yearShort else yearShort in
      day ++ [47] ++ month ++ [47] ++ year
    | None =>
      match match_slash 4 str with
      | Some (mm, dd, year) => padStart2 dd ++ [47] ++ padStart2 mm ++ [47] ++ year
      | None =>
        match match_slash 2 str with
        | Some (mm, dd, yearShort) =>
          padStart2 dd ++ [47] ++ padStart2 mm ++ [47] ++ js "20" ++ yearShort
        | None =>
          match str with
          | _ :: _ =>
            if forallb is_digit str then
              match parseInt10 str with
              | Some excelDate => if excelDate >? 1000 then excel_serial_to_string excelDate
                                  else str
              | None => str
              end
            else str
          | [] => str
          end
        end
      end
    end
  end.

(* ---------------------------------------------------------------------------
   Statement extractors: the deduplicating loops of extractMovementsFromText.
   The regular expressions are matched upstream; each loop is modelled over
   the capture groups of the matches, in order.  [generateFileId] is an
   arbitrary id supply [fresh], asked for the n-th record's id.
   ------------------------------------------------------------------------- *)

Fixpoint is_prefix (p s : jstr) : bool :=
  match p, s with
  | [], _ => true
  | x :: p', y :: s' => (x =? y) && is_prefix p' s'
  | _ :: _, [] => false
  end.

(** [s.includes(p)] *)
Fixpoint includes (p s : jstr) : bool :=
  is_prefix p s || match s with [] => false | _ :: s' => includes p s' end.

Definition key_sep : jstr := [45].

(** services/pdf/sabadellParser.ts *)
Module Sabadell.
(** [date.replace(/-/g, '/')] *)
Definition normalizeDate (date : jstr) : jstr :=
  map (fun c => if c =? 45 then 47 else c) date.

Definition headerKeywords : list jstr :=
  [js "fecha"; js "concepto"; js "importe"; js "saldo"; js "debe"; js "haber";
   js "operaci" ++ [243; 110]; js "valor"; js "descripci" ++ [243; 110];
   js "movimiento"].

Definition isHeaderText (text : jstr) : bool :=
  let lowerText := toLowerCase text in
  existsb (fun keyword => includes keyword lowerText && (length text <? 30)%nat)
    headerKeywords.

(** The groups of a match of [pattern1] (two dates, optional balance). *)
Record Match1 := mkMatch1 {
  m1_fContable : jstr; m1_fValor : jstr; m1_concepto : jstr;
  m1_importe : jstr; m1_saldo : option jstr }.

(** The groups of a match of [pattern2] (one date). *)
Record Match2 := mkMatch2 { m2_fecha : jstr; m2_concepto : jstr; m2_importe : jstr }.

Definition state := (list jstr * list Bank.t)%type.

Definition seen_has (seen : list jstr) (k : jstr) : bool := existsb (jstr_eqb k) seen.

Definition step1 (fileName : jstr) (fresh : nat -> jstr) (st : state) (match_ : Match1)
    : state :=
  let '(seenEntries, records) := st in
  let fContable := normalizeDate (m1_fContable match_) in
  let fValor := normalizeDate (m1_fValor match_) in
  let concepto := trim (m1_concepto match_) in
  let importeRaw := m1_importe match_ in
  let saldoRaw := match m1_saldo match_ with Some (_ :: _ as x) => Some x | _ => None end in
  let uniqueKey := fContable ++ key_sep ++ fValor ++ key_sep ++ firstn 30 concepto
                   ++ key_sep ++ importeRaw in
  if negb (seen_has seenEntries uniqueKey) && negb (length concepto =? 0)%nat
     && (2 <? length concepto)%nat && negb (isHeaderText concepto)
  then (uniqueKey :: seenEntries,
        records ++ [Bank.mk (fresh (length records)) fContable fValor concepto importeRaw
                      (parseCurrency importeRaw) (option_map parseCurrency saldoRaw)
                      fileName (js "sabadell")])
  else st.

Definition step2 (fileName : jstr) (fresh : nat -> jstr) (st : state) (match_ : Match2)
    : state :=
  let '(seenEntries, records) := st in
  let fecha := normalizeDate (m2_fecha match_) in
  let concepto := trim (m2_concepto match_) in
  let importeRaw := m2_importe match_ in
  let uniqueKey := fecha ++ key_sep ++ firstn 30 concepto ++ key_sep ++ importeRaw in
  if negb (seen_has seenEntries uniqueKey) && negb (length concepto =? 0)%nat
     && (2 <? length concepto)%nat && negb (isHeaderText concepto)
  then (uniqueKey :: seenEntries,
        records ++ [Bank.mk (fresh (length records)) fecha fecha concepto importeRaw
                      (parseCurrency importeRaw) None fileName (js "sabadell")])
  else st.

(** [extractMovementsFromText]: [matches1] and [matches2] are the matches
    of [pattern1] and [pattern2] on the text. *)
Definition extractMovementsFromText (fileName : jstr) (fresh : nat -> jstr)
    (matches1 : list Match1) (matches2 : list Match2) : list Bank.t :=
  let st1 := fold_left (step1 fileName fresh) matches1 ([], []) in
  match snd st1 with
  | [] => snd (fold_left (step2 fileName fresh) matches2 st1)
  | records => records
  end.
End Sabadell.

(** The BBVA extractor with several patterns (unnamed/part_008). *)
Module Bbva.
Definition state := (list jstr * list Bank.t)%type.

(** One match: [match[0]] followed by its groups, so that [match.length]
    is 5 for the two-date patterns and 4 for the one-date pattern. *)
Definition step (fileName : jstr) (fresh : nat -> jstr) (st : state) (match_ : list jstr)
    : state :=
  let '(seenEntries, records) := st in
  let hasTwoDates := (5 <=? length match_)%nat in
  let fContable := nth 1 match_ [] in
  let fValor := if hasTwoDates then nth 2 match_ [] else nth 1 match_ [] in
  let concepto := if hasTwoDates then nth 3 match_ [] else nth 2 match_ [] in
  let importeRaw := if hasTwoDates then nth 4 match_ [] else nth 3 match_ [] in
  let uniqueKey := fContable ++ key_sep ++ fValor ++ key_sep ++ importeRaw in
  if existsb (jstr_eqb uniqueKey) seenEntries then st
  else
    let seenEntries' := uniqueKey :: seenEntries in
    if negb (length concepto =? 0)%nat && (1 <? length (trim concepto))%nat
    then (seenEntries',
          records ++ [Bank.mk (fresh (length records)) fContable fValor (trim concepto)
                        importeRaw (parseCurrency importeRaw) None fileName []])
          (* [bankType] is not set by this extractor *)
    else (seenEntries', records).

(** [extractMovementsFromText]: the matches of each of [BBVA_PATTERNS], in
    pattern order. *)
Definition extractMovementsFromText (fileName : jstr) (fresh : nat -> jstr)
    (matchesPerPattern : list (list (list jstr))) : list Bank.t :=
  snd (fold_left (fun st matches => fold_left (step fileName fresh) matches st)
         matchesPerPattern ([], [])).
End Bbva.

(* ---------------------------------------------------------------------------
   services/excel/supplierExcelParser.ts : findHeaderRow, parseSheet
   A cell is [None] for a falsy value (missing, null, '', 0, false) and
   [Some s] for a truthy one, [s] being [String(cell)]; so [String(c || '')]
   is [cell_str c].  A row is [None] when [rows[i]] is missing.  Rows are
   dense arrays.  [generateFileId] is an arbitrary id supply [fresh], asked
   for the n-th record's id.
   ------------------------------------------------------------------------- *)

Definition cell := option jstr.

Definition cell_str (c : cell) : jstr := match c with Some s => s | None => [] end.

(** [String(c || '').toLowerCase().trim()] *)
Definition header_cell (c : cell) : jstr := trim (toLowerCase (cell_str c)).

(** [row[i]] for an index that may be -1 or past the end. *)
Definition row_get (row : list cell) (i : Z) : cell :=
  if i <? 0 then None else nth (Z.to_nat i) row None.

(** [Array.prototype.findIndex] *)
Fixpoint findIndex_from {A} (p : A -> bool) (i : Z) (l : list A) : Z :=
  match l with
  | [] => -1
  | x :: r => if p x then i else findIndex_from p (i + 1) r
  end.

Definition findIndex {A} (p : A -> bool) (l : list A) : Z := findIndex_from p 0 l.

Definition is_client_header (c : jstr) : bool :=
  includes (js "client") c || includes (js "previsi" ++ [243]) c || includes (js "previsio") c.
Definition is_codic_header (h : jstr) : bool :=
  includes (js "c" ++ [242] ++ js "dic") h || includes (js "codic") h || jstr_eqb h (js "codi").
Definition is_datafra_header (c : jstr) : bool := includes (js "data fra") c.
Definition is_numfra_header (c : jstr) : bool := includes (js "num") c && includes (js "fra") c.
Definition is_import_header (c : jstr) : bool := jstr_eqb c (js "import").
Definition is_venciment_header (c : jstr) : bool := includes (js "venciment") c.
Definition is_fecha_header (h : jstr) : bool := jstr_eqb h (js "fecha").

Fixpoint findHeaderRow_from (i : Z) (rows : list (option (list cell))) : Z :=
  match rows with
  | [] => -1
  | row :: rest =>
    match row with
    | Some row' =>
      if (length row' <? 4)%nat then findHeaderRow_from (i + 1) rest
      else
        let cells := map header_cell row' in
        let hasClient := existsb is_client_header cells in
        let hasDataFra := existsb is_datafra_header cells in
        let hasNumFra := existsb is_numfra_header cells in
        let hasImport := existsb is_import_header cells in
        let hasVenciment := existsb is_venciment_header cells in
        let keyFieldsCount :=
          length (filter (fun b : bool => b) [hasDataFra; hasNumFra; hasImport; hasVenciment]) in
        if hasClient && (2 <=? keyFieldsCount)%nat then i
        else findHeaderRow_from (i + 1) rest
    | None => findHeaderRow_from (i + 1) rest
    end
  end.

Definition findHeaderRow (rows : list (option (list cell))) : Z := findHeaderRow_from 0 rows.

(** [String(row[col] || '').trim()] when [col >= 0], else [''] *)
Definition col_value (row : list cell) (col : Z) : jstr :=
  if 0 <=? col then trim (cell_str (row_get row col)) else [].

Record Columns := mkColumns {
  colCodic : Z; colClient : Z; colDataFra : Z; colNumFra : Z;
  colVenciment : Z; colImport : Z; colFecha : Z }.

Definition columns (header : list jstr) : Columns :=
  mkColumns (findIndex is_codic_header header) (findIndex is_client_header header)
    (findIndex is_datafra_header header) (findIndex is_numfra_header header)
    (findIndex is_venciment_header header) (findIndex is_import_header header)
    (findIndex is_fecha_header header).

(** The body of the data-row loop: the record pushed, if any. *)
Definition parse_row (cols : Columns) (id sourceFile : jstr) (row : option (list cell))
    : option Supplier.t :=
  match row with
  | None => None
  | Some row =>
    if Z.of_nat (length row) <? Z.max (colClient cols) (colImport cols) + 1 then None
    else
      let codic := col_value row (colCodic cols) in
      let cliente := trim (cell_str (row_get row (colClient cols))) in
      let dataFra := col_value row (colDataFra cols) in
      let numFra := col_value row (colNumFra cols) in
      let venciment := col_value row (colVenciment cols) in
      let importRaw := col_value row (colImport cols) in
      let fechaCol := col_value row (colFecha cols) in
      if (length cliente =? 0)%nat || (length numFra =? 0)%nat || (length importRaw =? 0)%nat
      then None
      else if jstr_eqb cliente (js "T O T A L S") || includes (js "TOTAL") cliente then None
      else
        let importe := parseCurrency importRaw in
        if Qeq_bool importe 0 then None
        else
          let fecha0 := normalizeDate (match venciment with [] => dataFra | _ => venciment end) in
          let fecha :=
            if negb (length fechaCol =? 0)%nat && (length fecha0 =? 0)%nat
            then normalizeDate fechaCol else fecha0 in
          Some (Supplier.mk id fecha codic cliente numFra [] importRaw importe sourceFile)
  end.

Definition parseSheet (fresh : nat -> jstr) (rows : list (option (list cell)))
    (fileName sheetName : jstr) : list Supplier.t :=
  let headerRow := findHeaderRow rows in
  if headerRow =? -1 then []
  else
    let header := map header_cell
                    (match nth (Z.to_nat headerRow) rows None with Some r => r | None => [] end) in
    let cols := columns header in
    let sourceFile := fileName ++ js " - " ++ sheetName in
    fold_left
      (fun records row =>
         match parse_row cols (fresh (length records)) sourceFile row with
         | Some record => records ++ [record]
         | None => records
         end)
      (skipn (Z.to_nat (headerRow + 1)) rows) [].

(* ---------------------------------------------------------------------------
   src/services/reconciliation/reconciliationService.ts (the version in the
   source tree: amount and exact date matched together).  Its copy
   [availableSuppliers] never escapes [performReconciliation], so it is
   threaded as a local state.
   ------------------------------------------------------------------------- *)

Module ServiceFile.

(** The callback of [supplierRecords.filter] in [findSupplierMatch]. *)
Definition supplier_matches (bankRecord : Bank.t) (options : RequiredOptions)
    (supplier : Supplier.t) : bool :=
  let amountMatch := amountsMatch (Supplier.importe supplier) (Bank.importe bankRecord)
                       (amountTolerance options) in
  if negb amountMatch then false
  else
    let dateMatch :=
      jstr_eqb (Supplier.fecha supplier) (Bank.fValor bankRecord)
      || useAccountingDate options && jstr_eqb (Supplier.fecha supplier) (Bank.fContable bankRecord) in
    dateMatch.

Definition findSupplierMatch (bankRecord : Bank.t) (supplierRecords : list Supplier.t)
    (options : RequiredOptions) : option Supplier.t :=
  let matches := filter (supplier_matches bankRecord options) supplierRecords in
  match matches with
  | m :: _ => Some m
  | [] => None
  end.

(** The callback of [bankRecords.map] on the available suppliers. *)
Definition match_bank_record (options : RequiredOptions) (availableSuppliers : list Supplier.t)
    (bankRecord : Bank.t) : list Supplier.t * MatchedBankRecord :=
  match findSupplierMatch bankRecord availableSuppliers options with
  | Some m =>
    let availableSuppliers' :=
      match findIndex_id (Supplier.id m) availableSuppliers with
      | Some k => remove_at k availableSuppliers
      | None => availableSuppliers
      end in
    (availableSuppliers',
     mkMatched bankRecord (Some (Supplier.documento m)) (Some (Supplier.nombre m)) Match)
  | None => (availableSuppliers, mkMatched bankRecord None None Unmatched)
  end.

Fixpoint map_bank_records (options : RequiredOptions) (availableSuppliers : list Supplier.t)
    (bankRecords : list Bank.t) : list Supplier.t * list MatchedBankRecord :=
  match bankRecords with
  | [] => (availableSuppliers, [])
  | b :: bs =>
    let '(a1, r) := match_bank_record options availableSuppliers b in
    let '(a2, rs) := map_bank_records options a1 bs in
    (a2, r :: rs)
  end.

Definition performReconciliation (bankRecords : list Bank.t)
    (supplierRecords : list Supplier.t) (options : MatchingOptions) : ReconciliationResult :=
  let mergedOptions := mergeOptions options in
  let '(_, matchedRecords) := map_bank_records mergedOptions supplierRecords bankRecords in
  let stats := calculateStats matchedRecords (Z.of_nat (length supplierRecords)) in
  mkResult matchedRecords stats.

End ServiceFile.

(* ---------------------------------------------------------------------------
   Extractor outputs: the keys of the records they keep
   ------------------------------------------------------------------------- *)

(** The BBVA [uniqueKey] of a record it produced. *)
Definition bbva_key (r : Bank.t) : jstr :=
  Bank.fContable r ++ key_sep ++ Bank.fValor r ++ key_sep ++ Bank.importeRaw r.

(** The Sabadell [uniqueKey] of a record of [pattern1]. *)
Definition sab_key1 (r : Bank.t) : jstr :=
  Bank.fContable r ++ key_sep ++ Bank.fValor r ++ key_sep ++ firstn 30 (Bank.concepto r)
  ++ key_sep ++ Bank.importeRaw r.

(** The Sabadell [uniqueKey] of a record of [pattern2] (both dates are the
    one [fecha]). *)
Definition sab_key2 (r : Bank.t) : jstr :=
  Bank.fContable r ++ key_sep ++ firstn 30 (Bank.concepto r) ++ key_sep ++ Bank.importeRaw r.

(** Dates, first 30 characters of the description and raw amount. *)
Definition sab_tuple (r : Bank.t) : jstr * jstr * jstr * jstr :=
  (Bank.fContable r, Bank.fValor r, firstn 30 (Bank.concepto r), Bank.importeRaw r).

(* ---------------------------------------------------------------------------
   services/excel/supplierExcelParser.ts : countValidRecords, extractMonthYear,
   getExcelSheets, parseSupplierExcel.
   A workbook is its [SheetNames] and, for each name, the rows
   [XLSX.utils.sheet_to_json(workbook.Sheets[name], { header: 1, ... })].
   ------------------------------------------------------------------------- *)

Record workbook := mkWorkbook {
  SheetNames : list jstr;
  Sheets : jstr -> list (option (list cell)) }.

(** The body of the loop of [countValidRecords]: the new count. *)
Definition count_row (colClient colNumFra colImport : Z) (count : Z)
    (row : option (list cell)) : Z :=
  match row with
  | None => count
  | Some row =>
    if Z.of_nat (length row) <=? Z.max colClient (Z.max colNumFra colImport) then count
    else
      let cliente := trim (cell_str (row_get row colClient)) in
      let numFactura := col_value row colNumFra in
      let importe := col_value row colImport in
      if negb (length cliente =? 0)%nat
         && (negb (length numFactura =? 0)%nat || negb (length importe =? 0)%nat)
      then
        if jstr_eqb cliente (js "T O T A L S") || includes (js "TOTAL") cliente then count
        else count + 1
      else count
  end.

Definition countValidRecords (rows : list (option (list cell))) : Z :=
  let headerRow := findHeaderRow rows in
  if headerRow =? -1 then 0
  else
    let header := map header_cell
                    (match nth (Z.to_nat headerRow) rows None with Some r => r | None => [] end) in
    let colClient := findIndex is_client_header header in
    let colNumFra := findIndex is_numfra_header header in
    let colImport := findIndex is_import_header header in
    if (colClient =? -1) || ((colNumFra =? -1) && (colImport =? -1)) then 0
    else fold_left (count_row colClient colNumFra colImport)
           (skipn (Z.to_nat (headerRow + 1)) rows) 0.

(** The alternatives of the month group of the regular expression of
    [extractMonthYear]. *)
Definition month_alternatives : list jstr :=
  [js "GENER"; js "FEBRER"; js "MAR" ++ [199]; js "ABRIL"; js "MAIG"; js "JUNY";
   js "JULIOL"; js "AGOST"; js "SETEMBRE"; js "OCTUBRE"; js "NOVEMBRE"; js "DESEMBRE";
   js "ENERO"; js "FEBRERO"; js "MARZO"; js "ABRIL"; js "MAYO"; js "JUNIO"; js "JULIO";
   js "AGOSTO"; js "SEPTIEMBRE"; js "OCTUBRE"; js "NOVIEMBRE"; js "DICIEMBRE"].

(** Under the [i] flag (no [u] flag) a character matches a pattern character
    when both canonicalise (upper-case) to the same character; for the
    pattern letters A-Z and U+00C7 that is the letter itself or its
    lower-case form, 32 above it. *)
Definition ci_char_eqb (P c : Z) : bool :=
  (c =? P) || ((65 <=? P) && (P <=? 90) || (P =? 199)) && (c =? P + 32).

Fixpoint ci_eqb (pat s : jstr) : bool :=
  match pat, s with
  | [], [] => true
  | P :: pat', c :: s' => ci_char_eqb P c && ci_eqb pat' s'
  | _, _ => false
  end.

(** [/^(GENER|...|DICIEMBRE)\s+(\d{4})$/i.exec(str)]: the groups of a match.
    The year group is the last four characters; the white space before it
    is the longest run of [\s] there (a month name ends in a letter); the
    month group is what precedes it. *)
Definition match_month_year (str : jstr) : option (jstr * jstr) :=
  let n := length str in
  if (n <? 4)%nat then None
  else
    let pre := firstn (n - 4) str in
    let yearGroup := skipn (n - 4) str in
    if forallb is_digit yearGroup then
      let '(sp, monthRev) := span is_js_space (rev pre) in
      match sp with
      | [] => None
      | _ :: _ =>
        let monthGroup := rev monthRev in
        if existsb (fun alt => ci_eqb alt monthGroup) month_alternatives
        then Some (monthGroup, yearGroup) else None
      end
    else None.

(** The inner loop over the cells of a row. *)
Fixpoint first_cell_month_year (row : list cell) : option (jstr * jstr) :=
  match row with
  | [] => None
  | c :: rest =>
    match match_month_year (trim (cell_str c)) with
    | Some m => Some m
    | None => first_cell_month_year rest
    end
  end.

(** The outer loop; [None] is the [TypeError] of iterating a missing row. *)
Fixpoint extractMonthYear_from (rows : list (option (list cell))) (sheetName : jstr)
    : option (jstr * jstr) :=
  match rows with
  | [] => Some (sheetName, [])
  | None :: _ => None
  | Some row :: rest =>
    match first_cell_month_year row with
    | Some m => Some m
    | None => extractMonthYear_from rest sheetName
    end
  end.

(** [extractMonthYear(rows, sheetName)], [None] when it throws. *)
Definition extractMonthYear (rows : list (option (list cell))) (sheetName : jstr)
    : option (jstr * jstr) :=
  extractMonthYear_from (firstn 5 rows) sheetName.

Record ExcelSheetInfo := mkExcelSheetInfo {
  name : jstr; month : jstr; year : jstr; recordCount : Z }.

(** [workbook.SheetNames.map(...)]; [None] when the callback throws (the
    promise is rejected). *)
Fixpoint sheet_infos (wb : workbook) (names : list jstr) : option (list ExcelSheetInfo) :=
  match names with
  | [] => Some []
  | sheetName :: rest =>
    let jsonData := Sheets wb sheetName in
    match extractMonthYear jsonData sheetName with
    | None => None
    | Some (m, y) =>
      match sheet_infos wb rest with
      | None => None
      | Some infos => Some (mkExcelSheetInfo sheetName m y (countValidRecords jsonData) :: infos)
      end
    end
  end.

(** [getExcelSheets(file)]: [Some] the resolved value, [None] a rejection. *)
Definition getExcelSheets (wb : workbook) : option (list ExcelSheetInfo) :=
  sheet_infos wb (SheetNames wb).

(** The body of the loop over [selectedSheets] in [parseSupplierExcel]. *)
Definition sheet_step (fresh : nat -> jstr) (wb : workbook) (fileName : jstr)
    (allRecords : list Supplier.t) (sheetName : jstr) : list Supplier.t :=
  if negb (existsb (jstr_eqb sheetName) (SheetNames wb)) then allRecords
  else allRecords ++ parseSheet (fun n => fresh (length allRecords + n)%nat)
                       (Sheets wb sheetName) fileName sheetName.

(** [parseSupplierExcel(file, selectedSheets)]; the ids are the successive
    values of the supply [fresh] over the whole call. *)
Definition parseSupplierExcel (fresh : nat -> jstr) (wb : workbook) (fileName : jstr)
    (selectedSheets : list jstr) : list Supplier.t :=
  fold_left (sheet_step fresh wb fileName) selectedSheets [].

(** A supplier record without its id. *)
Definition without_id (r : Supplier.t) : Supplier.t :=
  Supplier.mk [] (Supplier.fecha r) (Supplier.codigo r) (Supplier.nombre r)
    (Supplier.documento r) (Supplier.referencia r) (Supplier.importeRaw r)
    (Supplier.importe r) (Supplier.sourceFile r).

(* ---------------------------------------------------------------------------
   unnamed/part_004 (Sabadell statements, older extractor): cleanConcept
   ------------------------------------------------------------------------- *)

(** [s.replace(re, ' ')] for a global [re] matching the maximal runs of
    characters satisfying [p]; [in_run] tells whether the previous character
    was in such a run. *)
Fixpoint replace_runs (p : Z -> bool) (in_run : bool) (s : jstr) : jstr :=
  match s with
  | [] => []
  | c :: r =>
    if p c then (if in_run then replace_runs p true r else 32 :: replace_runs p true r)
    else c :: replace_runs p false r
  end.

(** The class [[\r\n]]. *)
Definition is_cr_or_lf (c : Z) : bool := (c =? 13) || (c =? 10).

(** [cleanConcept(concept)]: [/\s+/g] and [/[\r\n]+/g] replaced by one
    space, then [trim()]. *)
Definition cleanConcept (concept : jstr) : jstr :=
  trim (replace_runs is_cr_or_lf false (replace_runs is_js_space false concept)).

(* ---------------------------------------------------------------------------
   utils/fileHelpers.ts: generateCsvContent
   ------------------------------------------------------------------------- *)

(** [Array.prototype.join(sep)] on strings. *)
Fixpoint join (sep : jstr) (l : list jstr) : jstr :=
  match l with
  | [] => []
  | [x] => x
  | x :: r => x ++ sep ++ join sep r
  end.

(** [String.prototype.split(c)] for a one-character separator [c]. *)
Fixpoint js_split (c : Z) (s : jstr) : list jstr :=
  match s with
  | [] => [[]]
  | x :: r =>
    if x =? c then [] :: js_split c r
    else match js_split c r with
         | [] => [[x]]
         | w :: ws => (x :: w) :: ws
         end
  end.

(** [s.replace(/\x22/g, ...)]: each double quote (code 34) written twice. *)
Definition escape_quotes (s : jstr) : jstr :=
  flat_map (fun c => if c =? 34 then [34; 34] else [c]) s.

(** [x || d] for a [string | null]: [null] and [''] are falsy. *)
Definition or_default (x : option jstr) (d : jstr) : jstr :=
  match x with
  | Some ((_ :: _) as v) => v
  | _ => d
  end.

Definition csv_headers : list jstr :=
  [js "F. Contable"; js "F. Valor"; js "Concepto"; js "Importe";
   js "Documento Proveedor"; js "Proveedor (Nombre)"; js "Estado"].

(** The row of one record. *)
Definition csv_row (r : MatchedBankRecord) : list jstr :=
  [Bank.fContable (bank r);
   Bank.fValor (bank r);
   34 :: escape_quotes (Bank.concepto (bank r)) ++ [34];
   Bank.importeRaw (bank r);
   or_default (matchedDoc r) (js "NO ENCONTRADO");
   or_default (supplierName r) (js "-");
   if Status_eqb (status r) Match then js "Conciliado" else js "Pendiente"].

Definition generateCsvContent (records : list MatchedBankRecord) : jstr :=
  join [10] (join [59] csv_headers :: map (fun row => join [59] row) (map csv_row records)).

(* ---------------------------------------------------------------------------
   services/pdf/bankParser.ts and utils/fileHelpers.ts: isExcelFile
   ------------------------------------------------------------------------- *)

Inductive BankType := bbva | caixabank | sabadell | santander.

Definition BankType_str (b : BankType) : jstr :=
  match b with
  | bbva => js "bbva" | caixabank => js "caixabank"
  | sabadell => js "sabadell" | santander => js "santander"
  end.

(** The [name] and [type] of a browser [File]. *)
Record File := mkFile { file_name : jstr; file_type : jstr }.

(** [toLowerCase()] on the letters A-Z.  Other characters whose lower case is
    one of the letters of the suffixes tested below do not exist, so the
    [endsWith] tests see the same result. *)
Definition to_lower_ascii (c : Z) : Z := if (65 <=? c) && (c <=? 90) then c + 32 else c.

Definition endsWith (s suffix : jstr) : bool :=
  (length suffix <=? length s)%nat && jstr_eqb (skipn (length s - length suffix) s) suffix.

Definition excelTypes : list jstr :=
  [js "application/vnd.ms-excel";
   js "application/vnd.openxmlformats-officedocument.spreadsheetml.sheet";
   js "application/vnd.oasis.opendocument.spreadsheet"].

Definition excelExtensions : list jstr := [js ".xls"; js ".xlsx"; js ".ods"].

Definition isExcelFile (file : File) : bool :=
  let fileName := map to_lower_ascii (file_name file) in
  existsb (jstr_eqb (file_type file)) excelTypes
  || existsb (fun ext => endsWith fileName ext) excelExtensions.

(** A parser resolves to its records or rejects with an error message. *)
Definition parse_result := (jstr + list Bank.t)%type.

(** The parsers [bankParser.ts] imports; they read the file contents. *)
Record BankParsers := mkBankParsers {
  parseBbvaFile : File -> parse_result;
  parseCaixabankFile : File -> parse_result;
  parseSabadellFile : File -> parse_result;
  parseSantanderFile : File -> parse_result;
  parseCaixabankExcelFile : File -> parse_result }.

Definition pdfParsers (P : BankParsers) (b : BankType) : File -> parse_result :=
  match b with
  | bbva => parseBbvaFile P | caixabank => parseCaixabankFile P
  | sabadell => parseSabadellFile P | santander => parseSantanderFile P
  end.

Definition excelParsers (P : BankParsers) (b : BankType) : option (File -> parse_result) :=
  match b with
  | caixabank => Some (parseCaixabankExcelFile P)
  | _ => None
  end.

Definition parseBankFile (P : BankParsers) (file : File) (bankType : BankType) : parse_result :=
  if isExcelFile file then
    match excelParsers P bankType with
    | None => inl (js "El banco " ++ BankType_str bankType
                   ++ js " no soporta archivos Excel. Por favor, use un archivo PDF.")
    | Some excelParser => excelParser file
    end
  else pdfParsers P bankType file.

(** [UploadedFile] with the fields [parseBankFiles] reads. *)
Record UploadedFile := mkUploadedFile {
  uf_file : File; uf_name : jstr; uf_bankType : option BankType }.

(** The loop of [parseBankFiles] from the records gathered so far; the
    first failing file ends it with a rethrown error. *)
Fixpoint parseBankFiles_from (P : BankParsers) (allRecords : list Bank.t)
    (files : list UploadedFile) : parse_result :=
  match files with
  | [] => inr allRecords
  | uploadedFile :: rest =>
    let bankType := match uf_bankType uploadedFile with Some b => b | None => bbva end in
    match parseBankFile P (uf_file uploadedFile) bankType with
    | inl message => inl (js "Error al procesar " ++ uf_name uploadedFile ++ js ": " ++ message)
    | inr records => parseBankFiles_from P (allRecords ++ records) rest
    end
  end.

Definition parseBankFiles (P : BankParsers) (files : list UploadedFile) : parse_result :=
  parseBankFiles_from P [] files.

(* ---------------------------------------------------------------------------
   The candidate sets of findSupplierMatch, named for the statements below
   ------------------------------------------------------------------------- *)

(** [amountMatches]: the records whose amount matches the bank record's. *)
Definition amount_candidates (b : Bank.t) (pool : list Supplier.t) (o : RequiredOptions)
    : list Supplier.t :=
  filter (fun supplier => amountsMatch (Supplier.importe supplier) (Bank.importe b)
                            (amountTolerance o)) pool.

(** The records of [l] dated in the month/year of [d]; empty when [d] has
    no month/year ([getMonthYear] returns [null]). *)
Definition month_candidates (l : list Supplier.t) (d : jstr) : list Supplier.t :=
  match getMonthYear d with
  | None => []
  | Some my => filter (fun supplier =>
      opt_jstr_eqb (getMonthYear (Supplier.fecha supplier)) (Some my)) l
  end.

(** [s] is at least as close to the date [d] as every record of [l] with a
    valid date, when [d] is a valid date. *)
Definition closest_among (l : list Supplier.t) (d : jstr) (s : Supplier.t) : Prop :=
  forall t x tx, parseDate d = Some (Some t) -> In x l ->
    parseDate (Supplier.fecha x) = Some (Some tx) ->
    exists ts, parseDate (Supplier.fecha s) = Some (Some ts) /\ Z.abs (t - ts) <= Z.abs (t - tx).

(* ---------------------------------------------------------------------------
   unnamed/part_004: the Sabadell "Consulta de Movimientos" extractor
   ------------------------------------------------------------------------- *)

Module SabadellConsulta.

(** [/^W/i] for an upper-case ASCII word [W]. *)
Definition ci_prefix (w s : jstr) : bool := ci_eqb w (firstn (length w) s).

(** [/^W1\s+W2\s+...Wn/i]: the words in order, separated by white space.
    Each word starts with a letter, so [\s+] ends where the white space
    ends. *)
Fixpoint words_prefix (ws : list jstr) (s : jstr) : bool :=
  match ws with
  | [] => true
  | w :: ws' =>
    ci_prefix w s &&
    match ws' with
    | [] => true
    | _ :: _ =>
      match skipn (length w) s with
      | c :: _ as rest => is_js_space c && words_prefix ws' (drop_while is_js_space rest)
      | [] => false
      end
    end
  end.

Definition isValidConcept (concept : jstr) : bool :=
  if (length concept <? 3)%nat then false
  else negb (words_prefix [js "FECHA"; js "OPER"] concept
             || ci_eqb (js "CONCEPTO") concept
             || ci_eqb (js "IMPORTE") concept
             || ci_eqb (js "SALDO") concept
             || words_prefix [js "FECHA"; js "VALOR"] concept
             || words_prefix [js "DOCUMENTO"; js "OBTENIDO"] concept
             || words_prefix [js "CONSULTA"; js "DE"; js "MOVIMIENTOS"] concept).

(** The five groups of a match of [linePattern] (or of [fullMatch]). *)
Record Match := mkMatch {
  m_fContable : jstr; m_concepto : jstr; m_fValor : jstr;
  m_importeRaw : jstr; m_saldoRaw : jstr }.

Definition state := (list jstr * list Bank.t)%type.

Definition uniqueKey (fContable fValor importeRaw saldoRaw : jstr) : jstr :=
  fContable ++ key_sep ++ fValor ++ key_sep ++ importeRaw ++ key_sep ++ saldoRaw.

Definition new_record (fileName : jstr) (id fContable fValor concepto importeRaw saldoRaw : jstr)
    : Bank.t :=
  Bank.mk id fContable fValor concepto importeRaw (parseCurrency importeRaw)
    (Some (parseCurrency saldoRaw)) fileName (js "sabadell").

(** One iteration of the loop over the matches of [linePattern]. *)
Definition step (fileName : jstr) (fresh : nat -> jstr) (st : state) (match_ : Match) : state :=
  let '(seenEntries, records) := st in
  let fContable := m_fContable match_ in
  let concepto := cleanConcept (m_concepto match_) in
  let fValor := m_fValor match_ in
  let importeRaw := m_importeRaw match_ in
  let saldoRaw := m_saldoRaw match_ in
  let key := uniqueKey fContable fValor importeRaw saldoRaw in
  if negb (Sabadell.seen_has seenEntries key) && isValidConcept concepto
  then (key :: seenEntries,
        records ++ [new_record fileName (fresh (length records)) fContable fValor concepto
                      importeRaw saldoRaw])
  else st.

(** One line of [text.split('\n')] for [extractMultilineFormat]: the trimmed
    line and what its regular expressions return on it ([startsWithDate],
    [fullMatch], [dateMatch], [endMatch] and the test of
    [/^SALDO|^Documento|^FECHA|^Cuenta|^Titular|^Divisa|^Selecci\xF3n/i]). *)
Record Line := mkLine {
  l_line : jstr;
  l_startsWithDate : bool;
  l_fullMatch : option Match;
  l_dateMatch : option (jstr * jstr);
  l_endMatch : option (jstr * jstr * jstr * jstr);
  l_header : bool }.

(** [(seenEntries, currentEntry, records)]; [currentEntry] is
    [(fContable, conceptoParts)]. *)
Definition ml_state := (list jstr * option (jstr * list jstr) * list Bank.t)%type.

Definition ml_step (fileName : jstr) (fresh : nat -> jstr) (st : ml_state) (l : Line)
    : ml_state :=
  let '(seenEntries, currentEntry, records) := st in
  if l_startsWithDate l then
    match l_fullMatch l with
    | Some fullMatch =>
      let '(seen', records') := step fileName fresh (seenEntries, records) fullMatch in
      (seen', None, records')
    | None =>
      match l_dateMatch l with
      | Some (fContable, part) => (seenEntries, Some (fContable, [part]), records)
      | None => st
      end
    end
  else
    match currentEntry with
    | Some (fContable, conceptoParts) =>
      if (length (l_line l) =? 0)%nat then st
      else
        match l_endMatch l with
        | Some (part, fValor, importeRaw, saldoRaw) =>
          let concepto := cleanConcept (join [32] (conceptoParts ++ [part])) in
          let key := uniqueKey fContable fValor importeRaw saldoRaw in
          if negb (Sabadell.seen_has seenEntries key) && isValidConcept concepto
          then (key :: seenEntries, None,
                records ++ [new_record fileName (fresh (length records)) fContable fValor
                              concepto importeRaw saldoRaw])
          else (seenEntries, None, records)
        | None =>
          if l_header l then st
          else (seenEntries, Some (fContable, conceptoParts ++ [l_line l]), records)
        end
    | None => st
    end.

Definition extractMultilineFormat (fileName : jstr) (fresh : nat -> jstr)
    (seenEntries : list jstr) (lines : list Line) : list Bank.t :=
  let '(_, _, records) := fold_left (ml_step fileName fresh) lines (seenEntries, None, []) in
  records.

(** [extractMovementsFromText]: [matches] are the matches of [linePattern]
    on the normalized text, [lines] its lines. *)
Definition extractMovementsFromText (fileName : jstr) (fresh : nat -> jstr)
    (matches : list Match) (lines : list Line) : list Bank.t :=
  let '(seenEntries, records) := fold_left (step fileName fresh) matches ([], []) in
  match records with
  | [] => extractMultilineFormat fileName fresh seenEntries lines
  | _ => records
  end.

End SabadellConsulta.

(* ============================================================================
   Proofs
   ========================================================================== *)

(* ---------------------------------------------------------------------------
   amountsMatch
   ------------------------------------------------------------------------- *)

Lemma Qltb_iff (x y : Q) : Qltb x y = true <-> (x < y)%Q.
Proof.
  unfold Qltb. rewrite negb_true_iff. split; intro H.
  - apply Qnot_le_lt. intro H'. apply Qle_bool_iff in H'. congruence.
  - destruct (Qle_bool y x) eqn:E; [|reflexivity].
    apply Qle_bool_iff in E. exfalso. apply (Qlt_not_le x y); assumption.
Qed.

Lemma Qltb_false_iff (x y : Q) : Qltb x y = false <-> (y <= x)%Q.
Proof.
  unfold Qltb. rewrite negb_false_iff. apply Qle_bool_iff.
Qed.

Lemma Qltb_compat (x x' y : Q) : (x == x')%Q -> Qltb x y = Qltb x' y.
Proof.
  intro E. unfold Qltb. f_equal.
  destruct (Qle_bool y x) eqn:E1, (Qle_bool y x') eqn:E2; try reflexivity.
  - apply Qle_bool_iff in E1. rewrite E in E1. apply Qle_bool_iff in E1. congruence.
  - apply Qle_bool_iff in E2. rewrite <- E in E2. apply Qle_bool_iff in E2. congruence.
Qed.

(** C8 (amended): [amountsMatch] is symmetric for every tolerance; it is
    reflexive exactly when the tolerance is positive (the comparison is the
    strict [<]); and it is false whenever [| |a| - |b| | >= tol]. *)
Theorem amountsMatch_sym_refl_sep (a b tol : Q) :
  amountsMatch a b tol = amountsMatch b a tol
  /\ (amountsMatch a a tol = true <-> (0 < tol)%Q)
  /\ ((tol <= Qabs (Qabs a - Qabs b))%Q -> amountsMatch a b tol = false).
Proof.
  unfold amountsMatch. split; [|split].
  - rewrite Qabs_Qminus. reflexivity.
  - rewrite Qltb_iff.
    assert (Hz : (Qabs (Qabs a - Qabs a) == 0)%Q).
    { setoid_replace (Qabs a - Qabs a)%Q with 0%Q by ring. reflexivity. }
    rewrite Hz. reflexivity.
  - intro H. apply Qltb_false_iff. exact H.
Qed.

Lemma amountsMatch_sym_refl_sep_witness :
  (1 <= Qabs (Qabs 3 - Qabs (-1)))%Q
  /\ amountsMatch 3 (-1) 1 = false.
Proof.
  split.
  - vm_compute. discriminate.
  - apply (amountsMatch_sym_refl_sep 3 (-1) 1). vm_compute. discriminate.
Defined.

(** C8 (counterexample): reflexivity fails for a zero tolerance:
    [amountsMatch(1, 1, 0)] is false. *)
Lemma amountsMatch_not_reflexive_tol0 : ~ (amountsMatch 1 1 0 = true).
Proof. vm_compute. discriminate. Qed.

(* ---------------------------------------------------------------------------
   parseCurrency
   ------------------------------------------------------------------------- *)

Lemma lastIndexOf_from_spec (c : Z) (s : jstr) :
  forall i acc, 0 <= i ->
  (includes_char c s = true -> lastIndexOf_from c s i acc >= i)
  /\ (includes_char c s = false -> lastIndexOf_from c s i acc = acc).
Proof.
  unfold includes_char.
  induction s as [|x r IH]; intros i acc Hi; simpl.
  - split; [discriminate | reflexivity].
  - destruct (IH (i + 1) (if x =? c then i else acc) ltac:(lia)) as [H1 H2].
    rewrite (Z.eqb_sym c x).
    destruct (x =? c) eqn:E; simpl.
    + split; [intros _ | discriminate].
      destruct (existsb (Z.eqb c) r) eqn:R.
      * specialize (H1 eq_refl). lia.
      * rewrite H2 by reflexivity. lia.
    + split; intro H.
      * specialize (H1 H). lia.
      * apply H2. exact H.
Qed.

Lemma lastIndexOf_present (c : Z) (s : jstr) :
  includes_char c s = true -> lastIndexOf c s >= 0.
Proof. apply (lastIndexOf_from_spec c s 0 (-1)). lia. Qed.

Lemma lastIndexOf_absent (c : Z) (s : jstr) :
  includes_char c s = false -> lastIndexOf c s = -1.
Proof. apply (lastIndexOf_from_spec c s 0 (-1)). lia. Qed.

Lemma remove_char_absent (c : Z) (s : jstr) :
  includes_char c s = false -> remove_char c s = s.
Proof.
  unfold remove_char, includes_char. induction s as [|x r IH]; simpl; [reflexivity|].
  intro H. apply orb_false_iff in H as [H1 H2].
  rewrite Z.eqb_sym, H1. simpl. rewrite IH by exact H2. reflexivity.
Qed.

Lemma replace_first_absent (c d : Z) (s : jstr) :
  includes_char c s = false -> replace_first c d s = s.
Proof.
  unfold includes_char. induction s as [|x r IH]; simpl; [reflexivity|].
  intro H. apply orb_false_iff in H as [H1 H2].
  rewrite Z.eqb_sym, H1. rewrite IH by exact H2. reflexivity.
Qed.

(** C5: [parseCurrency] follows the last-separator rule on every input: if
    the last '.' of the cleaned string comes after its last ',', the commas
    are stripped (US notation), otherwise the dots are stripped and the
    comma becomes the decimal point (European notation); the result is
    total, 0 when no number can be read; and it gives 1234.56 on
    "1.234,56" and on "1,234.56", and 0 on "". *)
Theorem parseCurrency_notation (str : jstr) :
  parseCurrency str = parseCurrency_rule str
  /\ (parseFloat (filter keep_numeric (notation_rule (currency_clean str))) = None ->
      parseCurrency str = 0%Q)
  /\ (parseCurrency (js "1.234,56") == 123456 # 100)%Q
  /\ (parseCurrency (js "1,234.56") == 123456 # 100)%Q
  /\ parseCurrency (js "") = 0%Q.
Proof.
  assert (Hrule : parseCurrency str = parseCurrency_rule str).
  { unfold parseCurrency, parseCurrency_rule, notation_rule.
    destruct str as [|x r]; [reflexivity|].
    fold (currency_clean (x :: r)).
    set (c := currency_clean (x :: r)).
    destruct (includes_char 44 c) eqn:Hc, (includes_char 46 c) eqn:Hd; simpl.
    - reflexivity.
    - rewrite (lastIndexOf_absent 46 c Hd).
      pose proof (lastIndexOf_present 44 c Hc).
      replace (-1 >? lastIndexOf 44 c) with false by lia.
      rewrite (remove_char_absent 46 c Hd). reflexivity.
    - rewrite (lastIndexOf_absent 44 c Hc).
      pose proof (lastIndexOf_present 46 c Hd).
      replace (lastIndexOf 46 c >? -1) with true by lia.
      rewrite (remove_char_absent 44 c Hc). reflexivity.
    - rewrite (lastIndexOf_absent 44 c Hc), (lastIndexOf_absent 46 c Hd). simpl.
      rewrite (remove_char_absent 46 c Hd), (replace_first_absent 44 46 c Hc).
      reflexivity. }
  split; [exact Hrule|].
  split.
  - intro H. rewrite Hrule. unfold parseCurrency_rule.
    destruct str; [reflexivity|]. rewrite H. reflexivity.
  - repeat split; reflexivity.
Qed.

(* ---------------------------------------------------------------------------
   performReconciliation: shape of the output and the heap
   ------------------------------------------------------------------------- *)

Lemma store_length (h : heap) (a : nat) (v : list Supplier.t) :
  length (store h a v) = length h.
Proof.
  revert a. induction h as [|x r IH]; intros [|a]; simpl; auto.
Qed.

Lemma load_store_same (h : heap) (a : nat) (v : list Supplier.t) :
  (a < length h)%nat -> load (store h a v) a = v.
Proof.
  unfold load. revert a. induction h as [|x r IH]; intros [|a] Ha; simpl in *; try lia; auto.
  apply IH. lia.
Qed.

Lemma load_store_other (h : heap) (a l : nat) (v : list Supplier.t) :
  a <> l -> load (store h a v) l = load h l.
Proof.
  unfold load. revert a l. induction h as [|x r IH]; intros [|a] [|l] Hne; simpl; auto.
  all: try contradiction.
  all: apply IH; lia.
Qed.

Lemma match_bank_record_frame (o : RequiredOptions) (avail : nat) (h : heap) (b : Bank.t) :
  let '(h', r) := match_bank_record o avail h b in
  bank r = b /\ length h' = length h /\ (forall l, l <> avail -> load h' l = load h l).
Proof.
  unfold match_bank_record.
  destruct (findSupplierMatch b (load h avail) o) as [m|]; simpl; [|auto].
  destruct (findIndex_id (Supplier.id m) (load h avail)) as [k|]; simpl; [|auto].
  split; [reflexivity|]. split; [apply store_length|].
  intros l Hl. apply load_store_other. congruence.
Qed.

Lemma map_bank_records_frame (o : RequiredOptions) (avail : nat) (bs : list Bank.t) :
  forall h,
  let '(h', rs) := map_bank_records o avail h bs in
  map bank rs = bs /\ length h' = length h /\ (forall l, l <> avail -> load h' l = load h l).
Proof.
  induction bs as [|b bs IH]; intro h; simpl; [auto|].
  pose proof (match_bank_record_frame o avail h b) as Hb.
  destruct (match_bank_record o avail h b) as [h1 r] eqn:E1.
  specialize (IH h1).
  destruct (map_bank_records o avail h1 bs) as [h2 rs] eqn:E2.
  destruct Hb as [Hr [Hl1 Hf1]]. destruct IH as [Hrs [Hl2 Hf2]].
  simpl. rewrite Hr, Hrs. split; [reflexivity|]. split; [congruence|].
  intros l Hl. rewrite Hf2, Hf1 by exact Hl. reflexivity.
Qed.

Lemma load_app_lt (h : heap) (v : list Supplier.t) (l : nat) :
  (l < length h)%nat -> load (h ++ [v]) l = load h l.
Proof. intro H. unfold load. apply app_nth1. exact H. Qed.

(** C9: [performReconciliation] returns one output record per bank record,
    in input order, each carrying its bank record unchanged (the output
    record only adds [matchedDoc], [supplierName] and [status]); the input
    supplier array, and every array that existed before the call, is left
    unchanged: only the fresh copy is spliced, and [supplierTotal] is the
    input's length. *)
Theorem performReconciliation_frame (h : heap) (supplierRecords : nat)
    (bankRecords : list Bank.t) (options : MatchingOptions) :
  (supplierRecords < length h)%nat ->
  let '(h', res) := performReconciliation h supplierRecords bankRecords options in
  map bank (records res) = bankRecords
  /\ length (records res) = length bankRecords
  /\ (forall l, (l < length h)%nat -> load h' l = load h l)
  /\ supplierTotal (stats res) = Z.of_nat (length (load h supplierRecords)).
Proof.
  intro Hl. unfold performReconciliation.
  pose proof (map_bank_records_frame (mergeOptions options) (length h) bankRecords
                (h ++ [load h supplierRecords])) as Hm.
  destruct (map_bank_records (mergeOptions options) (length h)
              (h ++ [load h supplierRecords]) bankRecords) as [h2 rs].
  destruct Hm as [Hrs [_ Hf]]. simpl.
  assert (Hload : forall l, (l < length h)%nat -> load h2 l = load h l).
  { intros l Hl'. rewrite Hf by lia. apply load_app_lt. exact Hl'. }
  split; [exact Hrs|]. split.
  - rewrite <- Hrs, length_map. reflexivity.
  - split; [exact Hload|]. rewrite Hload by exact Hl. reflexivity.
Qed.

Lemma performReconciliation_frame_witness :
  (0 < length [[Supplier.mk (js "s1") (js "01/01/2025") [] (js "ACME") (js "F1") [] [] 5 []]])%nat
  /\ map bank (records (snd (performReconciliation
       [[Supplier.mk (js "s1") (js "01/01/2025") [] (js "ACME") (js "F1") [] [] 5 []]] 0
       [Bank.mk (js "b1") (js "01/01/2025") (js "01/01/2025") [] [] (-5) None [] []]
       no_options)))
     = [Bank.mk (js "b1") (js "01/01/2025") (js "01/01/2025") [] [] (-5) None [] []].
Proof.
  split; [simpl; lia|].
  pose proof (performReconciliation_frame
    [[Supplier.mk (js "s1") (js "01/01/2025") [] (js "ACME") (js "F1") [] [] 5 []]] 0
    [Bank.mk (js "b1") (js "01/01/2025") (js "01/01/2025") [] [] (-5) None [] []]
    no_options ltac:(simpl; lia)) as H.
  destruct (performReconciliation _ _ _ _) as [h' res]. simpl. apply H.
Defined.

(* ---------------------------------------------------------------------------
   calculateStats
   ------------------------------------------------------------------------- *)

Lemma matchPercentage_bounds (m n : Z) :
  (0 <= m <= n)%Z -> (0 < n)%Z ->
  (0 <= inject_Z m / inject_Z n * 100 <= 100)%Q.
Proof.
  intros Hm Hn.
  assert (Hn' : (inject_Z 0 < inject_Z n)%Q) by (rewrite <- Zlt_Qlt; exact Hn).
  assert (H1 : (0 <= inject_Z m / inject_Z n)%Q).
  { apply Qle_shift_div_l; [exact Hn'|]. rewrite Qmult_0_l.
    change (inject_Z 0 <= inject_Z m)%Q. rewrite <- Zle_Qle. lia. }
  assert (H2 : (inject_Z m / inject_Z n <= 1)%Q).
  { apply Qle_shift_div_r; [exact Hn'|]. rewrite Qmult_1_l.
    rewrite <- Zle_Qle. lia. }
  split.
  - apply Qmult_le_0_compat; [exact H1 | discriminate].
  - setoid_replace 100%Q with (1 * 100)%Q at 2 by reflexivity.
    apply Qmult_le_compat_r; [exact H2 | discriminate].
Qed.

(** C4: [matchPercentage] is [matches / bankTotal * 100], 0 when there is no
    bank record, and lies in [0, 100]; [bankTotal] is the number of bank
    records; reconciling no bank record gives no output record and 0%. *)
Theorem reconcile_stats (bankRecords : list Bank.t) (supplierRecords : list Supplier.t)
    (options : MatchingOptions) :
  let res := reconcile bankRecords supplierRecords options in
  let st := stats res in
  bankTotal st = Z.of_nat (length bankRecords)
  /\ matches st = Z.of_nat (length (filter (fun r => Status_eqb (status r) Match) (records res)))
  /\ ((bankTotal st > 0)%Z ->
      matchPercentage st = (inject_Z (matches st) / inject_Z (bankTotal st) * 100)%Q)
  /\ (bankTotal st = 0%Z -> matchPercentage st = 0%Q)
  /\ (0 <= matchPercentage st <= 100)%Q
  /\ (bankRecords = [] -> records res = [] /\ matchPercentage st = 0%Q).
Proof.
  unfold reconcile, performReconciliation.
  pose proof (map_bank_records_frame (mergeOptions options) (length [supplierRecords])
                bankRecords ([supplierRecords] ++ [load [supplierRecords] 0])) as Hm.
  destruct (map_bank_records _ _ _ bankRecords) as [h2 rs]. destruct Hm as [Hrs _].
  simpl. unfold calculateStats. simpl.
  assert (Hlen : length rs = length bankRecords) by (rewrite <- Hrs, length_map; reflexivity).
  rewrite Hlen.
  pose proof (filter_length_le (fun r => Status_eqb (status r) Match) rs) as Hf.
  rewrite Hlen in Hf.
  split; [reflexivity|]. split; [reflexivity|]. split.
  - intro H. replace (Z.of_nat (length bankRecords) >? 0) with true by lia. reflexivity.
  - split; [|split].
    + intro H. rewrite H. reflexivity.
    + destruct (Z.of_nat (length bankRecords) >? 0) eqn:E.
      * apply matchPercentage_bounds; lia.
      * split; discriminate.
    + intro Hb. subst bankRecords. destruct rs; [|discriminate]. split; reflexivity.
Qed.

Lemma reconcile_stats_witness :
  reconcile [] [Supplier.mk (js "s1") (js "01/01/2025") [] (js "ACME") (js "F1") [] [] 5 []]
    no_options
  = mkResult [] (mkStats 0 1 0 0 0)
  /\ records (reconcile [] [Supplier.mk (js "s1") (js "01/01/2025") [] (js "ACME") (js "F1") [] [] 5 []]
       no_options) = [].
Proof.
  split; [reflexivity|].
  apply (reconcile_stats [] [Supplier.mk (js "s1") (js "01/01/2025") [] (js "ACME") (js "F1") [] [] 5 []]
           no_options).
  reflexivity.
Defined.

(* ---------------------------------------------------------------------------
   findSupplierMatch: a single amount candidate
   ------------------------------------------------------------------------- *)

(** C3: when exactly one still-available supplier record matches the bank
    record's amount, [findSupplierMatch] returns it without looking at any
    date, and the output record is matched to it; in particular a bank
    record of -148.29 against a pool holding one supplier record of 148.29
    is matched to that record's document, whatever the dates. *)
Theorem findSupplierMatch_single_candidate (o : RequiredOptions) (avail : nat) (h : heap)
    (b : Bank.t) (s : Supplier.t) :
  filter (fun supplier => amountsMatch (Supplier.importe supplier) (Bank.importe b)
                            (amountTolerance o)) (load h avail) = [s] ->
  findSupplierMatch b (load h avail) o = Some s
  /\ snd (match_bank_record o avail h b)
     = mkMatched b (Some (Supplier.documento s)) (Some (Supplier.nombre s)) Match
  /\ (forall (b' : Bank.t) (s' : Supplier.t),
        Bank.importe b' = (-14829 # 100)%Q -> Supplier.importe s' = (14829 # 100)%Q ->
        records (reconcile [b'] [s'] no_options)
        = [mkMatched b' (Some (Supplier.documento s')) (Some (Supplier.nombre s')) Match]).
Proof.
  intro H.
  assert (Hf : findSupplierMatch b (load h avail) o = Some s).
  { unfold findSupplierMatch. rewrite H. reflexivity. }
  split; [exact Hf|]. split.
  - unfold match_bank_record. rewrite Hf.
    destruct (findIndex_id _ _); reflexivity.
  - intros b' s' Hb Hs.
    assert (Hf' : findSupplierMatch b' [s'] (mergeOptions no_options) = Some s').
    { unfold findSupplierMatch. simpl. rewrite Hb, Hs. reflexivity. }
    unfold reconcile, performReconciliation, map_bank_records, match_bank_record.
    cbn -[findSupplierMatch findIndex_id mergeOptions].
    rewrite Hf'. destruct (findIndex_id _ _); reflexivity.
Qed.

Lemma findSupplierMatch_single_candidate_witness :
  filter (fun supplier => amountsMatch (Supplier.importe supplier) (-14829 # 100)
                            (amountTolerance DEFAULT_OPTIONS))
    (load [[Supplier.mk (js "s1") (js "01/12/2025") [] (js "ACME") (js "F-148") [] [] (14829 # 100) []]] 0)
  = [Supplier.mk (js "s1") (js "01/12/2025") [] (js "ACME") (js "F-148") [] [] (14829 # 100) []]
  /\ findSupplierMatch (Bank.mk (js "b1") (js "05/12/2025") (js "05/12/2025") [] [] (-14829 # 100) None [] [])
       (load [[Supplier.mk (js "s1") (js "01/12/2025") [] (js "ACME") (js "F-148") [] [] (14829 # 100) []]] 0)
       DEFAULT_OPTIONS
     = Some (Supplier.mk (js "s1") (js "01/12/2025") [] (js "ACME") (js "F-148") [] [] (14829 # 100) []).
Proof.
  split; [reflexivity|].
  apply (findSupplierMatch_single_candidate DEFAULT_OPTIONS 0
           [[Supplier.mk (js "s1") (js "01/12/2025") [] (js "ACME") (js "F-148") [] [] (14829 # 100) []]]
           (Bank.mk (js "b1") (js "05/12/2025") (js "05/12/2025") [] [] (-14829 # 100) None [] [])
           (Supplier.mk (js "s1") (js "01/12/2025") [] (js "ACME") (js "F-148") [] [] (14829 # 100) [])).
  reflexivity.
Defined.

(* ---------------------------------------------------------------------------
   findSupplierMatch picks from the pool
   ------------------------------------------------------------------------- *)

Lemma jstr_eqb_true (a b : jstr) : jstr_eqb a b = true <-> a = b.
Proof.
  unfold jstr_eqb. destruct (list_eq_dec Z.eq_dec a b); split; congruence.
Qed.

Lemma closest_fold_in (t : option Z) (l : list Supplier.t) :
  forall st, In (fst (fold_left (closest_step t) l st)) (fst st :: l).
Proof.
  induction l as [|x r IH]; intro st; simpl; [auto|].
  specialize (IH (closest_step t st x)).
  destruct st as [cl sm]. unfold closest_step in IH |- *.
  destruct (parseDate (Supplier.fecha x)) as [sdt|]; [|simpl in IH; simpl; tauto].
  destruct (time_diff t sdt) as [d|]; [|simpl in IH; simpl; tauto].
  destruct (match sm with None => true | Some m => d <? m end); simpl in IH |- *; tauto.
Qed.

Lemma findClosestDateMatch_in (l : list Supplier.t) (target : jstr) (x : Supplier.t) :
  findClosestDateMatch l target = Some x -> In x l.
Proof.
  unfold findClosestDateMatch. destruct l as [|s0 r]; [discriminate|].
  destruct (parseDate target) as [tt|]; intro H; injection H as <-; [|left; reflexivity].
  pose proof (closest_fold_in tt (s0 :: r) (s0, None)) as Hin. simpl in Hin |- *.
  destruct Hin as [E|E]; [left; exact E | exact E].
Qed.

Lemma findClosestDateMatch_some (l : list Supplier.t) (target : jstr) :
  l <> [] -> exists x, findClosestDateMatch l target = Some x.
Proof.
  unfold findClosestDateMatch. destruct l as [|s0 r]; [congruence|].
  intros _. destruct (parseDate target); eauto.
Qed.

Lemma month_year_step_in (l : list Supplier.t) (d : jstr) (x : Supplier.t) :
  month_year_step l d = Some (Some x) -> In x l.
Proof.
  unfold month_year_step. destruct (getMonthYear d) as [my|]; [|discriminate].
  set (f := fun supplier => opt_jstr_eqb (getMonthYear (Supplier.fecha supplier)) (Some my)).
  intro H. apply (filter_In f).
  destruct (filter f l) as [|m [|m' r]] eqn:E; [discriminate| |].
  - injection H as <-. left; reflexivity.
  - injection H as H. apply (findClosestDateMatch_in (m :: m' :: r) d x). exact H.
Qed.

Lemma findSupplierMatch_in (b : Bank.t) (pool : list Supplier.t) (o : RequiredOptions)
    (x : Supplier.t) :
  findSupplierMatch b pool o = Some x -> In x pool.
Proof.
  unfold findSupplierMatch.
  set (f := fun supplier => amountsMatch (Supplier.importe supplier) (Bank.importe b)
                              (amountTolerance o)).
  intro H. apply (filter_In f).
  set (am := filter f pool) in *.
  destruct am as [|m [|m' r]] eqn:E; [discriminate| injection H as <-; left; reflexivity |].
  rewrite <- E in H |- *.
  destruct (month_year_step am (Bank.fValor b)) as [r1|] eqn:E1.
  { destruct r1 as [y|]; [|discriminate]. injection H as <-.
    apply (month_year_step_in _ _ _ E1). }
  destruct (if useAccountingDate o then month_year_step am (Bank.fContable b) else None)
    as [r2|] eqn:E2.
  { destruct r2 as [y|]; [|discriminate]. injection H as <-.
    destruct (useAccountingDate o); [|discriminate].
    apply (month_year_step_in _ _ _ E2). }
  destruct (findClosestDateMatch am (Bank.fValor b)) as [cm|] eqn:E3; [|discriminate].
  destruct (useAccountingDate o); [|injection H as <-; apply (findClosestDateMatch_in _ _ _ E3)].
  destruct (parseDate (Supplier.fecha cm)), (parseDate (Bank.fValor b)),
           (parseDate (Bank.fContable b)),
           (findClosestDateMatch am (Bank.fContable b)) as [cwc|] eqn:E4;
    try (injection H as <-; apply (findClosestDateMatch_in _ _ _ E3)).
  destruct (num_lt _ _); injection H as <-.
  - apply (findClosestDateMatch_in _ _ _ E4).
  - apply (findClosestDateMatch_in _ _ _ E3).
Qed.

(* ---------------------------------------------------------------------------
   Greedy consumption
   ------------------------------------------------------------------------- *)

Lemma findIndex_id_found (i : jstr) (pool : list Supplier.t) (m : Supplier.t) :
  In m pool -> Supplier.id m = i -> exists k, findIndex_id i pool = Some k.
Proof.
  induction pool as [|s r IH]; simpl; [contradiction|].
  intros [<- | Hin] Hid.
  - rewrite (proj2 (jstr_eqb_true _ _) Hid). eauto.
  - destruct (jstr_eqb (Supplier.id s) i); [eauto|].
    destruct (IH Hin Hid) as [k Hk]. rewrite Hk. simpl. eauto.
Qed.

Lemma In_remove_at {A} (k : nat) (l : list A) (x : A) : In x (remove_at k l) -> In x l.
Proof.
  revert k. induction l as [|y r IH]; intros [|k]; simpl; auto.
  intros [<- | H]; [left; reflexivity | right; apply (IH k H)].
Qed.

Lemma remove_found_spec (i : jstr) (pool : list Supplier.t) (k : nat) :
  NoDup (map Supplier.id pool) -> findIndex_id i pool = Some k ->
  NoDup (map Supplier.id (remove_at k pool))
  /\ (forall x, In x (remove_at k pool) -> In x pool /\ Supplier.id x <> i).
Proof.
  revert k. induction pool as [|s r IH]; intros k Hnd Hk; simpl in Hk; [discriminate|].
  inversion Hnd as [|? ? Hnotin Hnd']; subst.
  destruct (jstr_eqb (Supplier.id s) i) eqn:Es.
  - apply jstr_eqb_true in Es. injection Hk as <-. simpl. split; [exact Hnd'|].
    intros x Hx. split; [right; exact Hx|].
    intro Hxi. apply Hnotin. rewrite Es, <- Hxi. apply in_map. exact Hx.
  - destruct (findIndex_id i r) as [k'|] eqn:Ek; [|discriminate].
    injection Hk as <-. simpl.
    destruct (IH k' Hnd' eq_refl) as [H1 H2]. split.
    + constructor; [|exact H1].
      intro Hin. apply in_map_iff in Hin as [y [Hy Hyin]].
      apply Hnotin. rewrite <- Hy. apply in_map. apply (In_remove_at k' r y Hyin).
    + intros x [<- | Hx].
      * split; [left; reflexivity|]. intro E. apply jstr_eqb_true in E. congruence.
      * destruct (H2 x Hx). split; [right|]; assumption.
Qed.

Lemma map_bank_records_consume (o : RequiredOptions) (avail : nat) (bs : list Bank.t) :
  forall h, (avail < length h)%nat -> NoDup (map Supplier.id (load h avail)) ->
  exists picks : list (option Supplier.t),
    Forall2 (fun p r =>
      matchedDoc r = option_map Supplier.documento p
      /\ supplierName r = option_map Supplier.nombre p
      /\ status r = (if p then Match else Unmatched))
      picks (snd (map_bank_records o avail h bs))
    /\ (forall s, In s (somes picks) -> In s (load h avail))
    /\ NoDup (map Supplier.id (somes picks)).
Proof.
  induction bs as [|b bs IH]; intros h Hav Hnd.
  - exists []. simpl. repeat split; [constructor | contradiction | constructor].
  - simpl. unfold match_bank_record at 1.
    destruct (findSupplierMatch b (load h avail) o) as [m|] eqn:Em.
    + pose proof (findSupplierMatch_in _ _ _ _ Em) as Hmin.
      destruct (findIndex_id_found (Supplier.id m) (load h avail) m Hmin eq_refl) as [k Hk].
      rewrite Hk.
      destruct (remove_found_spec _ _ _ Hnd Hk) as [Hnd2 Hsub].
      set (h1 := store h avail (remove_at k (load h avail))).
      assert (Hl1 : load h1 avail = remove_at k (load h avail))
        by (apply load_store_same; exact Hav).
      assert (Hav1 : (avail < length h1)%nat) by (unfold h1; rewrite store_length; exact Hav).
      rewrite <- Hl1 in Hnd2.
      destruct (IH h1 Hav1 Hnd2) as [picks [Hf [Hin Hnd3]]].
      destruct (map_bank_records o avail h1 bs) as [h2 rs] eqn:E2. simpl in *.
      exists (Some m :: picks). simpl. split; [|split].
      * constructor; [repeat split | exact Hf].
      * intros s [<- | Hs]; [exact Hmin|].
        specialize (Hin s Hs). rewrite Hl1 in Hin. exact (proj1 (Hsub s Hin)).
      * constructor; [|exact Hnd3].
        intro Hm. apply in_map_iff in Hm as [y [Hy Hyin]].
        specialize (Hin y Hyin). rewrite Hl1 in Hin.
        exact (proj2 (Hsub y Hin) Hy).
    + destruct (IH h Hav Hnd) as [picks [Hf [Hin Hnd3]]].
      destruct (map_bank_records o avail h bs) as [h2 rs] eqn:E2. simpl in *.
      exists (None :: picks). simpl. split; [|split].
      * constructor; [repeat split | exact Hf].
      * exact Hin.
      * exact Hnd3.
Qed.

(** C2: with pairwise distinct supplier ids, the output records of
    [performReconciliation] draw their [matchedDoc] (and [supplierName]) from
    supplier records of the input, matched records from distinct ones: the
    picked supplier records, one per output record ([None] for an unmatched
    one), have pairwise distinct ids. *)
Theorem reconcile_consumes_once (bankRecords : list Bank.t)
    (supplierRecords : list Supplier.t) (options : MatchingOptions) :
  NoDup (map Supplier.id supplierRecords) ->
  exists picks : list (option Supplier.t),
    Forall2 (fun p r =>
      matchedDoc r = option_map Supplier.documento p
      /\ supplierName r = option_map Supplier.nombre p
      /\ status r = (if p then Match else Unmatched))
      picks (records (reconcile bankRecords supplierRecords options))
    /\ (forall s, In s (somes picks) -> In s supplierRecords)
    /\ NoDup (map Supplier.id (somes picks)).
Proof.
  intro Hnd. unfold reconcile, performReconciliation.
  pose proof (map_bank_records_consume (mergeOptions options) (length [supplierRecords])
                bankRecords ([supplierRecords] ++ [load [supplierRecords] 0])
                ltac:(simpl; lia) Hnd) as H.
  destruct (map_bank_records _ _ _ bankRecords) as [h2 rs]. simpl in *. exact H.
Qed.

Lemma reconcile_consumes_once_witness :
  NoDup (map Supplier.id
    [Supplier.mk (js "s1") (js "01/01/2025") [] (js "ACME") (js "F1") [] [] 5 [];
     Supplier.mk (js "s2") (js "02/01/2025") [] (js "ACME") (js "F2") [] [] 5 []])
  /\ exists picks : list (option Supplier.t),
    NoDup (map Supplier.id (somes picks))
    /\ Forall2 (fun p r => matchedDoc r = option_map Supplier.documento p
                           /\ supplierName r = option_map Supplier.nombre p
                           /\ status r = (if p then Match else Unmatched))
         picks
         (records (reconcile
            [Bank.mk (js "b1") (js "01/01/2025") (js "01/01/2025") [] [] (-5) None [] [];
             Bank.mk (js "b2") (js "01/01/2025") (js "01/01/2025") [] [] (-5) None [] []]
            [Supplier.mk (js "s1") (js "01/01/2025") [] (js "ACME") (js "F1") [] [] 5 [];
             Supplier.mk (js "s2") (js "02/01/2025") [] (js "ACME") (js "F2") [] [] 5 []]
            no_options)).
Proof.
  assert (Hnd : NoDup (map Supplier.id
    [Supplier.mk (js "s1") (js "01/01/2025") [] (js "ACME") (js "F1") [] [] 5 [];
     Supplier.mk (js "s2") (js "02/01/2025") [] (js "ACME") (js "F2") [] [] 5 []])).
  { simpl. constructor; [simpl; intros [H|[]]; discriminate | constructor; [simpl; tauto | constructor]]. }
  split; [exact Hnd|].
  destruct (reconcile_consumes_once
    [Bank.mk (js "b1") (js "01/01/2025") (js "01/01/2025") [] [] (-5) None [] [];
     Bank.mk (js "b2") (js "01/01/2025") (js "01/01/2025") [] [] (-5) None [] []]
    [Supplier.mk (js "s1") (js "01/01/2025") [] (js "ACME") (js "F1") [] [] 5 [];
     Supplier.mk (js "s2") (js "02/01/2025") [] (js "ACME") (js "F2") [] [] 5 []]
    no_options Hnd) as [picks [Hf [_ Hn]]].
  exists picks. split; assumption.
Defined.

Lemma parseCurrency_notation_witness :
  parseFloat (filter keep_numeric (notation_rule (currency_clean (js "n/a")))) = None
  /\ parseCurrency (js "n/a") = 0%Q.
Proof.
  split; [reflexivity|].
  destruct (parseCurrency_notation (js "n/a")) as [_ [H _]]. apply H. reflexivity.
Defined.

(* ---------------------------------------------------------------------------
   findSupplierMatch with several amount candidates: the date steps
   ------------------------------------------------------------------------- *)

Section Closest.
Variable t : Z.

(** Invariant of the loop of [findClosestDateMatch] on a valid target
    [t]: [smallestDiff] is [Infinity] or the distance of [closestSupplier]. *)
Definition closest_inv (st : Supplier.t * option Z) : Prop :=
  snd st = None
  \/ exists tc, parseDate (Supplier.fecha (fst st)) = Some (Some tc)
                /\ snd st = Some (Z.abs (t - tc)).

(** The loop has met a supplier dated exactly at [t]. *)
Definition closest_exact (st : Supplier.t * option Z) : Prop :=
  snd st = Some 0 /\ parseDate (Supplier.fecha (fst st)) = Some (Some t).

Lemma closest_step_inv (st : Supplier.t * option Z) (s : Supplier.t) :
  closest_inv st -> closest_inv (closest_step (Some t) st s).
Proof.
  destruct st as [cl sm]. unfold closest_inv, closest_step. simpl.
  destruct (parseDate (Supplier.fecha s)) as [[sdt|]|] eqn:Es; simpl; auto.
  destruct (match sm with None => true | Some m => Z.abs (t - sdt) <? m end); simpl; auto.
  intros _. right. exists sdt. auto.
Qed.

Lemma closest_step_exact (st : Supplier.t * option Z) (s : Supplier.t) :
  closest_inv st -> parseDate (Supplier.fecha s) = Some (Some t) ->
  closest_exact (closest_step (Some t) st s).
Proof.
  destruct st as [cl sm]. unfold closest_inv, closest_exact, closest_step. simpl.
  intros Hinv Hs. rewrite Hs. simpl. rewrite Z.sub_diag. simpl.
  destruct sm as [m|].
  - destruct Hinv as [Hinv|[tc [Htc Hm]]]; [discriminate|]. injection Hm as ->.
    destruct (0 <? Z.abs (t - tc)) eqn:E; simpl; [split; auto|].
    assert (Z.abs (t - tc) = 0) by (apply Z.ltb_ge in E; lia).
    split; [congruence|]. rewrite Htc. f_equal. f_equal. lia.
  - simpl. split; auto.
Qed.

Lemma closest_step_keep (st : Supplier.t * option Z) (s : Supplier.t) :
  closest_exact st -> closest_exact (closest_step (Some t) st s).
Proof.
  destruct st as [cl sm]. unfold closest_exact, closest_step. simpl.
  intros [-> Hcl].
  destruct (parseDate (Supplier.fecha s)) as [[sdt|]|]; simpl; auto.
  replace (Z.abs (t - sdt) <? 0) with false by (symmetry; apply Z.ltb_ge; lia).
  auto.
Qed.

Lemma closest_fold_keep (l : list Supplier.t) :
  forall st, closest_exact st -> closest_exact (fold_left (closest_step (Some t)) l st).
Proof.
  induction l as [|x r IH]; intros st H; simpl; [exact H|].
  apply IH. apply closest_step_keep. exact H.
Qed.

Lemma closest_fold_exact (l : list Supplier.t) (c : Supplier.t) :
  In c l -> parseDate (Supplier.fecha c) = Some (Some t) ->
  forall st, closest_inv st -> closest_exact (fold_left (closest_step (Some t)) l st).
Proof.
  induction l as [|x r IH]; intros Hin Hc st Hinv; simpl in *; [contradiction|].
  destruct Hin as [<- | Hin].
  - apply closest_fold_keep. apply closest_step_exact; assumption.
  - apply IH; [exact Hin | exact Hc |]. apply closest_step_inv. exact Hinv.
Qed.
End Closest.

Lemma findClosestDateMatch_exact (l : list Supplier.t) (target : jstr) (c : Supplier.t) (t : Z) :
  In c l -> parseDate (Supplier.fecha c) = Some (Some t) ->
  parseDate target = Some (Some t) ->
  exists s, findClosestDateMatch l target = Some s
            /\ parseDate (Supplier.fecha s) = Some (Some t).
Proof.
  intros Hin Hc Ht. unfold findClosestDateMatch.
  destruct l as [|s0 r]; [contradiction|]. rewrite Ht.
  eexists; split; [reflexivity|].
  apply (closest_fold_exact t (s0 :: r) c Hin Hc (s0, None)). left; reflexivity.
Qed.

Lemma parseDate_getMonthYear (d : jstr) (x : option Z) :
  parseDate d = Some x -> exists my, getMonthYear d = Some my.
Proof.
  unfold parseDate, getMonthYear. destruct d as [|c r]; [discriminate|].
  destruct (split_char 47 (c :: r)) as [|p0 [|p1 [|p2 [|]]]]; try discriminate.
  intros _. eauto.
Qed.

(** When some amount candidate is dated exactly at a valid value date, the
    selected record's date denotes that same day. *)
Lemma findSupplierMatch_exact_day_gen (b : Bank.t) (pool : list Supplier.t)
    (o : RequiredOptions) (c : Supplier.t) (t : Z) :
  In c (filter (fun supplier => amountsMatch (Supplier.importe supplier) (Bank.importe b)
                                  (amountTolerance o)) pool) ->
  Supplier.fecha c = Bank.fValor b ->
  parseDate (Bank.fValor b) = Some (Some t) ->
  exists s, findSupplierMatch b pool o = Some s
            /\ parseDate (Supplier.fecha s) = Some (Some t).
Proof.
  intros Hin Hc Ht.
  assert (Hct : parseDate (Supplier.fecha c) = Some (Some t)) by (rewrite Hc; exact Ht).
  unfold findSupplierMatch.
  set (f := fun supplier => amountsMatch (Supplier.importe supplier) (Bank.importe b)
                              (amountTolerance o)) in *.
  set (am := filter f pool) in *.
  destruct am as [|m [|m' r]] eqn:E.
  - contradiction.
  - destruct Hin as [<- | []]. exists m. auto.
  - rewrite <- E in Hin |- *.
    destruct (parseDate_getMonthYear _ _ Ht) as [my Hmy].
    assert (Hstep : exists s, month_year_step am (Bank.fValor b) = Some (Some s)
                              /\ parseDate (Supplier.fecha s) = Some (Some t)).
    { unfold month_year_step. rewrite Hmy.
      set (g := fun supplier => opt_jstr_eqb (getMonthYear (Supplier.fecha supplier)) (Some my)).
      assert (Hg : In c (filter g am)).
      { apply filter_In. split; [exact Hin|]. unfold g. rewrite Hc, Hmy. simpl.
        apply jstr_eqb_true. reflexivity. }
      destruct (filter g am) as [|x [|x' r']] eqn:Eg.
      - contradiction.
      - destruct Hg as [<- | []]. exists x. auto.
      - rewrite <- Eg in Hg |- *.
        destruct (findClosestDateMatch_exact (filter g am) (Bank.fValor b) c t Hg Hct Ht)
          as [s [Hs1 Hs2]].
        exists s. rewrite Hs1. auto. }
    destruct Hstep as [s [Hs1 Hs2]]. rewrite Hs1. exists s. auto.
Qed.

(** C1 (counterexample): with [useAccountingDate] on, two candidates of the
    amount, none dated at the value date 10/01/2025, one dated exactly at the
    accounting date 31/12/2024: [findSupplierMatch] selects the other one,
    which shares the value date's month. *)
Lemma findSupplierMatch_accounting_exact_not_preferred :
  let A := Supplier.mk (js "A") (js "15/01/2025") [] (js "ACME") (js "FA") [] [] 100 [] in
  let B := Supplier.mk (js "B") (js "31/12/2024") [] (js "ACME") (js "FB") [] [] 100 [] in
  let b := Bank.mk (js "b1") (js "31/12/2024") (js "10/01/2025") [] [] (-100) None [] [] in
  filter (fun supplier => amountsMatch (Supplier.importe supplier) (Bank.importe b)
                            (amountTolerance DEFAULT_OPTIONS)) [A; B] = [A; B]
  /\ useAccountingDate DEFAULT_OPTIONS = true
  /\ Supplier.fecha A <> Bank.fValor b /\ Supplier.fecha B <> Bank.fValor b
  /\ Supplier.fecha B = Bank.fContable b
  /\ findSupplierMatch b [A; B] DEFAULT_OPTIONS = Some A
  /\ Supplier.fecha A <> Bank.fContable b.
Proof. vm_compute. repeat split; try reflexivity; discriminate. Qed.

(* ---------------------------------------------------------------------------
   normalizeDate
   ------------------------------------------------------------------------- *)

Lemma span_app_stop (p : Z -> bool) (a : jstr) (c : Z) (r : jstr) :
  forallb p a = true -> p c = false -> span p (a ++ c :: r) = (a, c :: r).
Proof.
  induction a as [|x a IH]; simpl; intros Ha Hc.
  - rewrite Hc. reflexivity.
  - apply andb_prop in Ha as [Hx Ha]. rewrite Hx, IH by assumption. reflexivity.
Qed.

Lemma digit_not_space (c : Z) : is_digit c = true -> is_js_space c = false.
Proof.
  unfold is_digit. intro H. apply andb_prop in H as [H1 H2].
  apply Z.leb_le in H1. apply Z.leb_le in H2.
  assert (c = 48 \/ c = 49 \/ c = 50 \/ c = 51 \/ c = 52 \/ c = 53 \/ c = 54
          \/ c = 55 \/ c = 56 \/ c = 57) as Hc by lia.
  repeat destruct Hc as [-> | Hc]; [reflexivity ..|]. subst. reflexivity.
Qed.

Lemma trim_id (s : jstr) :
  drop_while is_js_space s = s -> drop_while is_js_space (rev s) = rev s -> trim s = s.
Proof.
  intros H1 H2. unfold trim. rewrite H1, H2. apply rev_involutive.
Qed.

Lemma trim_digits_ends (d1 : Z) (mid : jstr) (z : Z) :
  is_digit d1 = true -> is_digit z = true -> trim (d1 :: mid ++ [z]) = d1 :: mid ++ [z].
Proof.
  intros H1 H2. apply trim_id.
  - simpl. rewrite (digit_not_space _ H1). reflexivity.
  - change (d1 :: mid ++ [z]) with ((d1 :: mid) ++ [z]). rewrite rev_unit.
    simpl. rewrite (digit_not_space _ H2). reflexivity.
Qed.

Lemma match_DDMMMYY_spec (d m y : jstr) :
  len_between 1 2 d = true -> forallb is_digit d = true ->
  m <> [] -> forallb is_month_letter m = true ->
  len_between 2 4 y = true -> forallb is_digit y = true ->
  match_DDMMMYY (d ++ 45 :: m ++ 45 :: y) = Some (d, m, y).
Proof.
  intros Hd1 Hd2 Hm1 Hm2 Hy1 Hy2. unfold match_DDMMMYY.
  rewrite (span_app_stop is_digit d 45 _ Hd2 eq_refl), Hd1.
  rewrite (span_app_stop is_month_letter m 45 _ Hm2 eq_refl).
  destruct m as [|c m']; [congruence|]. simpl (1 <=? _)%nat. cbv iota.
  rewrite Hy2, Hy1. reflexivity.
Qed.

Lemma match_slash_spec (n : nat) (a b y : jstr) :
  len_between 1 2 a = true -> forallb is_digit a = true ->
  len_between 1 2 b = true -> forallb is_digit b = true -> forallb is_digit y = true ->
  match_slash n (a ++ 47 :: b ++ 47 :: y) = if (length y =? n)%nat then Some (a, b, y) else None.
Proof.
  intros Ha1 Ha2 Hb1 Hb2 Hy. unfold match_slash.
  rewrite (span_app_stop is_digit a 47 _ Ha2 eq_refl), Ha1.
  rewrite (span_app_stop is_digit b 47 _ Hb2 eq_refl), Hb1.
  rewrite Hy. reflexivity.
Qed.

Lemma match_DDMMMYY_slash (a b y : jstr) :
  forallb is_digit a = true -> match_DDMMMYY (a ++ 47 :: b ++ 47 :: y) = None.
Proof.
  intro Ha. unfold match_DDMMMYY.
  rewrite (span_app_stop is_digit a 47 _ Ha eq_refl).
  destruct (len_between 1 2 a); reflexivity.
Qed.

(** C6 (amended): a "DD-monthName-YY" input (one or two day digits, a month
    name of the Spanish/Catalan table in any letter case, a two-digit year)
    is normalised to DD/MM/20YY, the day zero-padded and the month taken from
    the table; every two-digit year, also 50..99, resolves to 20xx, and so
    does the year of an MM/DD/YY input; "25-nov-24" gives "25/11/2024". *)
Theorem normalizeDate_two_digit_year (d m v y : jstr) :
  len_between 1 2 d = true -> forallb is_digit d = true ->
  m <> [] -> forallb is_month_letter m = true ->
  assoc (toLowerCase m) monthMap = Some v ->
  length y = 2%nat -> forallb is_digit y = true ->
  normalizeDate (d ++ [45] ++ m ++ [45] ++ y) = padStart2 d ++ [47] ++ v ++ [47] ++ js "20" ++ y
  /\ (forall a b : jstr,
        len_between 1 2 a = true -> forallb is_digit a = true ->
        len_between 1 2 b = true -> forallb is_digit b = true ->
        normalizeDate (a ++ [47] ++ b ++ [47] ++ y)
        = padStart2 b ++ [47] ++ padStart2 a ++ [47] ++ js "20" ++ y)
  /\ normalizeDate (js "25-nov-24") = js "25/11/2024".
Proof.
  intros Hd1 Hd2 Hm1 Hm2 Hv Hy1 Hy2.
  destruct y as [|y1 [|y2 [|]]]; try discriminate. clear Hy1.
  assert (Hz : is_digit y2 = true).
  { simpl in Hy2. apply andb_prop in Hy2 as [_ Hy2]. apply andb_prop in Hy2 as [H _]. exact H. }
  split; [|split].
  - destruct d as [|d1 d']; [discriminate|].
    assert (Hd : is_digit d1 = true) by (simpl in Hd2; apply andb_prop in Hd2; tauto).
    assert (Htrim : trim ((d1 :: d') ++ [45] ++ m ++ [45] ++ [y1; y2])
                    = (d1 :: d') ++ [45] ++ m ++ [45] ++ [y1; y2]).
    { replace ((d1 :: d') ++ [45] ++ m ++ [45] ++ [y1; y2])
        with (d1 :: (d' ++ 45 :: m ++ [45; y1]) ++ [y2])
        by (simpl; repeat (rewrite <- app_assoc; simpl); reflexivity).
      apply trim_digits_ends; assumption. }
    unfold normalizeDate at 1. simpl app at 1. cbv beta iota zeta.
    change (d1 :: d' ++ [45] ++ m ++ [45] ++ [y1; y2])
      with ((d1 :: d') ++ [45] ++ m ++ [45] ++ [y1; y2]).
    rewrite Htrim.
    replace (match_DDMMMYY ((d1 :: d') ++ [45] ++ m ++ [45] ++ [y1; y2]))
      with (Some (d1 :: d', m, [y1; y2]))
      by (symmetry; apply match_DDMMMYY_spec; auto).
    cbv beta iota zeta. unfold monthMap_get. rewrite Hv. reflexivity.
  - intros a b Ha1 Ha2 Hb1 Hb2.
    destruct a as [|a1 a']; [discriminate|].
    assert (Ha : is_digit a1 = true) by (simpl in Ha2; apply andb_prop in Ha2; tauto).
    assert (Htrim : trim ((a1 :: a') ++ [47] ++ b ++ [47] ++ [y1; y2])
                    = (a1 :: a') ++ [47] ++ b ++ [47] ++ [y1; y2]).
    { replace ((a1 :: a') ++ [47] ++ b ++ [47] ++ [y1; y2])
        with (a1 :: (a' ++ 47 :: b ++ [47; y1]) ++ [y2])
        by (simpl; repeat (rewrite <- app_assoc; simpl); reflexivity).
      apply trim_digits_ends; assumption. }
    unfold normalizeDate at 1. simpl app at 1. cbv beta iota zeta.
    change (a1 :: a' ++ [47] ++ b ++ [47] ++ [y1; y2])
      with ((a1 :: a') ++ [47] ++ b ++ [47] ++ [y1; y2]).
    rewrite Htrim.
    replace (match_DDMMMYY ((a1 :: a') ++ [47] ++ b ++ [47] ++ [y1; y2])) with
      (@None (jstr * jstr * jstr)) by (symmetry; apply match_DDMMMYY_slash; exact Ha2).
    replace (match_slash 4 ((a1 :: a') ++ [47] ++ b ++ [47] ++ [y1; y2])) with
      (@None (jstr * jstr * jstr)) by (symmetry; apply (match_slash_spec 4); assumption).
    replace (match_slash 2 ((a1 :: a') ++ [47] ++ b ++ [47] ++ [y1; y2])) with
      (Some (a1 :: a', b, [y1; y2])) by (symmetry; apply (match_slash_spec 2); assumption).
    reflexivity.
  - reflexivity.
Qed.

Lemma normalizeDate_two_digit_year_witness :
  assoc (toLowerCase (js "NOV")) monthMap = Some (js "11")
  /\ normalizeDate (js "7-NOV-24") = js "07/11/2024".
Proof.
  split; [reflexivity|].
  apply (normalizeDate_two_digit_year (js "7") (js "NOV") (js "11") (js "24"));
    first [reflexivity | discriminate].
Defined.

(** C6 (counterexample): a two-digit year of 50 or more is not read as 19xx:
    "25-nov-99" is normalised to "25/11/2099", not "25/11/1999". *)
Lemma normalizeDate_99_is_2099 :
  normalizeDate (js "25-nov-99") = js "25/11/2099"
  /\ normalizeDate (js "25-nov-99") <> js "25/11/1999".
Proof. split; [reflexivity | vm_compute; discriminate]. Qed.

(** ** Statement extractors: deduplication keys *)

Lemma key_middle_inj (f v x y a : jstr) :
  f ++ key_sep ++ v ++ key_sep ++ x ++ key_sep ++ a
  = f ++ key_sep ++ v ++ key_sep ++ y ++ key_sep ++ a -> x = y.
Proof.
  intro E.
  apply app_inv_head in E. apply app_inv_head in E.
  apply app_inv_head in E. apply app_inv_head in E.
  rewrite !app_assoc in E. apply app_inv_tail in E.
  apply app_inv_tail in E. exact E.
Qed.

Lemma sab_step1_add (fileName : jstr) (fresh : nat -> jstr) (seen : list jstr)
    (records : list Bank.t) (m : Sabadell.Match1) :
  let concepto := trim (Sabadell.m1_concepto m) in
  let k := Sabadell.normalizeDate (Sabadell.m1_fContable m) ++ key_sep
           ++ Sabadell.normalizeDate (Sabadell.m1_fValor m) ++ key_sep
           ++ firstn 30 concepto ++ key_sep ++ Sabadell.m1_importe m in
  Sabadell.seen_has seen k = false ->
  (2 < length concepto)%nat ->
  Sabadell.isHeaderText concepto = false ->
  fst (Sabadell.step1 fileName fresh (seen, records) m) = k :: seen /\
  map Bank.concepto (snd (Sabadell.step1 fileName fresh (seen, records) m))
  = map Bank.concepto records ++ [concepto].
Proof.
  intros concepto k Hs Hl Hh.
  unfold Sabadell.step1. cbv zeta. fold concepto. fold k.
  rewrite Hs, Hh.
  replace (length concepto =? 0)%nat with false by (symmetry; apply Nat.eqb_neq; lia).
  replace (2 <? length concepto)%nat with true by (symmetry; apply Nat.ltb_lt; lia).
  simpl. rewrite map_app. split; reflexivity.
Qed.

Lemma trim_nil : trim [] = [].
Proof. reflexivity. Qed.

Lemma bbva_step_new_two_dates (fileName : jstr) (fresh : nat -> jstr) (seen : list jstr)
    (records : list Bank.t) (m0 fContable fValor concepto importeRaw : jstr) :
  let k := fContable ++ key_sep ++ fValor ++ key_sep ++ importeRaw in
  existsb (jstr_eqb k) seen = false ->
  (1 < length (trim concepto))%nat ->
  fst (Bbva.step fileName fresh (seen, records) [m0; fContable; fValor; concepto; importeRaw])
  = k :: seen /\
  map Bank.concepto
    (snd (Bbva.step fileName fresh (seen, records) [m0; fContable; fValor; concepto; importeRaw]))
  = map Bank.concepto records ++ [trim concepto].
Proof.
  intros k Hs Hl.
  unfold Bbva.step. cbv zeta. simpl nth. simpl Nat.leb. cbv iota. fold k.
  rewrite Hs.
  destruct concepto as [|c r]; [rewrite trim_nil in Hl; simpl in Hl; lia|].
  replace (1 <? length (trim (c :: r)))%nat with true by (symmetry; apply Nat.ltb_lt; lia).
  simpl. rewrite map_app. split; reflexivity.
Qed.

Lemma bbva_step_seen (fileName : jstr) (fresh : nat -> jstr) (seen : list jstr)
    (records : list Bank.t) (m0 fContable fValor concepto importeRaw : jstr) :
  In (fContable ++ key_sep ++ fValor ++ key_sep ++ importeRaw) seen ->
  Bbva.step fileName fresh (seen, records) [m0; fContable; fValor; concepto; importeRaw]
  = (seen, records).
Proof.
  intro Hin.
  unfold Bbva.step. cbv zeta. simpl nth. simpl Nat.leb. cbv iota.
  replace (existsb _ seen) with true; [reflexivity|].
  symmetry. apply existsb_exists. eexists. split; [exact Hin|].
  apply jstr_eqb_true. reflexivity.
Qed.

Lemma consulta_step_add (fileName : jstr) (fresh : nat -> jstr) (seen : list jstr)
    (records : list Bank.t) (m : SabadellConsulta.Match) :
  let key := SabadellConsulta.uniqueKey (SabadellConsulta.m_fContable m)
               (SabadellConsulta.m_fValor m) (SabadellConsulta.m_importeRaw m)
               (SabadellConsulta.m_saldoRaw m) in
  Sabadell.seen_has seen key = false ->
  SabadellConsulta.isValidConcept (cleanConcept (SabadellConsulta.m_concepto m)) = true ->
  SabadellConsulta.step fileName fresh (seen, records) m
  = (key :: seen,
     records ++ [SabadellConsulta.new_record fileName (fresh (length records))
                   (SabadellConsulta.m_fContable m) (SabadellConsulta.m_fValor m)
                   (cleanConcept (SabadellConsulta.m_concepto m))
                   (SabadellConsulta.m_importeRaw m) (SabadellConsulta.m_saldoRaw m)]).
Proof.
  intros key Hs Hv. unfold SabadellConsulta.step. fold key. rewrite Hs, Hv. reflexivity.
Qed.

Lemma consulta_step_seen (fileName : jstr) (fresh : nat -> jstr) (seen : list jstr)
    (records : list Bank.t) (m : SabadellConsulta.Match) :
  In (SabadellConsulta.uniqueKey (SabadellConsulta.m_fContable m) (SabadellConsulta.m_fValor m)
        (SabadellConsulta.m_importeRaw m) (SabadellConsulta.m_saldoRaw m)) seen ->
  SabadellConsulta.step fileName fresh (seen, records) m = (seen, records).
Proof.
  intro Hin. unfold SabadellConsulta.step.
  replace (Sabadell.seen_has seen _) with true; [reflexivity|].
  symmetry. apply existsb_exists. eexists. split; [exact Hin|]. apply jstr_eqb_true. reflexivity.
Qed.

(** C7 (amended): the statement extractors deduplicate by different keys.
    The sabadellParser.ts extractor keys on (posting date, value date, first
    30 characters of the trimmed description, raw amount), so two valid rows
    with the same dates and amount whose descriptions differ in their first
    30 characters are both kept.  The BBVA extractor (unnamed/part_008) keys
    on (posting date, value date, raw amount) only, and the older Sabadell
    extractor (unnamed/part_004) on (posting date, value date, raw amount,
    raw balance) with no description: of two such rows (for part_004 also
    with the same balance, the first with a valid cleaned concept) each keeps
    only the first, whatever the second row's description. *)
Theorem extractors_dedup_keys (fileName : jstr) (fresh : nat -> jstr)
    (fContable fValor importeRaw m0 m0' c1 c2 saldoRaw : jstr) (saldo1 saldo2 : option jstr)
    (lines : list SabadellConsulta.Line) :
  (2 < length (trim c1))%nat -> (2 < length (trim c2))%nat ->
  Sabadell.isHeaderText (trim c1) = false -> Sabadell.isHeaderText (trim c2) = false ->
  firstn 30 (trim c1) <> firstn 30 (trim c2) ->
  SabadellConsulta.isValidConcept (cleanConcept c1) = true ->
  map Bank.concepto
    (Sabadell.extractMovementsFromText fileName fresh
       [Sabadell.mkMatch1 fContable fValor c1 importeRaw saldo1;
        Sabadell.mkMatch1 fContable fValor c2 importeRaw saldo2] [])
  = [trim c1; trim c2] /\
  map Bank.concepto
    (Bbva.extractMovementsFromText fileName fresh
       [[[m0; fContable; fValor; c1; importeRaw]; [m0'; fContable; fValor; c2; importeRaw]]])
  = [trim c1] /\
  map Bank.concepto
    (SabadellConsulta.extractMovementsFromText fileName fresh
       [SabadellConsulta.mkMatch fContable c1 fValor importeRaw saldoRaw;
        SabadellConsulta.mkMatch fContable c2 fValor importeRaw saldoRaw] lines)
  = [cleanConcept c1].
Proof.
  intros Hl1 Hl2 Hh1 Hh2 Hd Hv. split; [|split].
  - unfold Sabadell.extractMovementsFromText. cbn [fold_left].
    set (m1 := Sabadell.mkMatch1 fContable fValor c1 importeRaw saldo1).
    set (m2 := Sabadell.mkMatch1 fContable fValor c2 importeRaw saldo2).
    destruct (sab_step1_add fileName fresh [] [] m1) as [Hs1 Hc1]; [reflexivity|exact Hl1|exact Hh1|].
    destruct (Sabadell.step1 fileName fresh ([], []) m1) as [seen1 recs1].
    cbn [fst snd] in Hs1, Hc1. subst seen1.
    match goal with |- context [Sabadell.step1 _ _ (?s, _) m2] =>
      destruct (sab_step1_add fileName fresh s recs1 m2) as [Hs2 Hc2] end;
      [| exact Hl2 | exact Hh2 |].
    + unfold Sabadell.seen_has. cbn [existsb]. rewrite orb_false_r.
      destruct (jstr_eqb _ _) eqn:E; [|reflexivity].
      apply jstr_eqb_true, key_middle_inj in E. unfold m1, m2 in E; cbn [Sabadell.m1_concepto] in E. congruence.
    + destruct (Sabadell.step1 fileName fresh _ m2) as [seen2 recs2].
      cbn [snd] in Hc2 |- *. rewrite Hc1 in Hc2.
      destruct recs2 as [|r recs2]; [discriminate|]. rewrite Hc2. reflexivity.
  - unfold Bbva.extractMovementsFromText. cbn [fold_left].
    destruct (bbva_step_new_two_dates fileName fresh [] [] m0 fContable fValor c1 importeRaw)
      as [Hs1 Hc1]; [reflexivity|lia|].
    destruct (Bbva.step fileName fresh ([], []) _) as [seen1 recs1].
    cbn [fst snd] in Hs1, Hc1. subst seen1.
    rewrite bbva_step_seen by (left; reflexivity). exact Hc1.
  - unfold SabadellConsulta.extractMovementsFromText. cbn [fold_left].
    rewrite consulta_step_add by (exact Hv || reflexivity).
    rewrite consulta_step_seen by (left; reflexivity).
    reflexivity.
Qed.

(** Witness for C7 at two rows with the same dates, amount and balance. *)
Lemma extractors_dedup_keys_witness :
  map Bank.concepto
    (Sabadell.extractMovementsFromText (js "extracto.pdf") (fun n => [Z.of_nat n])
       [Sabadell.mkMatch1 (js "31/12/2025") (js "31/12/2025") (js "RECIBO LUZ") (js "-50,00") None;
        Sabadell.mkMatch1 (js "31/12/2025") (js "31/12/2025") (js "RECIBO AGUA") (js "-50,00") None] [])
  = [js "RECIBO LUZ"; js "RECIBO AGUA"] /\
  map Bank.concepto
    (Bbva.extractMovementsFromText (js "extracto.pdf") (fun n => [Z.of_nat n])
       [[[js "x"; js "31/12/2025"; js "31/12/2025"; js "RECIBO LUZ"; js "-50,00"];
         [js "y"; js "31/12/2025"; js "31/12/2025"; js "RECIBO AGUA"; js "-50,00"]]])
  = [js "RECIBO LUZ"] /\
  map Bank.concepto
    (SabadellConsulta.extractMovementsFromText (js "extracto.pdf") (fun n => [Z.of_nat n])
       [SabadellConsulta.mkMatch (js "31/12/2025") (js "RECIBO LUZ") (js "31/12/2025") (js "-50,00") (js "1.200,00");
        SabadellConsulta.mkMatch (js "31/12/2025") (js "RECIBO AGUA") (js "31/12/2025") (js "-50,00") (js "1.200,00")] [])
  = [cleanConcept (js "RECIBO LUZ")].
Proof.
  exact (extractors_dedup_keys (js "extracto.pdf") (fun n => [Z.of_nat n])
           (js "31/12/2025") (js "31/12/2025") (js "-50,00") (js "x") (js "y")
           (js "RECIBO LUZ") (js "RECIBO AGUA") (js "1.200,00") None None []
           ltac:(vm_compute; lia) ltac:(vm_compute; lia)
           ltac:(vm_compute; reflexivity) ltac:(vm_compute; reflexivity)
           ltac:(vm_compute; discriminate) ltac:(vm_compute; reflexivity)).
Defined.

(** C7 counterexample: two BBVA rows with identical dates and amount but
    different descriptions ("RECIBO LUZ", "RECIBO AGUA") yield one record;
    so do two such rows of the part_004 Sabadell extractor with the same
    balance. *)
Lemma bbva_drops_repeat_with_other_description :
  map Bank.concepto
    (Bbva.extractMovementsFromText (js "extracto.pdf") (fun n => [Z.of_nat n])
       [[[js "31/12/2025 31/12/2025 RECIBO LUZ -50,00 EUR";
          js "31/12/2025"; js "31/12/2025"; js "RECIBO LUZ"; js "-50,00"];
         [js "31/12/2025 31/12/2025 RECIBO AGUA -50,00 EUR";
          js "31/12/2025"; js "31/12/2025"; js "RECIBO AGUA"; js "-50,00"]]])
  = [js "RECIBO LUZ"] /\
  map Bank.concepto
    (SabadellConsulta.extractMovementsFromText (js "extracto.pdf") (fun n => [Z.of_nat n])
       [SabadellConsulta.mkMatch (js "31/12/2025") (js "RECIBO LUZ") (js "30/12/2025")
          (js "-50,00") (js "1.200,00");
        SabadellConsulta.mkMatch (js "31/12/2025") (js "RECIBO AGUA") (js "30/12/2025")
          (js "-50,00") (js "1.200,00")] [])
  = [js "RECIBO LUZ"].
Proof. split; vm_compute; reflexivity. Qed.

(** ** Supplier Excel parser *)

Definition supplier_row_ok (r : Supplier.t) : Prop :=
  Supplier.nombre r <> [] /\ Supplier.documento r <> [] /\ Supplier.importeRaw r <> [] /\
  Supplier.nombre r <> js "T O T A L S" /\ includes (js "TOTAL") (Supplier.nombre r) = false /\
  Supplier.importe r = parseCurrency (Supplier.importeRaw r) /\
  ~ (Supplier.importe r == 0)%Q.

Lemma parse_row_ok (cols : Columns) (id sourceFile : jstr) (row : option (list cell))
    (r : Supplier.t) :
  parse_row cols id sourceFile row = Some r -> supplier_row_ok r.
Proof.
  unfold parse_row. destruct row as [row|]; [|discriminate].
  destruct (_ <? _); [discriminate|]. cbv zeta.
  set (cliente := trim (cell_str (row_get row (colClient cols)))).
  set (numFra := col_value row (colNumFra cols)).
  set (importRaw := col_value row (colImport cols)).
  destruct ((length cliente =? 0)%nat || (length numFra =? 0)%nat
            || (length importRaw =? 0)%nat) eqn:E1; [discriminate|].
  destruct (jstr_eqb cliente (js "T O T A L S") || includes (js "TOTAL") cliente) eqn:E2;
    [discriminate|].
  destruct (Qeq_bool (parseCurrency importRaw) 0) eqn:E3; [discriminate|].
  intro H. injection H as <-.
  apply orb_false_iff in E1 as [E1 Ei]. apply orb_false_iff in E1 as [Ec En].
  apply orb_false_iff in E2 as [Et Ei'].
  unfold supplier_row_ok; cbn [Supplier.nombre Supplier.documento Supplier.importeRaw
                                Supplier.importe].
  repeat split.
  - intro E. rewrite E in Ec. discriminate.
  - intro E. rewrite E in En. discriminate.
  - intro E. rewrite E in Ei. discriminate.
  - intro E. rewrite E in Et. discriminate.
  - exact Ei'.
  - intro E. apply Qeq_bool_iff in E. congruence.
Qed.

Lemma parseSheet_fold_ok (cols : Columns) (fresh : nat -> jstr) (sourceFile : jstr)
    (rows : list (option (list cell))) (acc : list Supplier.t) :
  Forall supplier_row_ok acc ->
  Forall supplier_row_ok
    (fold_left
       (fun records row =>
          match parse_row cols (fresh (length records)) sourceFile row with
          | Some record => records ++ [record]
          | None => records
          end) rows acc).
Proof.
  revert acc. induction rows as [|row rows IH]; intros acc Hacc; [exact Hacc|].
  simpl. apply IH.
  destruct (parse_row cols (fresh (length acc)) sourceFile row) as [r|] eqn:E; [|exact Hacc].
  apply Forall_app. split; [exact Hacc|]. constructor; [|constructor].
  exact (parse_row_ok _ _ _ _ _ E).
Qed.

(** C10: every record [parseSheet] produces has a nonempty client name
    ([nombre]), a nonempty invoice number ([documento]) and a nonempty raw
    amount; its client name is neither 'T O T A L S' nor contains 'TOTAL';
    its amount is [parseCurrency] of its raw amount, and is not 0. *)
Theorem parseSheet_records_nonzero (fresh : nat -> jstr) (rows : list (option (list cell)))
    (fileName sheetName : jstr) (r : Supplier.t) :
  In r (parseSheet fresh rows fileName sheetName) ->
  Supplier.nombre r <> [] /\ Supplier.documento r <> [] /\ Supplier.importeRaw r <> [] /\
  Supplier.nombre r <> js "T O T A L S" /\ includes (js "TOTAL") (Supplier.nombre r) = false /\
  Supplier.importe r = parseCurrency (Supplier.importeRaw r) /\
  ~ (Supplier.importe r == 0)%Q.
Proof.
  intro Hin.
  assert (Hall : Forall supplier_row_ok (parseSheet fresh rows fileName sheetName)).
  { unfold parseSheet. destruct (findHeaderRow rows =? -1); [constructor|].
    apply parseSheet_fold_ok. constructor. }
  rewrite Forall_forall in Hall. exact (Hall r Hin).
Qed.

Definition sample_sheet : list (option (list cell)) :=
  [Some [Some (js "Llistat de venciments")];
   Some [Some (js "Codi"); Some (js "Client"); Some (js "Data fra."); Some (js "Num. fra.");
         Some (js "Venciment"); Some (js "IMPORT")];
   Some [Some (js "430"); Some (js "ACME SL"); Some (js "10/30/2025"); Some (js "F-12");
         Some (js "25-nov-25"); Some (js "1.234,56")];
   Some [Some (js "431"); Some (js "BETA SA"); Some (js "10/30/2025"); Some (js "F-13");
         None; Some (js "n/a")];
   Some [None; Some (js "TOTALS"); None; Some (js "-"); None; Some (js "1.234,56")]].

Definition sample_record : Supplier.t :=
  Supplier.mk [0] (js "25/11/2025") (js "430") (js "ACME SL") (js "F-12") []
    (js "1.234,56") (parseCurrency (js "1.234,56")) (js "f.xlsx - Hoja1").

(** Witness for C10: the one record of a sample sheet (the unparsable amount
    and the total row are skipped). *)
Lemma parseSheet_records_nonzero_witness :
  parseSheet (fun n => [Z.of_nat n]) sample_sheet (js "f.xlsx") (js "Hoja1") = [sample_record] /\
  ~ (Supplier.importe sample_record == 0)%Q.
Proof.
  split; [vm_compute; reflexivity|].
  apply (parseSheet_records_nonzero (fun n => [Z.of_nat n]) sample_sheet
           (js "f.xlsx") (js "Hoja1") sample_record).
  vm_compute. left. reflexivity.
Defined.

(* ---------------------------------------------------------------------------
   Further properties of the reconciliation engine
   ------------------------------------------------------------------------- *)

Lemma findSupplierMatch_candidate (b : Bank.t) (pool : list Supplier.t) (o : RequiredOptions)
    (x : Supplier.t) :
  findSupplierMatch b pool o = Some x ->
  In x (filter (fun supplier => amountsMatch (Supplier.importe supplier) (Bank.importe b)
                                  (amountTolerance o)) pool).
Proof.
  unfold findSupplierMatch.
  set (f := fun supplier => amountsMatch (Supplier.importe supplier) (Bank.importe b)
                              (amountTolerance o)).
  intro H.
  set (am := filter f pool) in *.
  destruct am as [|m [|m' r]] eqn:E; [discriminate| injection H as <-; left; reflexivity |].
  rewrite <- E in H |- *.
  destruct (month_year_step am (Bank.fValor b)) as [r1|] eqn:E1.
  { destruct r1 as [y|]; [|discriminate]. injection H as <-.
    apply (month_year_step_in _ _ _ E1). }
  destruct (if useAccountingDate o then month_year_step am (Bank.fContable b) else None)
    as [r2|] eqn:E2.
  { destruct r2 as [y|]; [|discriminate]. injection H as <-.
    destruct (useAccountingDate o); [|discriminate].
    apply (month_year_step_in _ _ _ E2). }
  destruct (findClosestDateMatch am (Bank.fValor b)) as [cm|] eqn:E3; [|discriminate].
  destruct (useAccountingDate o); [|injection H as <-; apply (findClosestDateMatch_in _ _ _ E3)].
  destruct (parseDate (Supplier.fecha cm)), (parseDate (Bank.fValor b)),
           (parseDate (Bank.fContable b)),
           (findClosestDateMatch am (Bank.fContable b)) as [cwc|] eqn:E4;
    try (injection H as <-; apply (findClosestDateMatch_in _ _ _ E3)).
  destruct (num_lt _ _); injection H as <-.
  - apply (findClosestDateMatch_in _ _ _ E4).
  - apply (findClosestDateMatch_in _ _ _ E3).
Qed.

Lemma month_year_step_not_none (l : list Supplier.t) (d : jstr) :
  month_year_step l d <> Some None.
Proof.
  unfold month_year_step. destruct (getMonthYear d) as [my|]; [|discriminate].
  set (f := fun supplier => opt_jstr_eqb (getMonthYear (Supplier.fecha supplier)) (Some my)).
  destruct (filter f l) as [|m [|m' r]] eqn:E; try discriminate.
  destruct (findClosestDateMatch_some (m :: m' :: r) d) as [x Hx]; [discriminate|].
  rewrite Hx. discriminate.
Qed.

Lemma findSupplierMatch_some (b : Bank.t) (pool : list Supplier.t) (o : RequiredOptions) :
  filter (fun supplier => amountsMatch (Supplier.importe supplier) (Bank.importe b)
                            (amountTolerance o)) pool <> [] ->
  exists x, findSupplierMatch b pool o = Some x.
Proof.
  unfold findSupplierMatch.
  set (f := fun supplier => amountsMatch (Supplier.importe supplier) (Bank.importe b)
                              (amountTolerance o)).
  intro Hne.
  set (am := filter f pool) in *.
  destruct am as [|m [|m' r]] eqn:E; [congruence| eauto |].
  rewrite <- E.
  destruct (month_year_step am (Bank.fValor b)) as [[y|]|] eqn:E1; [eauto| |].
  { exfalso. exact (month_year_step_not_none _ _ E1). }
  destruct (if useAccountingDate o then month_year_step am (Bank.fContable b) else None)
    as [[y|]|] eqn:E2; [eauto| |].
  { exfalso. destruct (useAccountingDate o); [|discriminate].
    exact (month_year_step_not_none _ _ E2). }
  destruct (findClosestDateMatch_some am (Bank.fValor b)) as [cm E3]; [rewrite E; discriminate|].
  rewrite E3.
  destruct (useAccountingDate o); [|eauto].
  destruct (parseDate (Supplier.fecha cm)), (parseDate (Bank.fValor b)),
           (parseDate (Bank.fContable b)),
           (findClosestDateMatch am (Bank.fContable b)); eauto.
  destruct (num_lt _ _); eauto.
Qed.

(** [findSupplierMatch] (unnamed/part_002) only returns a supplier record of
    the pool whose amount matches the bank amount within the tolerance, and
    returns [null] exactly when no supplier record of the pool does. *)
Theorem findSupplierMatch_amount_candidate (b : Bank.t) (pool : list Supplier.t)
    (o : RequiredOptions) :
  (forall x, findSupplierMatch b pool o = Some x ->
     In x pool /\ amountsMatch (Supplier.importe x) (Bank.importe b) (amountTolerance o) = true)
  /\ (findSupplierMatch b pool o = None <->
      forall s, In s pool ->
        amountsMatch (Supplier.importe s) (Bank.importe b) (amountTolerance o) = false).
Proof.
  split.
  - intros x Hx. apply findSupplierMatch_candidate in Hx. apply filter_In in Hx. exact Hx.
  - split.
    + intros Hn s Hs. destruct (amountsMatch _ _ _) eqn:E; [|reflexivity].
      destruct (findSupplierMatch_some b pool o) as [x Hx].
      * intro Hf. assert (Hin : In s (filter (fun supplier =>
          amountsMatch (Supplier.importe supplier) (Bank.importe b) (amountTolerance o)) pool))
          by (apply filter_In; auto).
        rewrite Hf in Hin. contradiction.
      * congruence.
    + intro Hall. destruct (findSupplierMatch b pool o) as [x|] eqn:Hx; [|reflexivity].
      apply findSupplierMatch_candidate, filter_In in Hx as [Hin Ham].
      rewrite (Hall x Hin) in Ham. discriminate.
Qed.

(* findClosestDateMatch picks a closest date *)

Definition closest_bound (d : Z) (st : Supplier.t * option Z) : Prop :=
  exists m, snd st = Some m /\ m <= d.

Lemma closest_step_bound (t d : Z) (st : Supplier.t * option Z) (s : Supplier.t) :
  closest_bound d st -> closest_bound d (closest_step (Some t) st s).
Proof.
  destruct st as [cl sm]. unfold closest_bound, closest_step. simpl.
  intros [m [-> Hm]].
  destruct (parseDate (Supplier.fecha s)) as [[sdt|]|]; simpl; eauto.
  destruct (Z.abs (t - sdt) <? m) eqn:E; simpl; eauto.
  apply Z.ltb_lt in E. exists (Z.abs (t - sdt)). split; [reflexivity|lia].
Qed.

Lemma closest_step_hit (t ts : Z) (st : Supplier.t * option Z) (s : Supplier.t) :
  parseDate (Supplier.fecha s) = Some (Some ts) ->
  closest_bound (Z.abs (t - ts)) (closest_step (Some t) st s).
Proof.
  destruct st as [cl sm]. unfold closest_bound, closest_step. intro Hs. rewrite Hs. simpl.
  destruct sm as [m|].
  - destruct (Z.abs (t - ts) <? m) eqn:E; simpl.
    + exists (Z.abs (t - ts)). split; [reflexivity|lia].
    + apply Z.ltb_ge in E. exists m. split; [reflexivity|lia].
  - exists (Z.abs (t - ts)). split; [reflexivity|lia].
Qed.

Lemma closest_fold_bound (t d : Z) (l : list Supplier.t) :
  forall st, closest_bound d st -> closest_bound d (fold_left (closest_step (Some t)) l st).
Proof.
  induction l as [|x r IH]; intros st H; simpl; [exact H|].
  apply IH. apply closest_step_bound. exact H.
Qed.

Lemma closest_fold_hit (t ts : Z) (l : list Supplier.t) (s : Supplier.t) :
  In s l -> parseDate (Supplier.fecha s) = Some (Some ts) ->
  forall st, closest_bound (Z.abs (t - ts)) (fold_left (closest_step (Some t)) l st).
Proof.
  induction l as [|x r IH]; intros Hin Hs st; simpl in *; [contradiction|].
  destruct Hin as [<- | Hin].
  - apply closest_fold_bound. apply closest_step_hit. exact Hs.
  - apply IH; assumption.
Qed.

Lemma closest_fold_inv (t : Z) (l : list Supplier.t) :
  forall st, closest_inv t st -> closest_inv t (fold_left (closest_step (Some t)) l st).
Proof.
  induction l as [|x r IH]; intros st H; simpl; [exact H|].
  apply IH. apply closest_step_inv. exact H.
Qed.

Lemma findClosestDateMatch_closest_gen (l : list Supplier.t) (target : jstr) (t : Z)
    (c s : Supplier.t) (ts : Z) :
  parseDate target = Some (Some t) ->
  findClosestDateMatch l target = Some c ->
  In s l -> parseDate (Supplier.fecha s) = Some (Some ts) ->
  exists tc, parseDate (Supplier.fecha c) = Some (Some tc) /\ Z.abs (t - tc) <= Z.abs (t - ts).
Proof.
  intros Ht Hc Hin Hs.
  unfold findClosestDateMatch in Hc. destruct l as [|s0 r]; [discriminate|].
  rewrite Ht in Hc. injection Hc as <-.
  set (st := fold_left (closest_step (Some t)) (s0 :: r) (s0, None)).
  assert (Hinv : closest_inv t st) by (apply closest_fold_inv; left; reflexivity).
  destruct (closest_fold_hit t ts (s0 :: r) s Hin Hs (s0, None)) as [m [Hm Hle]].
  fold st in Hm.
  destruct Hinv as [Hn | [tc [Htc Hd]]]; [congruence|].
  exists tc. split; [exact Htc|]. congruence.
Qed.

(** [findClosestDateMatch] (unnamed/part_002): when the target date is a
    valid date, the supplier record returned is at least as close to it as
    every candidate with a valid date (and has a valid date itself). *)
Theorem findClosestDateMatch_closest (l : list Supplier.t) (target : jstr) (t : Z)
    (c s : Supplier.t) (ts : Z) :
  parseDate target = Some (Some t) ->
  findClosestDateMatch l target = Some c ->
  In s l -> parseDate (Supplier.fecha s) = Some (Some ts) ->
  exists tc, parseDate (Supplier.fecha c) = Some (Some tc) /\ Z.abs (t - tc) <= Z.abs (t - ts).
Proof.
  intros Ht Hc Hin Hs. exact (findClosestDateMatch_closest_gen l target t c s ts Ht Hc Hin Hs).
Qed.

Definition sample_supplier_A : Supplier.t :=
  Supplier.mk (js "A") (js "20/01/2025") [] (js "ACME") (js "FA") [] [] 100 [].

Definition sample_supplier_B : Supplier.t :=
  Supplier.mk (js "B") (js "12/01/2025") [] (js "ACME") (js "FB") [] [] 100 [].

Lemma findClosestDateMatch_closest_witness :
  findClosestDateMatch [sample_supplier_A; sample_supplier_B] (js "10/01/2025")
  = Some sample_supplier_B /\
  exists tc, parseDate (js "12/01/2025") = Some (Some tc)
             /\ Z.abs (1736467200000 - tc) <= Z.abs (1736467200000 - 1737331200000).
Proof.
  split; [vm_compute; reflexivity|].
  apply (findClosestDateMatch_closest [sample_supplier_A; sample_supplier_B] (js "10/01/2025")
           1736467200000 sample_supplier_B sample_supplier_A 1737331200000);
    [vm_compute; reflexivity | vm_compute; reflexivity | left; reflexivity
    | vm_compute; reflexivity].
Defined.

(* Each match consumes one available supplier record *)

Lemma findIndex_id_lt (i : jstr) (pool : list Supplier.t) (k : nat) :
  findIndex_id i pool = Some k -> (k < length pool)%nat.
Proof.
  revert k. induction pool as [|s r IH]; intros k; simpl; [discriminate|].
  destruct (jstr_eqb (Supplier.id s) i).
  - intro H; injection H as <-. lia.
  - destruct (findIndex_id i r) as [k'|] eqn:E; simpl; [|discriminate].
    intro H; injection H as <-. specialize (IH k' eq_refl). lia.
Qed.

Lemma remove_at_length {A} (k : nat) (l : list A) :
  (k < length l)%nat -> length (remove_at k l) = pred (length l).
Proof.
  revert k. induction l as [|x r IH]; intros [|k] Hk; simpl in *; try lia.
  rewrite IH by lia. destruct r; simpl in *; lia.
Qed.

Definition count_matches (rs : list MatchedBankRecord) : nat :=
  length (filter (fun r => Status_eqb (status r) Match) rs).

Lemma map_bank_records_count (o : RequiredOptions) (avail : nat) (bs : list Bank.t) :
  forall h, (avail < length h)%nat ->
  let '(h', rs) := map_bank_records o avail h bs in
  (count_matches rs + length (load h' avail) = length (load h avail))%nat.
Proof.
  induction bs as [|b bs IH]; intros h Ha; simpl; [reflexivity|].
  destruct (match_bank_record o avail h b) as [h1 r] eqn:E1.
  assert (Hl1 : (avail < length h1)%nat).
  { pose proof (match_bank_record_frame o avail h b) as F. rewrite E1 in F.
    destruct F as [_ [-> _]]. exact Ha. }
  specialize (IH h1 Hl1).
  destruct (map_bank_records o avail h1 bs) as [h2 rs].
  unfold count_matches in *. simpl.
  unfold match_bank_record in E1.
  destruct (findSupplierMatch b (load h avail) o) as [m|] eqn:Ef.
  - apply findSupplierMatch_in in Ef.
    destruct (findIndex_id_found (Supplier.id m) (load h avail) m Ef eq_refl) as [k Hk].
    rewrite Hk in E1. injection E1 as <- <-. simpl.
    rewrite load_store_same in IH by exact Ha.
    rewrite remove_at_length in IH by (exact (findIndex_id_lt _ _ _ Hk)).
    pose proof (findIndex_id_lt _ _ _ Hk). lia.
  - injection E1 as <- <-. simpl. exact IH.
Qed.

(** [performReconciliation] (unnamed/part_002) reports at most as many
    matches as there are supplier records, whatever their ids: each match
    removes one record from the available copy. *)
Theorem reconcile_matches_le_suppliers (bankRecords : list Bank.t)
    (supplierRecords : list Supplier.t) (options : MatchingOptions) :
  (matches (stats (reconcile bankRecords supplierRecords options))
   <= Z.of_nat (length supplierRecords))%Z.
Proof.
  unfold reconcile, performReconciliation. cbn [length load nth app].
  pose proof (map_bank_records_count (mergeOptions options) 1 bankRecords
                [supplierRecords; supplierRecords] ltac:(simpl; lia)) as C.
  destruct (map_bank_records (mergeOptions options) 1 [supplierRecords; supplierRecords]
              bankRecords) as [h2 rs].
  simpl. unfold count_matches, load in C. simpl in C. lia.
Qed.

(* src/services/reconciliation/reconciliationService.ts *)

Lemma ServiceFile_supplier_matches_iff (b : Bank.t) (o : RequiredOptions) (s : Supplier.t) :
  ServiceFile.supplier_matches b o s = true <->
  amountsMatch (Supplier.importe s) (Bank.importe b) (amountTolerance o) = true
  /\ (Supplier.fecha s = Bank.fValor b
      \/ useAccountingDate o = true /\ Supplier.fecha s = Bank.fContable b).
Proof.
  unfold ServiceFile.supplier_matches.
  destruct (amountsMatch _ _ _); simpl; [|split; [discriminate | intros [H _]; discriminate]].
  rewrite orb_true_iff, andb_true_iff, !jstr_eqb_true. tauto.
Qed.

(** [findSupplierMatch] of src/services/reconciliation/reconciliationService.ts
    returns the first supplier record of the pool whose amount matches within
    the tolerance and whose date equals the bank record's value date, or its
    accounting date when [useAccountingDate] is set; [null] when there is
    none. *)
Theorem ServiceFile_findSupplierMatch_first (b : Bank.t) (pool : list Supplier.t)
    (o : RequiredOptions) :
  (forall x, ServiceFile.findSupplierMatch b pool o = Some x ->
     amountsMatch (Supplier.importe x) (Bank.importe b) (amountTolerance o) = true
     /\ (Supplier.fecha x = Bank.fValor b
         \/ useAccountingDate o = true /\ Supplier.fecha x = Bank.fContable b)
     /\ exists pre post, pool = pre ++ x :: post
        /\ forall y, In y pre -> ServiceFile.supplier_matches b o y = false)
  /\ (ServiceFile.findSupplierMatch b pool o = None <->
      forall s, In s pool -> ServiceFile.supplier_matches b o s = false).
Proof.
  unfold ServiceFile.findSupplierMatch. split.
  - intros x. induction pool as [|s r IH]; simpl; [discriminate|].
    destruct (ServiceFile.supplier_matches b o s) eqn:Es.
    + intro H. injection H as <-. apply ServiceFile_supplier_matches_iff in Es.
      destruct Es as [Ea Ed]. split; [exact Ea|]. split; [exact Ed|].
      exists [], r. split; [reflexivity|]. intros y [].
    + intro H. destruct (IH H) as [Ea [Ed [pre [post [Ep Hpre]]]]].
      split; [exact Ea|]. split; [exact Ed|].
      exists (s :: pre), post. split; [rewrite Ep; reflexivity|].
      intros y [<- | Hy]; [exact Es | exact (Hpre y Hy)].
  - split.
    + intros H s Hs. destruct (ServiceFile.supplier_matches b o s) eqn:E; [|reflexivity].
      assert (Hin : In s (filter (ServiceFile.supplier_matches b o) pool))
        by (apply filter_In; auto).
      destruct (filter _ pool); [contradiction | discriminate].
    + intro H. destruct (filter (ServiceFile.supplier_matches b o) pool) as [|m r] eqn:E;
        [reflexivity|].
      assert (Hm : In m (filter (ServiceFile.supplier_matches b o) pool))
        by (rewrite E; left; reflexivity).
      apply filter_In in Hm as [Hm1 Hm2]. rewrite (H m Hm1) in Hm2. discriminate.
Qed.

Lemma ServiceFile_findSupplierMatch_in (b : Bank.t) (pool : list Supplier.t)
    (o : RequiredOptions) (x : Supplier.t) :
  ServiceFile.findSupplierMatch b pool o = Some x ->
  In x pool /\ ServiceFile.supplier_matches b o x = true.
Proof.
  unfold ServiceFile.findSupplierMatch.
  destruct (filter (ServiceFile.supplier_matches b o) pool) as [|m r] eqn:E; [discriminate|].
  intro H. injection H as <-. apply filter_In. rewrite E. left. reflexivity.
Qed.

Definition ServiceFile_sound_record (o : RequiredOptions) (sups : list Supplier.t)
    (r : MatchedBankRecord) : Prop :=
  (status r = Unmatched /\ matchedDoc r = None /\ supplierName r = None)
  \/ (status r = Match /\ exists s, In s sups /\ matchedDoc r = Some (Supplier.documento s)
        /\ supplierName r = Some (Supplier.nombre s)
        /\ ServiceFile.supplier_matches (bank r) o s = true).

Lemma ServiceFile_map_sound (o : RequiredOptions) (sups : list Supplier.t) (bs : list Bank.t) :
  forall avail, (forall s, In s avail -> In s sups) ->
  let '(a', rs) := ServiceFile.map_bank_records o avail bs in
  map bank rs = bs /\ Forall (ServiceFile_sound_record o sups) rs
  /\ (count_matches rs + length a' = length avail)%nat.
Proof.
  induction bs as [|b bs IH]; intros avail Hsub; simpl; [repeat split; constructor|].
  unfold ServiceFile.match_bank_record.
  destruct (ServiceFile.findSupplierMatch b avail o) as [m|] eqn:Ef.
  - destruct (ServiceFile_findSupplierMatch_in _ _ _ _ Ef) as [Hin Hm].
    destruct (findIndex_id_found (Supplier.id m) avail m Hin eq_refl) as [k Hk].
    rewrite Hk.
    specialize (IH (remove_at k avail)
                  (fun s Hs => Hsub s (In_remove_at k avail s Hs))).
    destruct (ServiceFile.map_bank_records o (remove_at k avail) bs) as [a2 rs].
    destruct IH as [Hb [Hf Hc]].
    split; [simpl; rewrite Hb; reflexivity|]. split.
    + constructor; [|exact Hf]. right. split; [reflexivity|].
      exists m. simpl. auto.
    + unfold count_matches in *. simpl.
      rewrite remove_at_length in Hc by exact (findIndex_id_lt _ _ _ Hk).
      pose proof (findIndex_id_lt _ _ _ Hk). lia.
  - specialize (IH avail Hsub).
    destruct (ServiceFile.map_bank_records o avail bs) as [a2 rs].
    destruct IH as [Hb [Hf Hc]].
    split; [simpl; rewrite Hb; reflexivity|]. split.
    + constructor; [|exact Hf]. left. simpl. auto.
    + unfold count_matches in *. simpl. exact Hc.
Qed.

(** [performReconciliation] of src/services/reconciliation/reconciliationService.ts
    returns the bank records in their order, each either unmatched with no
    document and no name, or matched with the document and the name of a
    supplier record of the input whose amount matches within the tolerance and
    whose date equals the bank record's value date (or its accounting date when
    [useAccountingDate] is in effect); and it reports at most as many matches
    as there are supplier records. *)
Theorem ServiceFile_performReconciliation_sound (bankRecords : list Bank.t)
    (supplierRecords : list Supplier.t) (options : MatchingOptions) :
  let R := ServiceFile.performReconciliation bankRecords supplierRecords options in
  let o := mergeOptions options in
  map bank (records R) = bankRecords
  /\ Forall (fun r =>
       (status r = Unmatched /\ matchedDoc r = None /\ supplierName r = None)
       \/ (status r = Match /\ exists s, In s supplierRecords
             /\ matchedDoc r = Some (Supplier.documento s)
             /\ supplierName r = Some (Supplier.nombre s)
             /\ amountsMatch (Supplier.importe s) (Bank.importe (bank r)) (amountTolerance o) = true
             /\ (Supplier.fecha s = Bank.fValor (bank r)
                 \/ useAccountingDate o = true /\ Supplier.fecha s = Bank.fContable (bank r))))
     (records R)
  /\ (matches (stats R) <= Z.of_nat (length supplierRecords))%Z.
Proof.
  intros R o. unfold R, ServiceFile.performReconciliation. fold o.
  pose proof (ServiceFile_map_sound o supplierRecords bankRecords supplierRecords
                (fun s H => H)) as M.
  destruct (ServiceFile.map_bank_records o supplierRecords bankRecords) as [a' rs].
  destruct M as [Hb [Hf Hc]]. simpl.
  split; [exact Hb|]. split.
  - eapply Forall_impl; [|exact Hf]. intros r [Hu | [Hm [s [Hs [Hd [Hn Hsm]]]]]]; [left; exact Hu|].
    right. split; [exact Hm|]. exists s.
    apply ServiceFile_supplier_matches_iff in Hsm. tauto.
  - unfold count_matches in Hc. lia.
Qed.

(* ---------------------------------------------------------------------------
   utils/currency.ts: further properties
   ------------------------------------------------------------------------- *)

(** [amountsMatch] ignores signs: negating either amount does not change the
    result. *)
Theorem amountsMatch_sign_insensitive (a b tol : Q) :
  amountsMatch (- a) b tol = amountsMatch a b tol
  /\ amountsMatch a (- b) tol = amountsMatch a b tol.
Proof.
  unfold amountsMatch. split; apply Qltb_compat; rewrite Qabs_opp; reflexivity.
Qed.

(** [amountsMatch] is monotone in the tolerance: amounts that match within
    [tol] match within every larger tolerance. *)
Theorem amountsMatch_tolerance_mono (a b tol tol' : Q) :
  (tol <= tol')%Q -> amountsMatch a b tol = true -> amountsMatch a b tol' = true.
Proof.
  unfold amountsMatch. rewrite !Qltb_iff. intros Hle Hlt.
  apply (Qlt_le_trans _ tol); assumption.
Qed.

Lemma amountsMatch_tolerance_mono_witness :
  (1 # 100 <= 1 # 10)%Q /\ amountsMatch (-(14829 # 100)) (14829 # 100) (1 # 100) = true
  /\ amountsMatch (-(14829 # 100)) (14829 # 100) (1 # 10) = true.
Proof.
  assert (H1 : (1 # 100 <= 1 # 10)%Q) by (vm_compute; discriminate).
  assert (H2 : amountsMatch (-(14829 # 100)) (14829 # 100) (1 # 100) = true)
    by (vm_compute; reflexivity).
  split; [exact H1|]. split; [exact H2|].
  exact (amountsMatch_tolerance_mono _ _ _ _ H1 H2).
Defined.

Definition not_currency_or_space (c : Z) : bool := negb (is_currency_or_space c).

Lemma filter_rev {A} (f : A -> bool) (l : list A) : filter f (rev l) = rev (filter f l).
Proof.
  induction l as [|x r IH]; simpl; [reflexivity|].
  rewrite filter_app, IH. simpl. destruct (f x); simpl; [reflexivity|apply app_nil_r].
Qed.

Lemma filter_drop_spaces (s : jstr) :
  filter not_currency_or_space (drop_while is_js_space s) = filter not_currency_or_space s.
Proof.
  induction s as [|c r IH]; simpl; [reflexivity|].
  destruct (is_js_space c) eqn:E; [|reflexivity].
  rewrite IH. unfold not_currency_or_space, is_currency_or_space. rewrite E.
  rewrite !orb_true_r. reflexivity.
Qed.

Lemma filter_trim (s : jstr) :
  filter not_currency_or_space (trim s) = filter not_currency_or_space s.
Proof.
  unfold trim. rewrite filter_rev, filter_drop_spaces, filter_rev, rev_involutive.
  apply filter_drop_spaces.
Qed.

Lemma filter_idem {A} (f : A -> bool) (l : list A) : filter f (filter f l) = filter f l.
Proof.
  induction l as [|x r IH]; simpl; [reflexivity|].
  destruct (f x) eqn:E; simpl; [rewrite E, IH|]; auto.
Qed.

(** [parseCurrency] ignores the currency symbols €, $, £, ¥ and all white
    space wherever they occur: removing them does not change the value. *)
Theorem parseCurrency_ignores_symbols (s : jstr) :
  parseCurrency s = parseCurrency (filter not_currency_or_space s).
Proof.
  unfold parseCurrency.
  change (fun c => negb (is_currency_or_space c)) with not_currency_or_space.
  rewrite !filter_trim, filter_idem.
  destruct s as [|c r]; [reflexivity|].
  destruct (filter not_currency_or_space (c :: r)) as [|x l] eqn:E; [|reflexivity].
  reflexivity.
Qed.

Lemma lastIndexOf_from_app (c : Z) (a b : jstr) (i acc : Z) :
  lastIndexOf_from c (a ++ b) i acc
  = lastIndexOf_from c b (i + Z.of_nat (length a)) (lastIndexOf_from c a i acc).
Proof.
  revert i acc. induction a as [|x r IH]; intros i acc; simpl.
  - rewrite Z.add_0_r. reflexivity.
  - rewrite IH. f_equal. lia.
Qed.

Lemma lastIndexOf_from_absent (c : Z) (a : jstr) (i acc : Z) :
  forallb (fun x => negb (x =? c)) a = true -> lastIndexOf_from c a i acc = acc.
Proof.
  revert i acc. induction a as [|x r IH]; intros i acc; simpl; [reflexivity|].
  intro H. apply andb_true_iff in H as [Hx Hr]. apply negb_true_iff in Hx. rewrite Hx.
  apply IH. exact Hr.
Qed.

Lemma digits_not (c : Z) (a : jstr) :
  (c = 44 \/ c = 46) -> forallb is_digit a = true -> forallb (fun x => negb (x =? c)) a = true.
Proof.
  intro Hc. induction a as [|x r IH]; simpl; [reflexivity|].
  intro H. apply andb_true_iff in H as [Hx Hr]. rewrite (IH Hr), andb_true_r.
  unfold is_digit in Hx. apply andb_true_iff in Hx as [H1 H2].
  apply Z.leb_le in H1. apply Z.leb_le in H2.
  apply negb_true_iff, Z.eqb_neq. lia.
Qed.

Lemma lastIndexOf_mid (c : Z) (a b : jstr) :
  forallb (fun x => negb (x =? c)) b = true ->
  lastIndexOf c (a ++ c :: b) = Z.of_nat (length a).
Proof.
  intros Hb. unfold lastIndexOf. rewrite lastIndexOf_from_app. simpl.
  rewrite Z.eqb_refl. apply lastIndexOf_from_absent. exact Hb.
Qed.

Lemma filter_digits_id (p : Z -> bool) (a : jstr) :
  (forall x, is_digit x = true -> p x = true) -> forallb is_digit a = true -> filter p a = a.
Proof.
  intro Hp. induction a as [|x r IH]; simpl; [reflexivity|].
  intro H. apply andb_true_iff in H as [Hx Hr]. rewrite (Hp x Hx), (IH Hr). reflexivity.
Qed.

Lemma digit_neq (c x : Z) : (c = 44 \/ c = 46) -> is_digit x = true -> negb (x =? c) = true.
Proof.
  intros Hc Hx. unfold is_digit in Hx. apply andb_true_iff in Hx as [H1 H2].
  apply Z.leb_le in H1. apply Z.leb_le in H2. apply negb_true_iff, Z.eqb_neq. lia.
Qed.

Lemma replace_first_digits (a b : jstr) :
  forallb is_digit a = true -> replace_first 44 46 (a ++ 44 :: b) = a ++ 46 :: b.
Proof.
  induction a as [|x r IH]; simpl; [reflexivity|].
  intro H. apply andb_true_iff in H as [Hx Hr].
  pose proof (digit_neq 44 x (or_introl eq_refl) Hx) as Hn. apply negb_true_iff in Hn.
  rewrite Hn, (IH Hr). reflexivity.
Qed.

Lemma is_digit_keep (x : Z) : is_digit x = true -> keep_numeric x = true.
Proof. intro H. unfold keep_numeric. rewrite H. reflexivity. Qed.

Lemma is_digit_cases (x : Z) : is_digit x = true ->
  x = 48 \/ x = 49 \/ x = 50 \/ x = 51 \/ x = 52 \/ x = 53 \/ x = 54 \/ x = 55 \/ x = 56 \/ x = 57.
Proof.
  unfold is_digit. intro H. apply andb_true_iff in H as [H1 H2].
  apply Z.leb_le in H1. apply Z.leb_le in H2. lia.
Qed.

Lemma is_digit_not_cs (x : Z) : is_digit x = true -> not_currency_or_space x = true.
Proof.
  intro H. apply is_digit_cases in H.
  repeat destruct H as [-> | H]; [..|subst x]; reflexivity.
Qed.

Lemma parseCurrency_clean (s : jstr) :
  s <> [] -> trim s = s -> filter not_currency_or_space s = s ->
  parseCurrency s =
    let hasComma := includes_char 44 s in
    let hasDot := includes_char 46 s in
    let cleanStr2 :=
      if hasComma && hasDot then
        if lastIndexOf 46 s >? lastIndexOf 44 s then remove_char 44 s
        else replace_first 44 46 (remove_char 46 s)
      else if hasComma && negb hasDot then replace_first 44 46 s
      else s in
    match parseFloat (filter keep_numeric cleanStr2) with
    | Some parsed => parsed
    | None => 0%Q
    end.
Proof.
  intros Hne Ht Hf. unfold parseCurrency.
  change (fun c => negb (is_currency_or_space c)) with not_currency_or_space.
  destruct s as [|c r]; [congruence|]. rewrite Ht, Hf. reflexivity.
Qed.

Lemma drop_spaces_digits_app (a : jstr) (c : Z) (b : jstr) :
  forallb is_digit a = true -> is_js_space c = false ->
  drop_while is_js_space (a ++ c :: b) = a ++ c :: b.
Proof.
  destruct a as [|x r]; simpl; intros Ha Hc; [rewrite Hc; reflexivity|].
  apply andb_true_iff in Ha as [Hx _]. rewrite (digit_not_space x Hx). reflexivity.
Qed.

Lemma forallb_rev {A} (p : A -> bool) (l : list A) : forallb p (rev l) = forallb p l.
Proof.
  induction l as [|x r IH]; simpl; [reflexivity|].
  rewrite forallb_app, IH. simpl. rewrite andb_true_r. apply andb_comm.
Qed.

(** A string [a ++ c :: b ++ d :: e] of digit runs and two separators [c],
    [d] (',' or '.') is its own [trim] and has no currency symbol or space. *)
Lemma digits_two_seps_clean (a b e : jstr) (c d : Z) :
  forallb is_digit a = true -> forallb is_digit b = true -> forallb is_digit e = true ->
  (c = 44 \/ c = 46) -> (d = 44 \/ d = 46) ->
  trim (a ++ c :: b ++ d :: e) = a ++ c :: b ++ d :: e
  /\ filter not_currency_or_space (a ++ c :: b ++ d :: e) = a ++ c :: b ++ d :: e.
Proof.
  intros Ha Hb He Hc Hd.
  assert (Hsc : is_js_space c = false) by (destruct Hc as [-> | ->]; reflexivity).
  assert (Hsd : is_js_space d = false) by (destruct Hd as [-> | ->]; reflexivity).
  assert (Hnd : forall x, is_digit x = true -> not_currency_or_space x = true)
    by exact is_digit_not_cs.
  split.
  - apply trim_id; [apply drop_spaces_digits_app; assumption|].
    replace (rev (a ++ c :: b ++ d :: e)) with (rev e ++ d :: (rev b ++ c :: rev a))
      by (rewrite rev_app_distr; simpl; rewrite rev_app_distr; simpl;
          rewrite <- !app_assoc; reflexivity).
    apply drop_spaces_digits_app; [rewrite forallb_rev; exact He | exact Hsd].
  - rewrite filter_app. simpl. rewrite filter_app. simpl.
    rewrite !(filter_digits_id not_currency_or_space) by assumption.
    replace (not_currency_or_space c) with true by (destruct Hc as [-> | ->]; reflexivity).
    replace (not_currency_or_space d) with true by (destruct Hd as [-> | ->]; reflexivity).
    reflexivity.
Qed.

Lemma includes_char_app (c : Z) (a b : jstr) :
  includes_char c (a ++ b) = includes_char c a || includes_char c b.
Proof. unfold includes_char. apply existsb_app. Qed.

Lemma includes_char_digits (c : Z) (a : jstr) :
  (c = 44 \/ c = 46) -> forallb is_digit a = true -> includes_char c a = false.
Proof.
  intros Hc Ha. unfold includes_char. apply not_true_iff_false. intro E.
  apply existsb_exists in E as [x [Hx Ex]]. apply Z.eqb_eq in Ex. subst x.
  rewrite forallb_forall in Ha. specialize (Ha c Hx).
  destruct Hc as [-> | ->]; discriminate.
Qed.

Lemma forallb_no_sep (c d : Z) (a b : jstr) :
  (c = 44 \/ c = 46) -> c <> d -> forallb is_digit a = true -> forallb is_digit b = true ->
  forallb (fun x => negb (x =? c)) (a ++ d :: b) = true.
Proof.
  intros Hc Hcd Ha Hb. rewrite forallb_app. simpl.
  rewrite (digits_not c a Hc Ha), (digits_not c b Hc Hb).
  replace (d =? c) with false by (symmetry; apply Z.eqb_neq; congruence). reflexivity.
Qed.

Lemma span_digits_all (a : jstr) : forallb is_digit a = true -> span is_digit a = (a, []).
Proof.
  induction a as [|x r IH]; simpl; [reflexivity|].
  intro H. apply andb_true_iff in H as [Hx Hr]. rewrite Hx, (IH Hr). reflexivity.
Qed.

Lemma includes_char_in (c : Z) (s : jstr) : In c s -> includes_char c s = true.
Proof. intro H. unfold includes_char. apply existsb_exists. exists c. split; [exact H|apply Z.eqb_refl]. Qed.

Lemma digits_one_sep_clean (a e : jstr) (d : Z) :
  forallb is_digit a = true -> forallb is_digit e = true -> (d = 44 \/ d = 46) ->
  trim (a ++ d :: e) = a ++ d :: e
  /\ filter not_currency_or_space (a ++ d :: e) = a ++ d :: e.
Proof.
  intros Ha He Hd.
  assert (Hsd : is_js_space d = false) by (destruct Hd as [-> | ->]; reflexivity).
  split.
  - apply trim_id; [apply drop_spaces_digits_app; assumption|].
    rewrite rev_app_distr. simpl. rewrite <- app_assoc. simpl.
    apply drop_spaces_digits_app; [rewrite forallb_rev; exact He | exact Hsd].
  - rewrite filter_app. simpl.
    rewrite !(filter_digits_id not_currency_or_space) by (exact is_digit_not_cs || assumption).
    replace (not_currency_or_space d) with true by (destruct Hd as [-> | ->]; reflexivity).
    reflexivity.
Qed.

Definition parse_plain (ig f : jstr) : Q :=
  match parseFloat (filter keep_numeric (ig ++ 46 :: f)) with
  | Some parsed => parsed
  | None => 0%Q
  end.

Lemma parseCurrency_plain (ig f : jstr) :
  forallb is_digit ig = true -> forallb is_digit f = true ->
  parseCurrency (ig ++ 46 :: f) = parse_plain ig f.
Proof.
  intros Hig Hf.
  destruct (digits_one_sep_clean ig f 46 Hig Hf (or_intror eq_refl)) as [Ht Hc].
  rewrite parseCurrency_clean
    by (assumption || (intro E; apply app_eq_nil in E as [_ E]; discriminate)).
  cbv zeta.
  rewrite includes_char_app, (includes_char_digits 44 ig (or_introl eq_refl) Hig).
  simpl (includes_char 44 (46 :: f)).
  rewrite (includes_char_digits 44 f (or_introl eq_refl) Hf). simpl.
  reflexivity.
Qed.

Lemma parseCurrency_comma_only (ig f : jstr) :
  forallb is_digit ig = true -> forallb is_digit f = true ->
  parseCurrency (ig ++ 44 :: f) = parse_plain ig f.
Proof.
  intros Hig Hf.
  destruct (digits_one_sep_clean ig f 44 Hig Hf (or_introl eq_refl)) as [Ht Hc].
  rewrite parseCurrency_clean
    by (assumption || (intro E; apply app_eq_nil in E as [_ E]; discriminate)).
  cbv zeta.
  rewrite (includes_char_in 44) by (rewrite !in_app_iff; simpl; rewrite ?in_app_iff; simpl; auto 10).
  rewrite includes_char_app, (includes_char_digits 46 ig (or_intror eq_refl) Hig).
  simpl (includes_char 46 (44 :: f)).
  rewrite (includes_char_digits 46 f (or_intror eq_refl) Hf). simpl.
  rewrite replace_first_digits by exact Hig. reflexivity.
Qed.

Lemma remove_char_two (c d : Z) (a b e : jstr) :
  (c = 44 \/ c = 46) -> (d = 44 \/ d = 46) -> c <> d ->
  forallb is_digit a = true -> forallb is_digit b = true -> forallb is_digit e = true ->
  remove_char c (a ++ c :: b ++ d :: e) = (a ++ b) ++ d :: e.
Proof.
  intros Hc Hd Hcd Ha Hb He. unfold remove_char.
  assert (Hp : forall x, is_digit x = true -> negb (x =? c) = true)
    by (intros x Hx; exact (digit_neq c x Hc Hx)).
  rewrite filter_app. simpl. rewrite Z.eqb_refl. simpl.
  rewrite filter_app. simpl.
  replace (d =? c) with false by (symmetry; apply Z.eqb_neq; congruence). simpl.
  rewrite !(filter_digits_id _ _ Hp) by assumption.
  rewrite <- app_assoc. reflexivity.
Qed.

Lemma parseCurrency_european (i g f : jstr) :
  forallb is_digit i = true -> forallb is_digit g = true -> forallb is_digit f = true ->
  parseCurrency (i ++ 46 :: g ++ 44 :: f) = parse_plain (i ++ g) f.
Proof.
  intros Hi Hg Hf.
  destruct (digits_two_seps_clean i g f 46 44 Hi Hg Hf (or_intror eq_refl) (or_introl eq_refl))
    as [Ht Hc].
  rewrite parseCurrency_clean
    by (assumption || (intro E; apply app_eq_nil in E as [_ E]; discriminate)).
  cbv zeta.
  rewrite (includes_char_in 44) by (rewrite !in_app_iff; simpl; rewrite ?in_app_iff; simpl; auto 10).
  rewrite (includes_char_in 46) by (rewrite !in_app_iff; simpl; rewrite ?in_app_iff; simpl; auto 10).
  rewrite (lastIndexOf_mid 46 i (g ++ 44 :: f))
    by (apply forallb_no_sep; [right; reflexivity | discriminate | assumption | assumption]).
  replace (lastIndexOf 44 (i ++ 46 :: g ++ 44 :: f)) with (Z.of_nat (length (i ++ 46 :: g)))
    by (replace (i ++ 46 :: g ++ 44 :: f) with ((i ++ 46 :: g) ++ 44 :: f)
          by (rewrite <- app_assoc; reflexivity);
        symmetry; apply lastIndexOf_mid, digits_not; [left; reflexivity | assumption]).
  rewrite length_app. simpl length.
  replace (Z.of_nat (length i) >? Z.of_nat (length i + S (length g))) with false
    by (rewrite Z.gtb_ltb; symmetry; apply Z.ltb_ge; lia).
  simpl.
  rewrite (remove_char_two 46 44 i g f) by (first [right; reflexivity | left; reflexivity
                                                | discriminate | assumption]).
  rewrite replace_first_digits by (rewrite forallb_app, Hi, Hg; reflexivity).
  reflexivity.
Qed.

Lemma parseCurrency_us (i g f : jstr) :
  forallb is_digit i = true -> forallb is_digit g = true -> forallb is_digit f = true ->
  parseCurrency (i ++ 44 :: g ++ 46 :: f) = parse_plain (i ++ g) f.
Proof.
  intros Hi Hg Hf.
  destruct (digits_two_seps_clean i g f 44 46 Hi Hg Hf (or_introl eq_refl) (or_intror eq_refl))
    as [Ht Hc].
  rewrite parseCurrency_clean
    by (assumption || (intro E; apply app_eq_nil in E as [_ E]; discriminate)).
  cbv zeta.
  rewrite (includes_char_in 46) by (rewrite !in_app_iff; simpl; rewrite ?in_app_iff; simpl; auto 10).
  rewrite (includes_char_in 44) by (rewrite !in_app_iff; simpl; rewrite ?in_app_iff; simpl; auto 10).
  rewrite (lastIndexOf_mid 44 i (g ++ 46 :: f))
    by (apply forallb_no_sep; [left; reflexivity | discriminate | assumption | assumption]).
  replace (lastIndexOf 46 (i ++ 44 :: g ++ 46 :: f)) with (Z.of_nat (length (i ++ 44 :: g)))
    by (replace (i ++ 44 :: g ++ 46 :: f) with ((i ++ 44 :: g) ++ 46 :: f)
          by (rewrite <- app_assoc; reflexivity);
        symmetry; apply lastIndexOf_mid, digits_not; [right; reflexivity | assumption]).
  rewrite length_app. simpl length.
  replace (Z.of_nat (length i + S (length g)) >? Z.of_nat (length i)) with true
    by (rewrite Z.gtb_ltb; symmetry; apply Z.ltb_lt; lia).
  simpl.
  rewrite (remove_char_two 44 46 i g f) by (first [right; reflexivity | left; reflexivity
                                                | discriminate | assumption]).
  reflexivity.
Qed.

Lemma parseFloat_digits_point (ig f : jstr) :
  forallb is_digit ig = true -> forallb is_digit f = true ->
  parseFloat (ig ++ 46 :: f) =
  if (length ig =? 0)%nat && (length f =? 0)%nat then None
  else Some (inject_Z (val_digits ig)
             + inject_Z (val_digits f) / inject_Z (10 ^ Z.of_nat (length f)))%Q.
Proof.
  intros Hig Hf. unfold parseFloat. cbv zeta.
  rewrite drop_spaces_digits_app by (exact Hig || reflexivity).
  remember (ig ++ 46 :: f) as s eqn:Es.
  assert (Hx : exists x r', s = x :: r' /\ (x = 46 \/ is_digit x = true)).
  { subst s. destruct ig as [|x r]; simpl.
    - exists 46, f. auto.
    - exists x, (r ++ 46 :: f). simpl in Hig. apply andb_true_iff in Hig as [Hx _].
      auto. }
  destruct Hx as (x & r' & -> & Hx).
  assert (Hx' : x = 46 \/ x = 48 \/ x = 49 \/ x = 50 \/ x = 51 \/ x = 52 \/ x = 53
                \/ x = 54 \/ x = 55 \/ x = 56 \/ x = 57)
    by (destruct Hx as [Hx | Hx]; [left | right; apply is_digit_cases]; assumption).
  clear Hx.
  repeat destruct Hx' as [-> | Hx']; [..| subst x]; cbv iota beta; rewrite Es;
    rewrite span_app_stop by (exact Hig || reflexivity);
    cbv iota beta; rewrite span_digits_all by exact Hf; reflexivity.
Qed.

Lemma parse_plain_value (ig f : jstr) :
  forallb is_digit ig = true -> forallb is_digit f = true ->
  (parse_plain ig f == inject_Z (val_digits ig)
                       + inject_Z (val_digits f) / inject_Z (10 ^ Z.of_nat (length f)))%Q.
Proof.
  intros Hig Hf. unfold parse_plain.
  rewrite filter_app. simpl.
  rewrite !(filter_digits_id keep_numeric) by (exact is_digit_keep || assumption).
  rewrite parseFloat_digits_point by assumption.
  destruct ((length ig =? 0)%nat && (length f =? 0)%nat) eqn:E; [|reflexivity].
  apply andb_true_iff in E as [E1 E2]. apply Nat.eqb_eq in E1, E2.
  apply length_zero_iff_nil in E1, E2. subst. reflexivity.
Qed.

(** [parseCurrency] reads the same number from its European and US
    spellings: for digit runs [i], [g], [f], "i.g,f" (European thousands),
    "i,g.f" (US thousands), "ig,f" (decimal comma) and "ig.f" all give the
    exact decimal value of "ig.f". *)
Theorem parseCurrency_notations_agree (i g f : jstr) :
  forallb is_digit i = true -> forallb is_digit g = true -> forallb is_digit f = true ->
  parseCurrency (i ++ 46 :: g ++ 44 :: f) = parseCurrency (i ++ g ++ 46 :: f)
  /\ parseCurrency (i ++ 44 :: g ++ 46 :: f) = parseCurrency (i ++ g ++ 46 :: f)
  /\ parseCurrency (i ++ g ++ 44 :: f) = parseCurrency (i ++ g ++ 46 :: f)
  /\ Qeq (parseCurrency (i ++ g ++ 46 :: f))
          (inject_Z (val_digits (i ++ g))
           + inject_Z (val_digits f) / inject_Z (10 ^ Z.of_nat (length f)))%Q.
Proof.
  intros Hi Hg Hf.
  assert (Hig : forallb is_digit (i ++ g) = true) by (rewrite forallb_app, Hi, Hg; reflexivity).
  rewrite !app_assoc.
  rewrite (parseCurrency_plain (i ++ g) f Hig Hf).
  rewrite <- !app_assoc.
  rewrite (parseCurrency_european i g f Hi Hg Hf), (parseCurrency_us i g f Hi Hg Hf).
  rewrite app_assoc, (parseCurrency_comma_only (i ++ g) f Hig Hf).
  split; [reflexivity|]. split; [reflexivity|]. split; [reflexivity|].
  apply parse_plain_value; assumption.
Qed.

Lemma parseCurrency_notations_agree_witness :
  parseCurrency (js "1.234,56") = parseCurrency (js "1234.56")
  /\ parseCurrency (js "1,234.56") = parseCurrency (js "1234.56")
  /\ parseCurrency (js "1234,56") = parseCurrency (js "1234.56")
  /\ Qeq (parseCurrency (js "1234.56")) (inject_Z 1234 + inject_Z 56 / inject_Z (10 ^ 2))%Q.
Proof.
  exact (parseCurrency_notations_agree (js "1") (js "234") (js "56")
           eq_refl eq_refl eq_refl).
Defined.

(* ---------------------------------------------------------------------------
   Statement extractors: invariants of the kept records
   ------------------------------------------------------------------------- *)

Lemma drop_while_idem (p : Z -> bool) (s : jstr) :
  drop_while p (drop_while p s) = drop_while p s.
Proof.
  induction s as [|c r IH]; simpl; [reflexivity|].
  destruct (p c) eqn:E; [exact IH|]. simpl. rewrite E. reflexivity.
Qed.

Lemma drop_while_suffix (p : Z -> bool) (s : jstr) :
  exists pre, s = pre ++ drop_while p s.
Proof.
  induction s as [|c r IH]; simpl; [exists []; reflexivity|].
  destruct (p c); [destruct IH as [pre E]; exists (c :: pre); simpl; congruence|].
  exists []; reflexivity.
Qed.

Lemma drop_while_head (p : Z -> bool) (s : jstr) (c : Z) (r : jstr) :
  drop_while p s = c :: r -> p c = false.
Proof.
  induction s as [|x s IH]; simpl; [discriminate|].
  destruct (p x) eqn:E; [exact IH|]. congruence.
Qed.

Lemma trim_idem (s : jstr) : trim (trim s) = trim s.
Proof.
  set (u := drop_while is_js_space s).
  set (w := drop_while is_js_space (rev u)).
  assert (Ht : trim s = rev w) by reflexivity. rewrite Ht.
  assert (Hu : drop_while is_js_space u = u) by apply drop_while_idem.
  destruct (drop_while_suffix is_js_space (rev u)) as [pre Hpre]. fold w in Hpre.
  assert (Hsplit : u = rev w ++ rev pre)
    by (rewrite <- rev_app_distr, <- Hpre, rev_involutive; reflexivity).
  assert (Hw : drop_while is_js_space (rev w) = rev w).
  { destruct (rev w) as [|c r] eqn:Ew; [reflexivity|]. simpl.
    destruct (is_js_space c) eqn:Ec; [|reflexivity].
    rewrite Hsplit in Hu. simpl in Hu. rewrite Ec in Hu.
    destruct (drop_while_suffix is_js_space (r ++ rev pre)) as [pre' Hp'].
    assert (Hl := f_equal (@length Z) Hp'). rewrite Hu in Hl.
    simpl in Hl. rewrite !length_app in Hl. simpl in Hl. rewrite !length_app in Hl. lia. }
  unfold trim. rewrite Hw, rev_involutive. unfold w. rewrite drop_while_idem. reflexivity.
Qed.

Lemma existsb_jstr_false (k : jstr) (seen : list jstr) :
  existsb (jstr_eqb k) seen = false -> ~ In k seen.
Proof.
  intros E Hin. assert (existsb (jstr_eqb k) seen = true); [|congruence].
  apply existsb_exists. exists k. split; [exact Hin|]. apply jstr_eqb_true. reflexivity.
Qed.

Lemma NoDup_snoc {A} (l : list A) (x : A) : NoDup l -> ~ In x l -> NoDup (l ++ [x]).
Proof.
  induction l as [|y l IH]; simpl; intros Hl Hx.
  - constructor; [intros []|constructor].
  - inversion Hl as [|? ? Hy Hl']; subst. constructor.
    + rewrite in_app_iff. simpl. intros [H | [H | []]]; [exact (Hy H)|].
      apply Hx. left. symmetry. exact H.
    + apply IH; [exact Hl'|]. intro H. apply Hx. right. exact H.
Qed.

(** What the BBVA extractor establishes of each record it keeps. *)
Definition bbva_record_ok (fileName : jstr) (r : Bank.t) : Prop :=
  Bank.sourceFile r = fileName /\ Bank.saldo r = None
  /\ Bank.importe r = parseCurrency (Bank.importeRaw r)
  /\ (1 < length (Bank.concepto r))%nat /\ trim (Bank.concepto r) = Bank.concepto r.

Definition bbva_inv (fileName : jstr) (st : Bbva.state) : Prop :=
  NoDup (map bbva_key (snd st))
  /\ Forall (fun r => In (bbva_key r) (fst st) /\ bbva_record_ok fileName r) (snd st).

Lemma bbva_step_inv (fileName : jstr) (fresh : nat -> jstr) (st : Bbva.state)
    (m : list jstr) :
  bbva_inv fileName st -> bbva_inv fileName (Bbva.step fileName fresh st m).
Proof.
  destruct st as [seen recs]. intros [Hnd Hf]. cbn [fst snd] in Hnd, Hf.
  unfold Bbva.step. cbv zeta.
  destruct (5 <=? length m)%nat; cbv iota;
  match goal with |- context [existsb (jstr_eqb ?k) seen] => set (key := k) end;
  (destruct (existsb (jstr_eqb key) seen) eqn:E; [split; assumption|]);
  apply existsb_jstr_false in E;
  (assert (Hf' : Forall (fun r => In (bbva_key r) (key :: seen) /\ bbva_record_ok fileName r) recs)
     by (eapply Forall_impl; [|exact Hf]; intros r [Hk Hok]; split; [right; exact Hk | exact Hok]));
  (destruct (_ && _)%bool eqn:C; [|split; assumption]);
  apply andb_true_iff in C as [_ C]; apply Nat.ltb_lt in C;
  split; cbn [fst snd].
  all: try (rewrite map_app; apply NoDup_snoc; [exact Hnd|];
            intro Hin; apply in_map_iff in Hin as [r [Hr Hin]];
            rewrite Forall_forall in Hf; apply Hf in Hin as [Hk _]; rewrite Hr in Hk;
            exact (E Hk)).
  all: apply Forall_app; split; [exact Hf'|].
  all: apply Forall_cons; [|apply Forall_nil].
  all: split; [left; reflexivity|].
  all: unfold bbva_record_ok; cbn [Bank.sourceFile Bank.saldo Bank.importe Bank.importeRaw Bank.concepto].
  all: rewrite trim_idem; repeat split; assumption.
Qed.

Lemma bbva_fold_inv (fileName : jstr) (fresh : nat -> jstr) (ms : list (list jstr)) :
  forall st, bbva_inv fileName st ->
  bbva_inv fileName (fold_left (Bbva.step fileName fresh) ms st).
Proof.
  induction ms as [|m ms IH]; intros st H; [exact H|]. simpl. apply IH, bbva_step_inv, H.
Qed.

(** The BBVA extractor (unnamed/part_008) never keeps two records with the
    same key (posting date, value date, raw amount), across all its patterns;
    every record it keeps comes from the file, has no balance, its amount is
    [parseCurrency] of the raw amount, and its description is trimmed and at
    least two characters long. *)
Theorem Bbva_extract_invariants (fileName : jstr) (fresh : nat -> jstr)
    (matchesPerPattern : list (list (list jstr))) :
  let recs := Bbva.extractMovementsFromText fileName fresh matchesPerPattern in
  NoDup (map bbva_key recs) /\ Forall (bbva_record_ok fileName) recs.
Proof.
  cbv zeta. unfold Bbva.extractMovementsFromText.
  assert (H : forall st, bbva_inv fileName st ->
    bbva_inv fileName (fold_left (fun st matches => fold_left (Bbva.step fileName fresh) matches st)
                         matchesPerPattern st)).
  { induction matchesPerPattern as [|ms r IH]; intros st Hs; [exact Hs|].
    simpl. apply IH, bbva_fold_inv, Hs. }
  destruct (H ([], [])) as [Hnd Hf]; [split; [constructor | constructor]|].
  split; [exact Hnd|]. eapply Forall_impl; [|exact Hf]. intros r [_ Hr]. exact Hr.
Qed.

Lemma sab_normalizeDate_no_dash (d : jstr) : ~ In 45 (Sabadell.normalizeDate d).
Proof.
  unfold Sabadell.normalizeDate. intro H. apply in_map_iff in H as [x [Hx _]].
  destruct (x =? 45) eqn:E; [discriminate|]. apply Z.eqb_neq in E. congruence.
Qed.

(** What the Sabadell extractor establishes of each record it keeps. *)
Definition sab_record_ok (fileName : jstr) (r : Bank.t) : Prop :=
  Bank.sourceFile r = fileName /\ Bank.bankType r = js "sabadell"
  /\ (2 < length (Bank.concepto r))%nat /\ trim (Bank.concepto r) = Bank.concepto r
  /\ Sabadell.isHeaderText (Bank.concepto r) = false
  /\ ~ In 45 (Bank.fContable r) /\ ~ In 45 (Bank.fValor r).

Definition sab_inv (key : Bank.t -> jstr) (P : Bank.t -> Prop) (st : Sabadell.state) : Prop :=
  NoDup (map key (snd st)) /\ Forall (fun r => In (key r) (fst st) /\ P r) (snd st).

Lemma sab_inv_snoc (key : Bank.t -> jstr) (P : Bank.t -> Prop) (seen : list jstr)
    (recs : list Bank.t) (r : Bank.t) :
  sab_inv key P (seen, recs) -> ~ In (key r) seen -> P r ->
  sab_inv key P (key r :: seen, recs ++ [r]).
Proof.
  intros [Hnd Hf] E Hr. unfold sab_inv in *. cbn [fst snd] in *. split.
  - rewrite map_app. apply NoDup_snoc; [exact Hnd|].
    intro Hin. apply in_map_iff in Hin as [r' [Hr' Hin]].
    rewrite Forall_forall in Hf. apply Hf in Hin as [Hk _]. rewrite Hr' in Hk. exact (E Hk).
  - apply Forall_app. split.
    + eapply Forall_impl; [|exact Hf]. intros r' [Hk Hok]. split; [right; exact Hk | exact Hok].
    + apply Forall_cons; [|apply Forall_nil]. split; [left; reflexivity | exact Hr].
Qed.

Lemma sab_step1_inv (fileName : jstr) (fresh : nat -> jstr) (st : Sabadell.state)
    (m : Sabadell.Match1) :
  sab_inv sab_key1 (sab_record_ok fileName) st ->
  sab_inv sab_key1 (sab_record_ok fileName) (Sabadell.step1 fileName fresh st m).
Proof.
  destruct st as [seen recs]. intros H. unfold Sabadell.step1. cbv zeta.
  match goal with |- context [Sabadell.seen_has seen ?k] => set (key := k) end.
  destruct (Sabadell.seen_has seen key) eqn:E; cbn [negb andb]; [exact H|].
  unfold Sabadell.seen_has in E. apply existsb_jstr_false in E.
  destruct (_ && _ && _)%bool eqn:C; [|exact H].
  apply andb_true_iff in C as [C Hh]. apply andb_true_iff in C as [_ Hl].
  apply Nat.ltb_lt in Hl. apply negb_true_iff in Hh.
  apply (sab_inv_snoc sab_key1 (sab_record_ok fileName) seen recs); [exact H | exact E |].
  unfold sab_record_ok. cbn [Bank.sourceFile Bank.bankType Bank.concepto Bank.fContable Bank.fValor].
  rewrite trim_idem. repeat split; try assumption; apply sab_normalizeDate_no_dash.
Qed.

Lemma sab_step2_inv (fileName : jstr) (fresh : nat -> jstr) (st : Sabadell.state)
    (m : Sabadell.Match2) :
  sab_inv sab_key2 (fun r => sab_record_ok fileName r /\ Bank.fContable r = Bank.fValor r) st ->
  sab_inv sab_key2 (fun r => sab_record_ok fileName r /\ Bank.fContable r = Bank.fValor r)
    (Sabadell.step2 fileName fresh st m).
Proof.
  destruct st as [seen recs]. intros H. unfold Sabadell.step2. cbv zeta.
  match goal with |- context [Sabadell.seen_has seen ?k] => set (key := k) end.
  destruct (Sabadell.seen_has seen key) eqn:E; cbn [negb andb]; [exact H|].
  unfold Sabadell.seen_has in E. apply existsb_jstr_false in E.
  destruct (_ && _ && _)%bool eqn:C; [|exact H].
  apply andb_true_iff in C as [C Hh]. apply andb_true_iff in C as [_ Hl].
  apply Nat.ltb_lt in Hl. apply negb_true_iff in Hh.
  apply (sab_inv_snoc sab_key2 _ seen recs); [exact H | exact E |].
  unfold sab_record_ok. cbn [Bank.sourceFile Bank.bankType Bank.concepto Bank.fContable Bank.fValor].
  rewrite trim_idem. repeat split; try assumption; apply sab_normalizeDate_no_dash.
Qed.

(** The Sabadell extractor (services/pdf/sabadellParser.ts) never keeps two
    records with the same posting date, value date, first 30 characters of the
    description and raw amount; every record it keeps is tagged [sabadell]
    and with the file name, has a trimmed description of more than two
    characters that is not header text, and dates with no '-' left. *)
Theorem Sabadell_extract_invariants (fileName : jstr) (fresh : nat -> jstr)
    (matches1 : list Sabadell.Match1) (matches2 : list Sabadell.Match2) :
  let recs := Sabadell.extractMovementsFromText fileName fresh matches1 matches2 in
  NoDup (map sab_tuple recs) /\ Forall (sab_record_ok fileName) recs.
Proof.
  cbv zeta. unfold Sabadell.extractMovementsFromText.
  assert (H1 : forall st, sab_inv sab_key1 (sab_record_ok fileName) st ->
    sab_inv sab_key1 (sab_record_ok fileName) (fold_left (Sabadell.step1 fileName fresh) matches1 st)).
  { induction matches1 as [|m ms IH]; intros st Hs; [exact Hs|]. simpl. apply IH, sab_step1_inv, Hs. }
  assert (H2 : forall st,
    sab_inv sab_key2 (fun r => sab_record_ok fileName r /\ Bank.fContable r = Bank.fValor r) st ->
    sab_inv sab_key2 (fun r => sab_record_ok fileName r /\ Bank.fContable r = Bank.fValor r)
      (fold_left (Sabadell.step2 fileName fresh) matches2 st)).
  { induction matches2 as [|m ms IH]; intros st Hs; [exact Hs|]. simpl. apply IH, sab_step2_inv, Hs. }
  specialize (H1 ([], [])).
  destruct (fold_left (Sabadell.step1 fileName fresh) matches1 ([], [])) as [seen1 recs1].
  destruct H1 as [Hnd1 Hf1]; [split; constructor|]. cbn [fst snd] in *.
  destruct recs1 as [|r0 rs].
  - destruct (H2 (seen1, [])) as [Hnd Hf]; [split; constructor|].
    destruct (fold_left (Sabadell.step2 fileName fresh) matches2 (seen1, [])) as [s2 recs2].
    cbn [fst snd] in *. split.
    + apply (NoDup_map_inv (fun t : jstr * jstr * jstr * jstr =>
               let '(a, _, c, d) := t in a ++ key_sep ++ c ++ key_sep ++ d)).
      rewrite map_map. exact Hnd.
    + eapply Forall_impl; [|exact Hf]. intros r [_ [Hr _]]. exact Hr.
  - split.
    + apply (NoDup_map_inv (fun t : jstr * jstr * jstr * jstr =>
               let '(a, b, c, d) := t in a ++ key_sep ++ b ++ key_sep ++ c ++ key_sep ++ d)).
      rewrite map_map. exact Hnd1.
    + eapply Forall_impl; [|exact Hf1]. intros r [_ Hr]. exact Hr.
Qed.

(* ---------------------------------------------------------------------------
   services/excel/supplierExcelParser.ts: the workbook level
   ------------------------------------------------------------------------- *)

Lemma nonempty_length_neq (l : jstr) : l <> [] -> (length l =? 0)%nat = false.
Proof. destruct l; [contradiction|reflexivity]. Qed.

Lemma cell_bound (row : list cell) (c : Z) :
  trim (cell_str (row_get row c)) <> [] -> 0 <= c < Z.of_nat (length row).
Proof.
  unfold row_get. destruct (c <? 0) eqn:E; [intro H; exfalso; apply H; reflexivity|].
  apply Z.ltb_ge in E. intro H.
  destruct (Nat.lt_ge_cases (Z.to_nat c) (length row)) as [Hl | Hl]; [lia|].
  rewrite nth_overflow in H by exact Hl. exfalso. apply H. reflexivity.
Qed.

Lemma col_value_bound (row : list cell) (c : Z) :
  col_value row c <> [] -> 0 <= c < Z.of_nat (length row).
Proof.
  unfold col_value. destruct (0 <=? c) eqn:E; [apply cell_bound|].
  intro H. exfalso. apply H. reflexivity.
Qed.

Lemma parse_row_some (cols : Columns) (id sourceFile : jstr) (row : option (list cell))
    (r : Supplier.t) :
  parse_row cols id sourceFile row = Some r ->
  exists row', row = Some row'
  /\ Z.max (colClient cols) (colImport cols) + 1 <= Z.of_nat (length row')
  /\ trim (cell_str (row_get row' (colClient cols))) <> []
  /\ col_value row' (colNumFra cols) <> []
  /\ (jstr_eqb (trim (cell_str (row_get row' (colClient cols)))) (js "T O T A L S")
      || includes (js "TOTAL") (trim (cell_str (row_get row' (colClient cols))))) = false.
Proof.
  unfold parse_row. destruct row as [row|]; [|discriminate].
  destruct (Z.of_nat (length row) <? _) eqn:L; [discriminate|]. cbv zeta.
  destruct (_ || _ || _)%bool eqn:E1; [discriminate|].
  destruct (_ || includes _ _)%bool eqn:E2; [discriminate|].
  intros _. apply Z.ltb_ge in L.
  apply orb_false_iff in E1 as [E1 _]. apply orb_false_iff in E1 as [Ec En].
  exists row. repeat split; try assumption.
  - intro H. rewrite H in Ec. discriminate.
  - intro H. rewrite H in En. discriminate.
Qed.

Lemma count_row_mono (a b c n : Z) (row : option (list cell)) : n <= count_row a b c n row.
Proof.
  unfold count_row. destruct row as [row|]; [|lia].
  destruct (_ <=? _); [lia|]. cbv zeta.
  destruct (_ && _)%bool; [|lia]. destruct (_ || _)%bool; lia.
Qed.

Lemma parse_row_count (cols : Columns) (id sourceFile : jstr) (row : option (list cell))
    (r : Supplier.t) (n : Z) :
  parse_row cols id sourceFile row = Some r ->
  count_row (colClient cols) (colNumFra cols) (colImport cols) n row = n + 1.
Proof.
  intro H. apply parse_row_some in H as (row' & -> & Hl & Hc & Hn & Ht).
  pose proof (cell_bound _ _ Hc). pose proof (col_value_bound _ _ Hn).
  unfold count_row.
  replace (Z.of_nat (length row') <=? _) with false
    by (symmetry; apply Z.leb_gt; lia).
  cbv zeta. rewrite (nonempty_length_neq _ Hc), (nonempty_length_neq _ Hn).
  cbn [negb andb orb]. rewrite Ht. reflexivity.
Qed.

Lemma parse_count_fold (cols : Columns) (fresh : nat -> jstr) (sourceFile : jstr)
    (rows : list (option (list cell))) :
  forall (acc : list Supplier.t) (n : Z), Z.of_nat (length acc) <= n ->
  Z.of_nat (length
    (fold_left
       (fun records row =>
          match parse_row cols (fresh (length records)) sourceFile row with
          | Some record => records ++ [record]
          | None => records
          end) rows acc))
  <= fold_left (count_row (colClient cols) (colNumFra cols) (colImport cols)) rows n.
Proof.
  induction rows as [|row rows IH]; intros acc n H; simpl; [exact H|].
  apply IH.
  destruct (parse_row cols (fresh (length acc)) sourceFile row) eqn:E.
  - rewrite (parse_row_count _ _ _ _ _ n E), length_app. simpl. lia.
  - pose proof (count_row_mono (colClient cols) (colNumFra cols) (colImport cols) n row). lia.
Qed.

Lemma parse_none_fold (cols : Columns) (fresh : nat -> jstr) (sourceFile : jstr)
    (rows : list (option (list cell))) (acc : list Supplier.t) :
  (forall id row, parse_row cols id sourceFile row = None) ->
  fold_left
    (fun records row =>
       match parse_row cols (fresh (length records)) sourceFile row with
       | Some record => records ++ [record]
       | None => records
       end) rows acc = acc.
Proof.
  intro H. revert acc. induction rows as [|row rows IH]; intro acc; simpl; [reflexivity|].
  rewrite H. apply IH.
Qed.

(** [countValidRecords] (the record count [getExcelSheets] shows for a
    sheet) is an upper bound of the number of records [parseSheet] imports
    from the same rows. *)
Theorem countValidRecords_bounds_parseSheet (fresh : nat -> jstr)
    (rows : list (option (list cell))) (fileName sheetName : jstr) :
  Z.of_nat (length (parseSheet fresh rows fileName sheetName)) <= countValidRecords rows.
Proof.
  unfold parseSheet, countValidRecords. cbv zeta.
  destruct (findHeaderRow rows =? -1); [simpl; lia|].
  set (header := map header_cell (match nth _ rows None with Some r => r | None => [] end)).
  set (cols := columns header).
  change (findIndex is_client_header header) with (colClient cols).
  change (findIndex is_numfra_header header) with (colNumFra cols).
  change (findIndex is_import_header header) with (colImport cols).
  destruct ((colClient cols =? -1) || ((colNumFra cols =? -1) && (colImport cols =? -1)))%bool
    eqn:C.
  - rewrite parse_none_fold; [simpl; lia|].
    intros id row. destruct (parse_row cols id _ row) eqn:E; [|reflexivity]. exfalso.
    apply parse_row_some in E as (row' & _ & _ & Hc & Hn & _).
    apply cell_bound in Hc. apply col_value_bound in Hn.
    apply orb_true_iff in C as [C | C]; [apply Z.eqb_eq in C; lia|].
    apply andb_true_iff in C as [C _]. apply Z.eqb_eq in C. lia.
  - apply parse_count_fold. simpl. lia.
Qed.

Lemma match_month_year_some (str m y : jstr) :
  match_month_year str = Some (m, y) ->
  length y = 4%nat /\ forallb is_digit y = true
  /\ existsb (fun alt => ci_eqb alt m) month_alternatives = true.
Proof.
  unfold match_month_year. destruct (length str <? 4)%nat eqn:L; [discriminate|].
  apply Nat.ltb_ge in L. cbv zeta.
  destruct (forallb is_digit (skipn (length str - 4) str)) eqn:D; [|discriminate].
  destruct (span is_js_space (rev (firstn (length str - 4) str))) as [sp mr].
  destruct sp as [|x sp]; [discriminate|].
  destruct (existsb _ month_alternatives) eqn:X; [|discriminate].
  intro H. injection H as <- <-. rewrite length_skipn. repeat split; [lia | exact D | exact X].
Qed.

Definition month_year_ok (sheetName m y : jstr) : Prop :=
  (m = sheetName /\ y = [])
  \/ (length y = 4%nat /\ forallb is_digit y = true
      /\ existsb (fun alt => ci_eqb alt m) month_alternatives = true).

Lemma extractMonthYear_some (rows : list (option (list cell))) (sheetName m y : jstr) :
  extractMonthYear rows sheetName = Some (m, y) -> month_year_ok sheetName m y.
Proof.
  unfold extractMonthYear. generalize (firstn 5 rows). intro l.
  induction l as [|[row|] l IH]; simpl.
  - intro H. injection H as <- <-. left. split; reflexivity.
  - assert (Hrow : forall m' y', first_cell_month_year row = Some (m', y') ->
                                  month_year_ok sheetName m' y').
    { induction row as [|c row IHr]; simpl; [discriminate|].
      destruct (match_month_year (trim (cell_str c))) as [[m0 y0]|] eqn:E.
      - intros m' y' H. injection H as <- <-. right. apply (match_month_year_some _ _ _ E).
      - exact IHr. }
    destruct (first_cell_month_year row) as [[m0 y0]|] eqn:E.
    + intro H. injection H as <- <-. apply Hrow. reflexivity.
    + exact IH.
  - discriminate.
Qed.

Lemma sheet_infos_spec (wb : workbook) (names : list jstr) (infos : list ExcelSheetInfo) :
  sheet_infos wb names = Some infos ->
  map name infos = names
  /\ Forall (fun info => recordCount info = countValidRecords (Sheets wb (name info))
                         /\ month_year_ok (name info) (month info) (year info)) infos.
Proof.
  revert infos. induction names as [|n names IH]; intros infos; simpl.
  - intro H. injection H as <-. split; constructor.
  - destruct (extractMonthYear (Sheets wb n) n) as [[m y]|] eqn:E; [|discriminate].
    destruct (sheet_infos wb names) as [l|]; [|discriminate].
    intro H. injection H as <-. destruct (IH l eq_refl) as [Hm Hf].
    split; [simpl; rewrite Hm; reflexivity|].
    constructor; [|exact Hf]. cbn. split; [reflexivity|].
    exact (extractMonthYear_some _ _ _ _ E).
Qed.

Lemma parseSupplierExcel_single (fresh : nat -> jstr) (wb : workbook) (fileName s : jstr) :
  In s (SheetNames wb) ->
  parseSupplierExcel fresh wb fileName [s] = parseSheet fresh (Sheets wb s) fileName s.
Proof.
  intro H. unfold parseSupplierExcel, sheet_step. simpl.
  replace (existsb (jstr_eqb s) (SheetNames wb)) with true; [reflexivity|].
  symmetry. apply existsb_exists. exists s. split; [exact H|]. apply jstr_eqb_true. reflexivity.
Qed.

(** [getExcelSheets], when it resolves, lists the sheets of the workbook in
    order; for each, the record count it reports is at least the number of
    records [parseSupplierExcel] then imports from that sheet, and the month
    and year it reports are either the sheet name and '' or a month name of
    its list (in any letter case) and a four-digit year. *)
Theorem getExcelSheets_sound (wb : workbook) (infos : list ExcelSheetInfo)
    (fresh : nat -> jstr) (fileName : jstr) :
  getExcelSheets wb = Some infos ->
  map name infos = SheetNames wb
  /\ Forall (fun info =>
       Z.of_nat (length (parseSupplierExcel fresh wb fileName [name info])) <= recordCount info
       /\ month_year_ok (name info) (month info) (year info)) infos.
Proof.
  unfold getExcelSheets. intro H. apply sheet_infos_spec in H as [Hm Hf].
  split; [exact Hm|]. rewrite Forall_forall in *. intros info Hin.
  destruct (Hf info Hin) as [Hc Hy]. split; [|exact Hy].
  rewrite parseSupplierExcel_single.
  - rewrite Hc. apply countValidRecords_bounds_parseSheet.
  - rewrite <- Hm. apply in_map. exact Hin.
Qed.

Lemma parse_row_source (cols : Columns) (id sourceFile : jstr) (row : option (list cell))
    (r : Supplier.t) :
  parse_row cols id sourceFile row = Some r -> Supplier.sourceFile r = sourceFile.
Proof.
  unfold parse_row. destruct row as [row|]; [|discriminate]. cbv zeta.
  repeat match goal with |- context [if ?c then _ else _] => destruct c end;
    intro H; try discriminate; injection H as <-; reflexivity.
Qed.

Lemma parseSheet_fold_forall (P : Supplier.t -> Prop) (cols : Columns) (fresh : nat -> jstr)
    (sourceFile : jstr) (rows : list (option (list cell))) (acc : list Supplier.t) :
  (forall id row r, parse_row cols id sourceFile row = Some r -> P r) ->
  Forall P acc ->
  Forall P
    (fold_left
       (fun records row =>
          match parse_row cols (fresh (length records)) sourceFile row with
          | Some record => records ++ [record]
          | None => records
          end) rows acc).
Proof.
  intro HP. revert acc. induction rows as [|row rows IH]; intros acc Hacc; [exact Hacc|].
  simpl. apply IH.
  destruct (parse_row cols (fresh (length acc)) sourceFile row) as [r|] eqn:E; [|exact Hacc].
  apply Forall_app. split; [exact Hacc|]. constructor; [|constructor]. exact (HP _ _ _ E).
Qed.

Lemma parseSheet_source_ok (fresh : nat -> jstr) (rows : list (option (list cell)))
    (fileName sheetName : jstr) :
  Forall (fun r => Supplier.sourceFile r = fileName ++ js " - " ++ sheetName
                   /\ supplier_row_ok r)
    (parseSheet fresh rows fileName sheetName).
Proof.
  unfold parseSheet. destruct (findHeaderRow rows =? -1); [constructor|].
  apply parseSheet_fold_forall; [|constructor].
  intros id row r E. split; [exact (parse_row_source _ _ _ _ _ E) | exact (parse_row_ok _ _ _ _ _ E)].
Qed.

(** [parseSupplierExcel] imports only from selected sheets that exist in the
    workbook: every record it returns has the source [fileName - sheetName]
    of such a sheet, and passes the checks of [parseSheet] (nonempty client
    name, invoice number and raw amount, not a total row, nonzero amount). *)
Theorem parseSupplierExcel_records (fresh : nat -> jstr) (wb : workbook) (fileName : jstr)
    (selectedSheets : list jstr) (r : Supplier.t) :
  In r (parseSupplierExcel fresh wb fileName selectedSheets) ->
  exists sheetName, In sheetName selectedSheets /\ In sheetName (SheetNames wb)
    /\ Supplier.sourceFile r = fileName ++ js " - " ++ sheetName /\ supplier_row_ok r.
Proof.
  unfold parseSupplierExcel.
  assert (H : forall l acc, incl l selectedSheets ->
    (forall r, In r acc -> exists sheetName, In sheetName selectedSheets
        /\ In sheetName (SheetNames wb)
        /\ Supplier.sourceFile r = fileName ++ js " - " ++ sheetName /\ supplier_row_ok r) ->
    forall r, In r (fold_left (sheet_step fresh wb fileName) l acc) ->
      exists sheetName, In sheetName selectedSheets /\ In sheetName (SheetNames wb)
        /\ Supplier.sourceFile r = fileName ++ js " - " ++ sheetName /\ supplier_row_ok r).
  { induction l as [|s l IH]; intros acc Hincl Hacc; [exact Hacc|].
    simpl. apply IH; [intros x Hx; apply Hincl; right; exact Hx|].
    unfold sheet_step. destruct (existsb (jstr_eqb s) (SheetNames wb)) eqn:E; [|exact Hacc].
    cbn [negb]. intros r' Hr'. apply in_app_iff in Hr' as [Hr' | Hr']; [exact (Hacc r' Hr')|].
    pose proof (parseSheet_source_ok (fun n => fresh (length acc + n)%nat) (Sheets wb s)
                  fileName s) as Hs.
    rewrite Forall_forall in Hs. destruct (Hs r' Hr') as [Hsrc Hok].
    exists s. split; [apply Hincl; left; reflexivity|]. split; [|split; assumption].
    apply existsb_exists in E as [x [Hx Hxe]]. apply jstr_eqb_true in Hxe. subst x. exact Hx. }
  apply H; [intros x Hx; exact Hx | intros ? []].
Qed.

Lemma fold_left_ext_pw {A B} (g1 g2 : A -> B -> A) (l : list B) :
  (forall a x, g1 a x = g2 a x) -> forall a, fold_left g1 l a = fold_left g2 l a.
Proof.
  intro H. induction l as [|x l IH]; intro a; simpl; [reflexivity|]. rewrite H. apply IH.
Qed.

Lemma parseSheet_ext (f1 f2 : nat -> jstr) (rows : list (option (list cell)))
    (fileName sheetName : jstr) :
  (forall n, f1 n = f2 n) ->
  parseSheet f1 rows fileName sheetName = parseSheet f2 rows fileName sheetName.
Proof.
  intro H. unfold parseSheet. destruct (findHeaderRow rows =? -1); [reflexivity|].
  apply fold_left_ext_pw. intros a x. rewrite H. reflexivity.
Qed.

Lemma sheet_step_fold_ext (f1 f2 : nat -> jstr) (wb : workbook) (fileName : jstr)
    (l : list jstr) (acc : list Supplier.t) :
  (forall n, f1 n = f2 n) ->
  fold_left (sheet_step f1 wb fileName) l acc = fold_left (sheet_step f2 wb fileName) l acc.
Proof.
  intro H. apply fold_left_ext_pw. intros a s. unfold sheet_step.
  rewrite (parseSheet_ext (fun n => f1 (length a + n)%nat) (fun n => f2 (length a + n)%nat));
    [reflexivity|]. intro n. apply H.
Qed.

Lemma sheet_step_present (fresh : nat -> jstr) (wb : workbook) (fileName : jstr)
    (acc : list Supplier.t) (s : jstr) :
  existsb (jstr_eqb s) (SheetNames wb) = true ->
  sheet_step fresh wb fileName acc s
  = acc ++ parseSheet (fun n => fresh (length acc + n)%nat) (Sheets wb s) fileName s.
Proof. intro E. unfold sheet_step. rewrite E. reflexivity. Qed.

Lemma sheet_step_absent (fresh : nat -> jstr) (wb : workbook) (fileName : jstr)
    (acc : list Supplier.t) (s : jstr) :
  existsb (jstr_eqb s) (SheetNames wb) = false -> sheet_step fresh wb fileName acc s = acc.
Proof. intro E. unfold sheet_step. rewrite E. reflexivity. Qed.

Lemma sheet_step_fold_shift (wb : workbook) (fileName : jstr) (l : list jstr) :
  forall (fresh : nat -> jstr) (acc : list Supplier.t),
  fold_left (sheet_step fresh wb fileName) l acc
  = acc ++ fold_left (sheet_step (fun n => fresh (length acc + n)%nat) wb fileName) l [].
Proof.
  induction l as [|s l IH]; intros fresh acc; cbn [fold_left];
    [rewrite app_nil_r; reflexivity|].
  destruct (existsb (jstr_eqb s) (SheetNames wb)) eqn:E.
  - rewrite !(sheet_step_present _ _ _ _ _ E). cbn [app length].
    rewrite IH, (IH (fun n => fresh (length acc + n)%nat)), app_assoc. f_equal.
    apply sheet_step_fold_ext. intro n. rewrite length_app. f_equal. rewrite Nat.add_assoc. reflexivity.
  - rewrite !(sheet_step_absent _ _ _ _ _ E). apply IH.
Qed.

Lemma parse_row_without_id (cols : Columns) (id id' sourceFile : jstr)
    (row : option (list cell)) :
  option_map without_id (parse_row cols id sourceFile row)
  = option_map without_id (parse_row cols id' sourceFile row).
Proof.
  unfold parse_row. destruct row as [row|]; [|reflexivity]. cbv zeta.
  repeat match goal with |- context [if ?c then _ else _] => destruct c end; reflexivity.
Qed.

Lemma parse_fold_without_id (cols : Columns) (sourceFile : jstr) (f1 f2 : nat -> jstr)
    (rows : list (option (list cell))) :
  forall a1 a2, map without_id a1 = map without_id a2 ->
  map without_id
    (fold_left
       (fun records row =>
          match parse_row cols (f1 (length records)) sourceFile row with
          | Some record => records ++ [record]
          | None => records
          end) rows a1)
  = map without_id
    (fold_left
       (fun records row =>
          match parse_row cols (f2 (length records)) sourceFile row with
          | Some record => records ++ [record]
          | None => records
          end) rows a2).
Proof.
  induction rows as [|row rows IH]; intros a1 a2 Ha; simpl; [exact Ha|]. apply IH.
  pose proof (parse_row_without_id cols (f1 (length a1)) (f2 (length a2)) sourceFile row) as E.
  destruct (parse_row cols (f1 (length a1)) sourceFile row),
           (parse_row cols (f2 (length a2)) sourceFile row); try discriminate; [|exact Ha].
  cbn [option_map] in E. rewrite !map_app, Ha. cbn [map]. congruence.
Qed.

Lemma parseSheet_without_id (f1 f2 : nat -> jstr) (rows : list (option (list cell)))
    (fileName sheetName : jstr) :
  map without_id (parseSheet f1 rows fileName sheetName)
  = map without_id (parseSheet f2 rows fileName sheetName).
Proof.
  unfold parseSheet. destruct (findHeaderRow rows =? -1); [reflexivity|].
  apply parse_fold_without_id. reflexivity.
Qed.

Lemma sheet_step_fold_without_id (f1 f2 : nat -> jstr) (wb : workbook) (fileName : jstr)
    (l : list jstr) :
  forall a1 a2, map without_id a1 = map without_id a2 ->
  map without_id (fold_left (sheet_step f1 wb fileName) l a1)
  = map without_id (fold_left (sheet_step f2 wb fileName) l a2).
Proof.
  induction l as [|s l IH]; intros a1 a2 Ha; simpl; [exact Ha|]. apply IH.
  unfold sheet_step. destruct (negb _); [exact Ha|].
  rewrite !map_app, Ha. f_equal. apply parseSheet_without_id.
Qed.

(** [parseSupplierExcel] handles the selected sheets one after the other,
    independently: the records of [l1 ++ l2] are those of [l1] followed by
    those of [l2] (whose ids continue the supply).  In particular a sheet
    selected twice is imported twice: the records of [[s; s]] are those of
    [[s]] twice, up to their ids. *)
Theorem parseSupplierExcel_app (fresh : nat -> jstr) (wb : workbook) (fileName : jstr)
    (l1 l2 : list jstr) :
  parseSupplierExcel fresh wb fileName (l1 ++ l2)
  = parseSupplierExcel fresh wb fileName l1
    ++ parseSupplierExcel (fun n => fresh (length (parseSupplierExcel fresh wb fileName l1) + n)%nat)
         wb fileName l2
  /\ (forall s, map without_id (parseSupplierExcel fresh wb fileName [s; s])
               = map without_id (parseSupplierExcel fresh wb fileName [s])
                 ++ map without_id (parseSupplierExcel fresh wb fileName [s])).
Proof.
  split.
  - unfold parseSupplierExcel. rewrite fold_left_app. apply sheet_step_fold_shift.
  - intro s. unfold parseSupplierExcel.
    change [s; s] with ([s] ++ [s]). rewrite fold_left_app, sheet_step_fold_shift, map_app.
    f_equal. apply sheet_step_fold_without_id. reflexivity.
Qed.

(** A workbook with the sample sheet and a sheet titled with its month. *)
Definition sample_workbook : workbook :=
  mkWorkbook [js "Hoja1"; js "OCT"]
    (fun n => if jstr_eqb n (js "Hoja1") then sample_sheet
              else [Some [Some (js "  octubre 2025 ")]]).

Lemma getExcelSheets_sound_witness :
  getExcelSheets sample_workbook
  = Some [mkExcelSheetInfo (js "Hoja1") (js "Hoja1") [] 2;
          mkExcelSheetInfo (js "OCT") (js "octubre") (js "2025") 0]
  /\ Forall (fun info =>
       Z.of_nat (length (parseSupplierExcel (fun n => [Z.of_nat n]) sample_workbook (js "f.xlsx")
                           [name info])) <= recordCount info
       /\ month_year_ok (name info) (month info) (year info))
       [mkExcelSheetInfo (js "Hoja1") (js "Hoja1") [] 2;
        mkExcelSheetInfo (js "OCT") (js "octubre") (js "2025") 0].
Proof.
  assert (H : getExcelSheets sample_workbook
              = Some [mkExcelSheetInfo (js "Hoja1") (js "Hoja1") [] 2;
                      mkExcelSheetInfo (js "OCT") (js "octubre") (js "2025") 0])
    by (vm_compute; reflexivity).
  split; [exact H|].
  exact (proj2 (getExcelSheets_sound sample_workbook _ (fun n => [Z.of_nat n]) (js "f.xlsx") H)).
Defined.

Lemma parseSupplierExcel_records_witness :
  parseSupplierExcel (fun n => [Z.of_nat n]) sample_workbook (js "f.xlsx") [js "Hoja1"; js "X"]
  = [sample_record]
  /\ exists sheetName, In sheetName [js "Hoja1"; js "X"] /\ In sheetName (SheetNames sample_workbook)
     /\ Supplier.sourceFile sample_record = js "f.xlsx" ++ js " - " ++ sheetName
     /\ supplier_row_ok sample_record.
Proof.
  assert (H : parseSupplierExcel (fun n => [Z.of_nat n]) sample_workbook (js "f.xlsx")
                [js "Hoja1"; js "X"] = [sample_record]) by (vm_compute; reflexivity).
  split; [exact H|].
  apply (parseSupplierExcel_records (fun n => [Z.of_nat n]) sample_workbook (js "f.xlsx")
           [js "Hoja1"; js "X"] sample_record).
  rewrite H. left. reflexivity.
Defined.

(* ---------------------------------------------------------------------------
   unnamed/part_004: cleanConcept
   ------------------------------------------------------------------------- *)

(** No two adjacent spaces. *)
Definition no_double_space (t : jstr) : Prop := forall a b, t <> a ++ 32 :: 32 :: b.

Lemma no_double_space_nil : no_double_space [].
Proof. intros a b E. destruct a; discriminate. Qed.

Lemma no_double_space_cons (c : Z) (t : jstr) :
  no_double_space t -> (c <> 32 \/ hd 0 t <> 32) -> no_double_space (c :: t).
Proof.
  intros H Hc a b E. destruct a as [|x a].
  - injection E as -> ->. simpl in Hc. lia.
  - injection E as _ E. exact (H a b E).
Qed.

Lemma no_double_space_tail (c : Z) (t : jstr) : no_double_space (c :: t) -> no_double_space t.
Proof. intros H a b E. apply (H (c :: a) b). rewrite E. reflexivity. Qed.

Lemma no_double_space_infix (a t b : jstr) : no_double_space (a ++ t ++ b) -> no_double_space t.
Proof.
  intros H x y E. apply (H (a ++ x) (y ++ b)). rewrite E, <- !app_assoc. reflexivity.
Qed.

Lemma js_space_32 : is_js_space 32 = true.
Proof. reflexivity. Qed.

Lemma replace_runs_spaces (s : jstr) (b : bool) :
  Forall (fun c => is_js_space c = true -> c = 32) (replace_runs is_js_space b s).
Proof.
  revert b. induction s as [|c r IH]; intro b; simpl; [constructor|].
  destruct (is_js_space c) eqn:E; [destruct b; [apply IH|]|];
    constructor; try apply IH; [reflexivity | congruence].
Qed.

Lemma replace_runs_no_double (s : jstr) :
  forall b, no_double_space (replace_runs is_js_space b s)
  /\ (b = true -> hd 0 (replace_runs is_js_space b s) <> 32).
Proof.
  induction s as [|c r IH]; intro b; simpl.
  - split; [apply no_double_space_nil | intros _; discriminate].
  - destruct (is_js_space c) eqn:E.
    + destruct (IH true) as [Hn Hh]. destruct b.
      * split; [exact Hn | intros _; exact (Hh eq_refl)].
      * split; [|discriminate]. apply no_double_space_cons; [exact Hn|]. right. exact (Hh eq_refl).
    + destruct (IH false) as [Hn _]. split.
      * apply no_double_space_cons; [exact Hn|]. left. intro C. subst c. discriminate.
      * intros _. simpl. intro C. subst c. discriminate.
Qed.

Lemma replace_runs_id_none (p : Z -> bool) (t : jstr) (b : bool) :
  Forall (fun c => p c = false) t -> replace_runs p b t = t.
Proof.
  revert b. induction t as [|c r IH]; intros b H; simpl; [reflexivity|].
  inversion H as [|? ? Hc Hr]; subst. rewrite Hc, IH by exact Hr. reflexivity.
Qed.

Lemma replace_runs_id_single (t : jstr) :
  forall b, Forall (fun c => is_js_space c = true -> c = 32) t -> no_double_space t ->
  (b = true -> hd 0 t <> 32) ->
  replace_runs is_js_space b t = t.
Proof.
  induction t as [|c r IH]; intros b Hs Hd Hb; simpl; [reflexivity|].
  inversion Hs as [|? ? Hc Hr]; subst.
  destruct (is_js_space c) eqn:E.
  - specialize (Hc eq_refl). subst c. destruct b; [exfalso; exact (Hb eq_refl eq_refl)|].
    rewrite IH; [reflexivity | exact Hr | exact (no_double_space_tail _ _ Hd) |].
    intros _ Hh. destruct r as [|d r]; [discriminate|]. simpl in Hh. subst d.
    apply (Hd [] r). reflexivity.
  - rewrite IH; [reflexivity | exact Hr | exact (no_double_space_tail _ _ Hd) | discriminate].
Qed.

Lemma trim_infix (s : jstr) : exists a b, s = a ++ trim s ++ b.
Proof.
  unfold trim. destruct (drop_while_suffix is_js_space s) as [a Ha].
  destruct (drop_while_suffix is_js_space (rev (drop_while is_js_space s))) as [b Hb].
  exists a, (rev b). rewrite Ha at 1. f_equal.
  set (d := drop_while is_js_space s) in *.
  set (x := drop_while is_js_space (rev d)) in *.
  rewrite <- (rev_involutive d) at 1. rewrite Hb, rev_app_distr.
  reflexivity.
Qed.

Lemma Forall_infix {A} (P : A -> Prop) (a t b : list A) : Forall P (a ++ t ++ b) -> Forall P t.
Proof. rewrite !Forall_app. tauto. Qed.

Lemma cr_or_lf_space (c : Z) : is_cr_or_lf c = true -> is_js_space c = true.
Proof.
  unfold is_cr_or_lf. intro H. apply orb_true_iff in H as [H | H]; apply Z.eqb_eq in H; subst;
    reflexivity.
Qed.

Lemma spaces_no_cr_or_lf (t : jstr) :
  Forall (fun c => is_js_space c = true -> c = 32) t -> Forall (fun c => is_cr_or_lf c = false) t.
Proof.
  intro H. eapply Forall_impl; [|exact H]. intros c Hc.
  destruct (is_cr_or_lf c) eqn:E; [|reflexivity].
  rewrite (Hc (cr_or_lf_space _ E)) in E. discriminate.
Qed.

(** [cleanConcept] yields a normal form: the only white space left is the
    ordinary space, never two in a row, none at either end, and cleaning it
    again changes nothing. *)
Theorem cleanConcept_normal_form (concept : jstr) :
  let t := cleanConcept concept in
  Forall (fun c => is_js_space c = true -> c = 32) t
  /\ no_double_space t
  /\ trim t = t
  /\ cleanConcept t = t.
Proof.
  cbv zeta. unfold cleanConcept.
  set (u := replace_runs is_js_space false concept).
  assert (Hs : Forall (fun c => is_js_space c = true -> c = 32) u) by apply replace_runs_spaces.
  assert (Hd : no_double_space u) by apply (proj1 (replace_runs_no_double concept false)).
  rewrite (replace_runs_id_none is_cr_or_lf u false (spaces_no_cr_or_lf _ Hs)).
  destruct (trim_infix u) as (a & b & Hab).
  assert (Hs' : Forall (fun c => is_js_space c = true -> c = 32) (trim u))
    by (rewrite Hab in Hs; exact (Forall_infix _ _ _ _ Hs)).
  assert (Hd' : no_double_space (trim u))
    by (rewrite Hab in Hd; exact (no_double_space_infix _ _ _ Hd)).
  split; [exact Hs'|]. split; [exact Hd'|]. split; [apply trim_idem|].
  rewrite (replace_runs_id_single (trim u) false Hs' Hd' ltac:(discriminate)).
  rewrite (replace_runs_id_none is_cr_or_lf (trim u) false (spaces_no_cr_or_lf _ Hs')).
  apply trim_idem.
Qed.

(* ---------------------------------------------------------------------------
   utils/fileHelpers.ts: generateCsvContent
   ------------------------------------------------------------------------- *)

Lemma js_split_no_sep (c : Z) (a : jstr) : ~ In c a -> js_split c a = [a].
Proof.
  induction a as [|x a IH]; intro H; [reflexivity|]. simpl.
  destruct (Z.eqb_spec x c) as [E|E]; [subst; exfalso; apply H; left; reflexivity|].
  rewrite IH by (intro I; apply H; right; exact I). reflexivity.
Qed.

Lemma js_split_app (c : Z) (a b : jstr) :
  ~ In c a -> js_split c (a ++ c :: b) = a :: js_split c b.
Proof.
  induction a as [|x a IH]; intro H; simpl.
  - rewrite Z.eqb_refl. reflexivity.
  - destruct (Z.eqb_spec x c) as [E|E]; [subst; exfalso; apply H; left; reflexivity|].
    rewrite IH by (intro I; apply H; right; exact I). reflexivity.
Qed.

Lemma js_split_join (c : Z) (l : list jstr) :
  l <> [] -> Forall (fun s => ~ In c s) l -> js_split c (join [c] l) = l.
Proof.
  induction l as [|x l IH]; intros Hne H; [congruence|].
  inversion H as [|? ? Hx Hl]; subst.
  destruct l as [|y l].
  - apply js_split_no_sep. exact Hx.
  - change (join [c] (x :: y :: l)) with (x ++ c :: join [c] (y :: l)).
    rewrite js_split_app by exact Hx. rewrite IH; [reflexivity|discriminate|exact Hl].
Qed.

Lemma not_in_app (c : Z) (a b : jstr) : ~ In c a -> ~ In c b -> ~ In c (a ++ b).
Proof. intros Ha Hb I. apply in_app_or in I as [I|I]; contradiction. Qed.

Lemma join_not_in (c d : Z) (l : list jstr) :
  c <> d -> Forall (fun s => ~ In c s) l -> ~ In c (join [d] l).
Proof.
  intros Hcd. induction l as [|x l IH]; intro H; [simpl; tauto|].
  inversion H as [|? ? Hx Hl]; subst. destruct l as [|y l]; [exact Hx|].
  change (join [d] (x :: y :: l)) with (x ++ [d] ++ join [d] (y :: l)).
  apply not_in_app; [exact Hx|]. apply not_in_app; [simpl; intuition|exact (IH Hl)].
Qed.

Lemma escape_quotes_not_in (c : Z) (s : jstr) : c <> 34 -> ~ In c s -> ~ In c (escape_quotes s).
Proof.
  intros Hc Hs I. unfold escape_quotes in I. apply in_flat_map in I as (x & Hx & I).
  destruct (x =? 34) eqn:E; simpl in I.
  - destruct I as [I|[I|[]]]; congruence.
  - destruct I as [I|[]]. subst. contradiction.
Qed.

(** No line feed in any of the text fields a CSV row is built from. *)
Definition csv_fields_no_lf (r : MatchedBankRecord) : Prop :=
  ~ In 10 (Bank.fContable (bank r)) /\ ~ In 10 (Bank.fValor (bank r))
  /\ ~ In 10 (Bank.concepto (bank r)) /\ ~ In 10 (Bank.importeRaw (bank r))
  /\ (forall d, matchedDoc r = Some d -> ~ In 10 d)
  /\ (forall n, supplierName r = Some n -> ~ In 10 n).

Lemma or_default_not_in (c : Z) (x : option jstr) (d : jstr) :
  (forall v, x = Some v -> ~ In c v) -> ~ In c d -> ~ In c (or_default x d).
Proof. intros Hx Hd. destruct x as [[|a v]|]; cbn [or_default]; auto. Qed.

Lemma csv_row_no_lf (r : MatchedBankRecord) :
  csv_fields_no_lf r -> Forall (fun s => ~ In 10 s) (csv_row r).
Proof.
  intros (H1 & H2 & H3 & H4 & H5 & H6). unfold csv_row.
  repeat apply Forall_cons; try apply Forall_nil; auto.
  - simpl. intros [E|I]; [discriminate|].
    apply in_app_or in I as [I|[E|[]]]; [|discriminate].
    exact (escape_quotes_not_in 10 _ ltac:(discriminate) H3 I).
  - apply or_default_not_in; [exact H5|]. simpl. intuition discriminate.
  - apply or_default_not_in; [exact H6|]. simpl. intuition discriminate.
  - destruct (Status_eqb (status r) Match); simpl; intuition discriminate.
Qed.

(** When no field of a record holds a line feed, splitting the CSV text on
    line feeds gives back the header line followed by exactly one line per
    record, in the order of the records. *)
Theorem generateCsvContent_lines (records : list MatchedBankRecord) :
  Forall csv_fields_no_lf records ->
  js_split 10 (generateCsvContent records)
  = join [59] csv_headers :: map (fun r => join [59] (csv_row r)) records.
Proof.
  intro H. unfold generateCsvContent. rewrite map_map.
  apply js_split_join; [discriminate|]. apply Forall_cons.
  - apply join_not_in; [discriminate|]. repeat constructor; simpl; intuition discriminate.
  - apply Forall_map. eapply Forall_impl; [|exact H]. intros r Hr.
    apply join_not_in; [discriminate|]. apply csv_row_no_lf. exact Hr.
Qed.

(** Quoting the concept loses nothing: two concepts with the same quoted
    CSV field are equal. *)
Theorem escape_quotes_injective (a b : jstr) : escape_quotes a = escape_quotes b -> a = b.
Proof.
  revert b. induction a as [|x a IH]; intros [|y b] E; simpl in E.
  - reflexivity.
  - destruct (y =? 34); discriminate.
  - destruct (x =? 34); discriminate.
  - destruct (Z.eqb_spec x 34) as [Ex|Ex], (Z.eqb_spec y 34) as [Ey|Ey]; simpl in E.
    + subst. injection E as E. f_equal. exact (IH b E).
    + injection E as E1 E2. congruence.
    + injection E as E1 E2. congruence.
    + injection E as E1 E2. subst. f_equal. exact (IH b E2).
Qed.

Lemma generateCsvContent_lines_witness :
  let rs := [mkMatched (Bank.mk (js "b1") (js "02/01/2025") (js "02/01/2025")
                          (js "PAGO ACME; REF") (js "-12,50") (-25 # 2) None
                          (js "x.pdf") (js "bbva"))
                       (Some (js "F-1")) (Some []) Match] in
  Forall csv_fields_no_lf rs
  /\ js_split 10 (generateCsvContent rs)
     = join [59] csv_headers :: map (fun r => join [59] (csv_row r)) rs.
Proof.
  cbv zeta.
  assert (H : Forall csv_fields_no_lf
    [mkMatched (Bank.mk (js "b1") (js "02/01/2025") (js "02/01/2025")
                  (js "PAGO ACME; REF") (js "-12,50") (-25 # 2) None
                  (js "x.pdf") (js "bbva"))
               (Some (js "F-1")) (Some []) Match]).
  { apply Forall_cons; [|apply Forall_nil]. unfold csv_fields_no_lf. cbn [bank matchedDoc supplierName].
    repeat split; try (intros ? E; injection E as <-); vm_compute; intuition discriminate. }
  split; [exact H | apply (generateCsvContent_lines _ H)].
Defined.

(* ---------------------------------------------------------------------------
   services/pdf/bankParser.ts
   ------------------------------------------------------------------------- *)

Lemma parseBankFiles_from_acc (P : BankParsers) (acc : list Bank.t) (files : list UploadedFile) :
  parseBankFiles_from P acc files
  = match parseBankFiles_from P [] files with
    | inl e => inl e
    | inr rs => inr (acc ++ rs)
    end.
Proof.
  revert acc. induction files as [|u files IH]; intro acc; simpl.
  - rewrite app_nil_r. reflexivity.
  - destruct (parseBankFile P (uf_file u) _) as [m|rs]; [reflexivity|].
    rewrite (IH (acc ++ rs)), (IH rs).
    destruct (parseBankFiles_from P [] files); [reflexivity|]. rewrite app_assoc. reflexivity.
Qed.

(** Parsing a concatenation of uploads is parsing the first part and then
    the second: the first error wins, otherwise the records are concatenated
    in upload order. *)
Theorem parseBankFiles_app (P : BankParsers) (fs1 fs2 : list UploadedFile) :
  parseBankFiles P (fs1 ++ fs2)
  = match parseBankFiles P fs1 with
    | inl e => inl e
    | inr rs1 => match parseBankFiles P fs2 with
                 | inl e => inl e
                 | inr rs2 => inr (rs1 ++ rs2)
                 end
    end.
Proof.
  unfold parseBankFiles.
  assert (G : forall acc, parseBankFiles_from P acc (fs1 ++ fs2)
    = match parseBankFiles_from P acc fs1 with
      | inl e => inl e
      | inr rs1 => match parseBankFiles_from P [] fs2 with
                   | inl e => inl e
                   | inr rs2 => inr (rs1 ++ rs2)
                   end
      end).
  { induction fs1 as [|u fs1 IH]; intro acc; simpl.
    - apply parseBankFiles_from_acc.
    - destruct (parseBankFile P (uf_file u) _) as [m|rs]; [reflexivity|]. apply IH. }
  apply G.
Qed.

(** When [parseBankFiles] fails, its message names the first upload whose
    parse failed and carries that parser's message; every upload before it
    was parsed successfully. *)
Theorem parseBankFiles_error (P : BankParsers) (files : list UploadedFile) (msg : jstr) :
  parseBankFiles P files = inl msg ->
  exists before u after rs e,
    files = before ++ u :: after
    /\ parseBankFiles P before = inr rs
    /\ parseBankFile P (uf_file u)
         (match uf_bankType u with Some b => b | None => bbva end) = inl e
    /\ msg = js "Error al procesar " ++ uf_name u ++ js ": " ++ e.
Proof.
  unfold parseBankFiles.
  assert (G : forall acc, parseBankFiles_from P acc files = inl msg ->
    exists before u after rs e,
      files = before ++ u :: after
      /\ parseBankFiles_from P [] before = inr rs
      /\ parseBankFile P (uf_file u)
           (match uf_bankType u with Some b => b | None => bbva end) = inl e
      /\ msg = js "Error al procesar " ++ uf_name u ++ js ": " ++ e).
  { induction files as [|u files IH]; intros acc H; simpl in H; [discriminate|].
    destruct (parseBankFile P (uf_file u) _) as [m|rs] eqn:E.
    - injection H as <-. exists [], u, files, [], m. repeat split; [exact E].
    - destruct (IH _ H) as (b & v & a & rs' & e & -> & Hb & Hv & ->).
      exists (u :: b), v, a, (rs ++ rs'), e. repeat split; [|exact Hv].
      cbn [parseBankFiles_from]. rewrite E, parseBankFiles_from_acc, Hb. reflexivity. }
  apply G.
Qed.

Lemma parseBankFile_excel_unsupported (P : BankParsers) (file : File) (b : BankType) :
  isExcelFile file = true -> b <> caixabank ->
  parseBankFile P file b
  = inl (js "El banco " ++ BankType_str b
         ++ js " no soporta archivos Excel. Por favor, use un archivo PDF.").
Proof.
  intros He Hb. unfold parseBankFile. rewrite He. destruct b; [reflexivity|congruence|reflexivity|reflexivity].
Qed.

(** An upload batch holding an Excel file that is not tagged CaixaBank
    (an untagged file counts as BBVA) always fails, whatever the bank
    parsers would return. *)
Theorem parseBankFiles_excel_rejected (P : BankParsers) (files : list UploadedFile) (u : UploadedFile) :
  In u files -> isExcelFile (uf_file u) = true -> uf_bankType u <> Some caixabank ->
  exists msg, parseBankFiles P files = inl msg.
Proof.
  intros Hin He Hb. apply in_split in Hin as (before & after & ->).
  assert (Hu : exists e, parseBankFile P (uf_file u)
                 (match uf_bankType u with Some b => b | None => bbva end) = inl e).
  { eexists. apply parseBankFile_excel_unsupported; [exact He|].
    destruct (uf_bankType u); congruence. }
  destruct Hu as [e Hu].
  rewrite parseBankFiles_app.
  destruct (parseBankFiles P before) as [m|rs]; [eexists; reflexivity|].
  unfold parseBankFiles. cbn [parseBankFiles_from]. rewrite Hu. eexists; reflexivity.
Qed.

Lemma parseBankFiles_excel_rejected_witness :
  let P := mkBankParsers (fun _ => inr []) (fun _ => inr []) (fun _ => inr [])
                         (fun _ => inr []) (fun _ => inr []) in
  let u := mkUploadedFile (mkFile (js "Extracto.XLSX") []) (js "Extracto.XLSX") None in
  let files := [mkUploadedFile (mkFile (js "a.pdf") (js "application/pdf")) (js "a.pdf") (Some sabadell); u] in
  (In u files /\ isExcelFile (uf_file u) = true /\ uf_bankType u <> Some caixabank)
  /\ exists msg, parseBankFiles P files = inl msg.
Proof.
  cbv zeta. split; [split; [simpl; right; left; reflexivity | split; [vm_compute; reflexivity | discriminate]]|].
  apply parseBankFiles_excel_rejected
    with (u := mkUploadedFile (mkFile (js "Extracto.XLSX") []) (js "Extracto.XLSX") None).
  - simpl. right. left. reflexivity.
  - vm_compute. reflexivity.
  - discriminate.
Defined.

Lemma parseBankFiles_error_witness :
  let P := mkBankParsers (fun _ => inr []) (fun _ => inl (js "sin texto")) (fun _ => inr [])
                         (fun _ => inr []) (fun _ => inr []) in
  let files := [mkUploadedFile (mkFile (js "a.pdf") []) (js "a.pdf") None;
                mkUploadedFile (mkFile (js "b.pdf") []) (js "b.pdf") (Some caixabank)] in
  parseBankFiles P files = inl (js "Error al procesar b.pdf: sin texto")
  /\ exists before u after rs e,
       files = before ++ u :: after
       /\ parseBankFiles P before = inr rs
       /\ parseBankFile P (uf_file u)
            (match uf_bankType u with Some b => b | None => bbva end) = inl e
       /\ js "Error al procesar b.pdf: sin texto" = js "Error al procesar " ++ uf_name u ++ js ": " ++ e.
Proof.
  cbv zeta.
  assert (H : parseBankFiles
    (mkBankParsers (fun _ => inr []) (fun _ => inl (js "sin texto")) (fun _ => inr [])
                   (fun _ => inr []) (fun _ => inr []))
    [mkUploadedFile (mkFile (js "a.pdf") []) (js "a.pdf") None;
     mkUploadedFile (mkFile (js "b.pdf") []) (js "b.pdf") (Some caixabank)]
    = inl (js "Error al procesar b.pdf: sin texto")) by (vm_compute; reflexivity).
  split; [exact H | exact (parseBankFiles_error _ _ _ H)].
Defined.

Lemma escape_quotes_injective_witness :
  escape_quotes (js "O" ++ [34] ++ js "K") = escape_quotes (js "O" ++ [34] ++ js "K")
  /\ js "O" ++ [34] ++ js "K" = js "O" ++ [34] ++ js "K".
Proof.
  split; [reflexivity|]. apply escape_quotes_injective. vm_compute. reflexivity.
Defined.

(* ---------------------------------------------------------------------------
   findSupplierMatch with several amount candidates: the order of the steps
   ------------------------------------------------------------------------- *)

Lemma month_year_step_candidates (l : list Supplier.t) (d : jstr) :
  month_year_step l d
  = match month_candidates l d with
    | [] => None
    | [m] => Some (Some m)
    | _ => Some (findClosestDateMatch (month_candidates l d) d)
    end.
Proof.
  unfold month_year_step, month_candidates. destruct (getMonthYear d); [|reflexivity].
  destruct (filter _ l) as [|? [|? ?]]; reflexivity.
Qed.

Lemma closest_among_single (d : jstr) (m : Supplier.t) : closest_among [m] d m.
Proof.
  intros t x tx _ [<- | []] Hx. exists tx. split; [exact Hx | lia].
Qed.

Lemma findClosestDateMatch_closest_among (l : list Supplier.t) (d : jstr) (s : Supplier.t) :
  findClosestDateMatch l d = Some s -> closest_among l d s.
Proof.
  intros Hs t x tx Ht Hin Hx.
  exact (findClosestDateMatch_closest_gen l d t s x tx Ht Hs Hin Hx).
Qed.

(** What steps 2 and 3 return when their candidate list is not empty. *)
Lemma month_pick (ms : list Supplier.t) (d : jstr) :
  ms <> [] ->
  exists s, match ms with
            | [] => None
            | [m] => Some (Some m)
            | _ => Some (findClosestDateMatch ms d)
            end = Some (Some s)
         /\ In s ms /\ closest_among ms d s.
Proof.
  intro Hne. destruct ms as [|m [|m' r]]; [congruence| |].
  - exists m. split; [reflexivity|]. split; [left; reflexivity|]. apply closest_among_single.
  - destruct (findClosestDateMatch_some (m :: m' :: r) d ltac:(discriminate)) as [s Hs].
    exists s. rewrite Hs. split; [reflexivity|]. split.
    + exact (findClosestDateMatch_in _ _ _ Hs).
    + exact (findClosestDateMatch_closest_among _ _ _ Hs).
Qed.

Lemma findSupplierMatch_several (b : Bank.t) (pool : list Supplier.t) (o : RequiredOptions) :
  (2 <= length (amount_candidates b pool o))%nat ->
  findSupplierMatch b pool o
  = match month_year_step (amount_candidates b pool o) (Bank.fValor b) with
    | Some r => r
    | None =>
      match (if useAccountingDate o
             then month_year_step (amount_candidates b pool o) (Bank.fContable b)
             else None) with
      | Some r => r
      | None =>
        let amountMatches := amount_candidates b pool o in
        let closestMatch := findClosestDateMatch amountMatches (Bank.fValor b) in
        match closestMatch with
        | Some cm =>
          if useAccountingDate o then
            let closestWithContable := findClosestDateMatch amountMatches (Bank.fContable b) in
            match parseDate (Supplier.fecha cm), parseDate (Bank.fValor b),
                  parseDate (Bank.fContable b), closestWithContable with
            | Some closestDate, Some fValorDate, Some fContableDate, Some cwc =>
              let diffValor := time_diff closestDate fValorDate in
              let diffContable := time_diff closestDate fContableDate in
              if num_lt diffContable diffValor then Some cwc else closestMatch
            | _, _, _, _ => closestMatch
            end
          else closestMatch
        | None => closestMatch
        end
      end
    end.
Proof.
  unfold findSupplierMatch. fold (amount_candidates b pool o).
  destruct (amount_candidates b pool o) as [|m [|m' r]]; simpl; intro H; [lia|lia|reflexivity].
Qed.

(** C1 (amended): with two or more amount candidates there is no separate
    exact-date step.  (1) When some candidate shares the value date's
    month/year, the selected record is one of those candidates, the closest
    to the value date among them; so a candidate dated exactly at the
    accounting date but outside the value date's month is never preferred to
    them.  (2) Otherwise, with [useAccountingDate] on and some candidate in
    the accounting date's month/year, the selected record is the closest of
    those to the accounting date.  (3) Otherwise it is an amount candidate
    closest to the value date among all of them, or, with [useAccountingDate]
    on, closest to the accounting date among all of them.  (4) In particular,
    when some amount candidate is dated exactly at a valid value date, the
    selected record's date denotes that same day. *)
Theorem findSupplierMatch_exact_value_day (b : Bank.t) (pool : list Supplier.t)
    (o : RequiredOptions) :
  let am := amount_candidates b pool o in
  let vm := month_candidates am (Bank.fValor b) in
  let cm := month_candidates am (Bank.fContable b) in
  ((2 <= length am)%nat -> vm <> [] ->
     exists s, findSupplierMatch b pool o = Some s /\ In s vm
               /\ closest_among vm (Bank.fValor b) s)
  /\ ((2 <= length am)%nat -> vm = [] -> useAccountingDate o = true -> cm <> [] ->
     exists s, findSupplierMatch b pool o = Some s /\ In s cm
               /\ closest_among cm (Bank.fContable b) s)
  /\ ((2 <= length am)%nat -> vm = [] -> (useAccountingDate o = false \/ cm = []) ->
     exists s, findSupplierMatch b pool o = Some s /\ In s am
               /\ (closest_among am (Bank.fValor b) s
                   \/ (useAccountingDate o = true /\ closest_among am (Bank.fContable b) s)))
  /\ (forall c t, In c am -> Supplier.fecha c = Bank.fValor b ->
      parseDate (Bank.fValor b) = Some (Some t) ->
      exists s, findSupplierMatch b pool o = Some s
                /\ parseDate (Supplier.fecha s) = Some (Some t)).
Proof.
  cbv zeta. split; [|split; [|split]].
  - intros Hl Hv. rewrite (findSupplierMatch_several b pool o Hl), month_year_step_candidates.
    destruct (month_pick _ (Bank.fValor b) Hv) as (s & Hs & Hin & Hc).
    exists s. rewrite Hs. auto.
  - intros Hl Hv Hu Hc. rewrite (findSupplierMatch_several b pool o Hl),
      month_year_step_candidates, Hv, Hu, month_year_step_candidates.
    destruct (month_pick _ (Bank.fContable b) Hc) as (s & Hs & Hin & Hcl).
    exists s. rewrite Hs. auto.
  - intros Hl Hv Hu. rewrite (findSupplierMatch_several b pool o Hl), month_year_step_candidates, Hv.
    assert (Hne : amount_candidates b pool o <> [])
      by (intro E; rewrite E in Hl; simpl in Hl; lia).
    destruct (findClosestDateMatch_some _ (Bank.fValor b) Hne) as [x Hx].
    destruct (findClosestDateMatch_some _ (Bank.fContable b) Hne) as [y Hy].
    assert (Hskip : (if useAccountingDate o
                     then month_year_step (amount_candidates b pool o) (Bank.fContable b)
                     else None) = None).
    { destruct Hu as [-> | Hc]; [reflexivity|].
      destruct (useAccountingDate o); [|reflexivity]. rewrite month_year_step_candidates, Hc.
      reflexivity. }
    rewrite Hskip. cbv zeta. rewrite Hx, Hy.
    assert (Gx : In x (amount_candidates b pool o)
                 /\ (closest_among (amount_candidates b pool o) (Bank.fValor b) x
                     \/ (useAccountingDate o = true
                         /\ closest_among (amount_candidates b pool o) (Bank.fContable b) x)))
      by (split; [exact (findClosestDateMatch_in _ _ _ Hx)
                 | left; exact (findClosestDateMatch_closest_among _ _ _ Hx)]).
    destruct (useAccountingDate o) eqn:Eu; [|exists x; split; [reflexivity | exact Gx]].
    destruct (parseDate (Supplier.fecha x)), (parseDate (Bank.fValor b)),
      (parseDate (Bank.fContable b)); try (exists x; split; [reflexivity | exact Gx]).
    destruct (num_lt _ _); [|exists x; split; [reflexivity | exact Gx]].
    exists y. split; [reflexivity|]. split; [exact (findClosestDateMatch_in _ _ _ Hy)|].
    right. split; [reflexivity | exact (findClosestDateMatch_closest_among _ _ _ Hy)].
  - intros c t Hin Hc Ht. exact (findSupplierMatch_exact_day_gen b pool o c t Hin Hc Ht).
Qed.

Lemma findSupplierMatch_exact_value_day_witness :
  let pool := [Supplier.mk (js "A") (js "15/01/2025") [] (js "ACME") (js "FA") [] [] 100 [];
               Supplier.mk (js "B") (js "31/12/2024") [] (js "ACME") (js "FB") [] [] 100 [];
               Supplier.mk (js "C") (js "11/01/2025") [] (js "ACME") (js "FC") [] [] 100 []] in
  let b := Bank.mk (js "b1") (js "31/12/2024") (js "10/01/2025") [] [] (-100) None [] [] in
  (2 <= length (amount_candidates b pool DEFAULT_OPTIONS))%nat
  /\ month_candidates (amount_candidates b pool DEFAULT_OPTIONS) (Bank.fValor b) <> []
  /\ exists s, findSupplierMatch b pool DEFAULT_OPTIONS = Some s
       /\ In s (month_candidates (amount_candidates b pool DEFAULT_OPTIONS) (Bank.fValor b))
       /\ closest_among (month_candidates (amount_candidates b pool DEFAULT_OPTIONS) (Bank.fValor b))
            (Bank.fValor b) s.
Proof.
  cbv zeta.
  match goal with |- ?A /\ ?B /\ _ =>
    assert (H1 : A) by (vm_compute; lia); assert (H2 : B) by (vm_compute; discriminate) end.
  split; [exact H1|]. split; [exact H2|].
  exact (proj1 (findSupplierMatch_exact_value_day _ _ _) H1 H2).
Defined.
